(** * EOOS library: the linked list and its list iterator

    A shallow embedding of [library::AbstractLinkedList], [library::LinkedList]
    and [library::LinkedList::Iterator] (files [library.AbstractLinkedList.hpp]
    and [library.LinkedList.hpp]).

    - Nodes live in a heap, a finite map from addresses to node cells; a
      [Node*] is an optional address, [None] being [NULL].
    - An [int32] is a [Z]; signed overflow and the dereference of a null or
      dangling pointer have no defined behaviour in C++, and evaluate to
      [Undefined] here. The overflow checks are on [count_++], on
      [count_.self++] and on [getIndex() + 1] in [getLength]; the index of a
      node is below the number of nodes alive.
    - [new Node(element)] is answered by the environment: every call that may
      allocate takes the allocator's answer ([None] when it fails or gives a
      node that is not constructed, an unused address otherwise).
    - The iterator holds references to its list ([list_], [count_.list],
      [last_], [illegal_]); its operations therefore take and return the list
      state together with the iterator's own fields. *)

From Stdlib Require Import ZArith Lia.
From stdpp Require Import base decidable option numbers list gmap fin_maps.

Local Open Scope Z_scope.

(** ** Outcomes of C++ evaluation *)

Inductive outcome (A : Type) : Type :=
| Ok (a : A)
| Undefined.

Arguments Ok {A} a.
Arguments Undefined {A}.

#[global] Instance outcome_ret : MRet outcome := fun A a => Ok a.

#[global] Instance outcome_bind : MBind outcome := fun A B f m =>
  match m with
  | Ok a => f a
  | Undefined => Undefined
  end.

Definition is_Ok {A} (m : outcome A) : Prop := exists a, m = Ok a.

(** ** 32-bit signed integers *)

Definition INT32_MAX : Z := 2147483647.
Definition INT32_MIN : Z := -2147483648.

(** [a + b] on [int32]: undefined when the sum is not representable. *)
Definition add32 (a b : Z) : outcome Z :=
  if decide (INT32_MIN <= a + b <= INT32_MAX) then Ok (a + b) else Undefined.

(** [x++] on an [int32] lvalue. *)
Definition incr32 (x : Z) : outcome Z := add32 x 1.

Abbreviation addr := positive (only parsing).

Section LinkedList.

Context {T : Type} `{EqDecision T}.

(** ** library::LinkedNode *)

Record Node : Type := mkNode {
  element_ : T;
  index_ : Z;
  next_ : addr;
  prev_ : addr
}.

Abbreviation Heap := (gmap positive Node) (only parsing).
Abbreviation ptr := (option positive) (only parsing).

Definition set_index (i : Z) (n : Node) : Node :=
  mkNode (element_ n) i (next_ n) (prev_ n).
Definition set_next (a : addr) (n : Node) : Node :=
  mkNode (element_ n) (index_ n) a (prev_ n).
Definition set_prev (a : addr) (n : Node) : Node :=
  mkNode (element_ n) (index_ n) (next_ n) a.

(** [*p] for a [Node* p]. *)
Definition deref (h : Heap) (p : ptr) : outcome Node :=
  match p with
  | None => Undefined
  | Some a => match h !! a with
              | Some n => Ok n
              | None => Undefined
              end
  end.

(** Modelled from the spec: [library.LinkedNode.hpp] is not among the sources.
    Section 4.1: constructing a node gives an isolated node whose [next] and
    [previous] point to itself, with [index = 0]. *)
Definition Node_new (element : T) (self : addr) : Node :=
  mkNode element 0 self self.

(** Modelled from the spec: the renumbering of section 4.1, the indices of
    the nodes logically after the insertion point shift by +1. *)
Definition shift_up (k : Z) (n : Node) : Node :=
  if decide (k <= index_ n) then set_index (index_ n + 1) n else n.

(** Modelled from the spec: the renumbering on removal that keeps the indices
    [0..n-1] in traversal order (section 3). *)
Definition shift_down (k : Z) (n : Node) : Node :=
  if decide (k < index_ n) then set_index (index_ n - 1) n else n.

(** Modelled from the spec: [this->insertAfter(node)] splices the isolated
    [node] into the ring right after [this] and renumbers. *)
Definition insertAfter (h : Heap) (this node : addr) : outcome Heap :=
  t ← deref h (Some this);
  n ← deref h (Some node);
  let h1 := shift_up (index_ t + 1) <$> h in
  let h2 := <[node := mkNode (element_ n) (index_ t + 1) (next_ t) this]> h1 in
  let h3 := alter (set_prev node) (next_ t) h2 in
  Ok (alter (set_next node) this h3).

(** Modelled from the spec: [this->insertBefore(node)] splices the isolated
    [node] into the ring right before [this] and renumbers. *)
Definition insertBefore (h : Heap) (this node : addr) : outcome Heap :=
  t ← deref h (Some this);
  n ← deref h (Some node);
  let h1 := shift_up (index_ t) <$> h in
  let h2 := <[node := mkNode (element_ n) (index_ t) this (prev_ t)]> h1 in
  let h3 := alter (set_next node) (prev_ t) h2 in
  Ok (alter (set_prev node) this h3).

(** Modelled from the spec: [delete node] re-links the neighbours of the node,
    renumbers the nodes after it and frees the cell (section 3, lifecycle);
    an isolated node has no neighbour to re-link. *)
Definition Node_delete (h : Heap) (node : addr) : outcome Heap :=
  n ← deref h (Some node);
  if decide (next_ n = node) then Ok (delete node h)
  else
    let h1 := alter (set_next (next_ n)) (prev_ n) h in
    let h2 := alter (set_prev (prev_ n)) (next_ n) h1 in
    Ok (shift_down (index_ n) <$> delete node h2).

(** ** library::AbstractLinkedList *)

Record List : Type := mkList {
  constructed_ : bool;
  illegal_ : T;
  last_ : ptr;
  count_ : Z;
  heap_ : gmap positive Node
}.

Definition set_heap (h : Heap) (l : List) : List :=
  mkList (constructed_ l) (illegal_ l) (last_ l) (count_ l) h.

(** The constructor [AbstractLinkedList(const T& illegal)]; [constructed] is
    the flag of the root [Object]. *)
Definition List_new (constructed : bool) (illegal : T) : List :=
  mkList constructed illegal None 0 ∅.

Definition isConstructed (l : List) : bool := constructed_ l.

Definition getLength (l : List) : outcome Z :=
  match last_ l with
  | None => Ok 0
  | Some a => n ← deref (heap_ l) (Some a); add32 (index_ n) 1
  end.

Definition isEmpty (l : List) : bool :=
  match last_ l with None => true | Some _ => false end.

Definition isIndex (l : List) (index : Z) : outcome bool :=
  if decide (0 <= index) then
    len ← getLength l; Ok (bool_decide (index < len))
  else Ok false.

Definition isIndexOutOfBounds (l : List) (index : Z) : outcome bool :=
  if decide (index < 0) then Ok true
  else len ← getLength l; Ok (bool_decide (index > len)).

(** The loop [for(i=0; i<index; i++) node = node->getNext();]. *)
Fixpoint walk (h : Heap) (steps : nat) (node : addr) : outcome addr :=
  match steps with
  | O => Ok node
  | S k => n ← deref h (Some node); walk h k (next_ n)
  end.

Definition getNodeByIndex (l : List) (index : Z) : outcome ptr :=
  b ← isIndex l index;
  if negb b then Ok None
  else
    len ← getLength l;
    if decide (index = len - 1) then Ok (last_ l)
    else
      lst ← deref (heap_ l) (last_ l);
      node ← walk (heap_ l) (Z.to_nat index) (next_ lst);
      Ok (Some node).

(** The loop of [getNodeByElement]: [steps] iterations are left. *)
Fixpoint scan (h : Heap) (steps : nat) (node : addr) (element : T)
  : outcome ptr :=
  match steps with
  | O => Ok None
  | S k =>
      n ← deref h (Some node);
      if decide (element ≠ element_ n) then scan h k (next_ n) element
      else Ok (Some node)
  end.

Definition getNodeByElement (l : List) (element : T) : outcome ptr :=
  len ← getLength l;
  if decide (len = 0) then Ok None
  else
    lst ← deref (heap_ l) (last_ l);
    scan (heap_ l) (Z.to_nat len) (next_ lst) element.

(** [addNode]; [p] is what [new Node(element)] returns. *)
Definition addNode (p : ptr) (index : Z) (element : T) (l : List)
  : outcome (bool * List) :=
  oob ← isIndexOutOfBounds l index;
  if (oob : bool) then Ok (false, l)
  else
    match p with
    | None => Ok (false, l)
    | Some node =>
        let h := <[node := Node_new element node]> (heap_ l) in
        match last_ l with
        | None =>
            c ← incr32 (count_ l);
            Ok (true, mkList (constructed_ l) (illegal_ l) (Some node) c h)
        | Some lst =>
            if decide (index > 0) then
              after ← getNodeByIndex (set_heap h l) (index - 1);
              match after with
              | None =>
                  h' ← Node_delete h node;
                  Ok (false, set_heap h' l)
              | Some a =>
                  h' ← insertAfter h a node;
                  let last' := if decide (a = lst) then node else lst in
                  c ← incr32 (count_ l);
                  Ok (true, mkList (constructed_ l) (illegal_ l)
                                   (Some last') c h')
              end
            else
              before ← getNodeByIndex (set_heap h l) 0;
              match before with
              | None =>
                  h' ← Node_delete h node;
                  Ok (false, set_heap h' l)
              | Some b =>
                  h' ← insertBefore h b node;
                  c ← incr32 (count_ l);
                  Ok (true, mkList (constructed_ l) (illegal_ l)
                                   (last_ l) c h')
              end
        end
    end.

Definition removeNode (node : ptr) (l : List) : outcome (bool * List) :=
  match node with
  | None => Ok (false, l)
  | Some a =>
      last' ← (if decide (Some a = last_ l) then
                 len ← getLength l;
                 if decide (len = 1) then Ok None
                 else lst ← deref (heap_ l) (last_ l); Ok (Some (prev_ lst))
               else Ok (last_ l));
      h' ← Node_delete (heap_ l) a;
      c ← incr32 (count_ l);
      Ok (true, mkList (constructed_ l) (illegal_ l) last' c h')
  end.

(** [add(const T& element)] *)
Definition add (p : ptr) (element : T) (l : List) : outcome (bool * List) :=
  if isConstructed l then len ← getLength l; addNode p len element l
  else Ok (false, l).

(** [add(int32 index, const T& element)] *)
Definition add_at (p : ptr) (index : Z) (element : T) (l : List)
  : outcome (bool * List) :=
  if isConstructed l then addNode p index element l else Ok (false, l).

(** [remove(int32 index)] *)
Definition remove (index : Z) (l : List) : outcome (bool * List) :=
  if isConstructed l then node ← getNodeByIndex l index; removeNode node l
  else Ok (false, l).

Definition removeFirst (l : List) : outcome (bool * List) := remove 0 l.

Definition removeLast (l : List) : outcome (bool * List) :=
  len ← getLength l; remove (len - 1) l.

(** [remove()], the head of the queue. *)
Definition remove_head (l : List) : outcome (bool * List) := remove 0 l.

Definition removeElement (element : T) (l : List) : outcome (bool * List) :=
  if isConstructed l then node ← getNodeByElement l element; removeNode node l
  else Ok (false, l).

(** The loop of [clear]: [i] runs from [n - 1] down to [0]. *)
Fixpoint clear_loop (n : nat) (l : List) : outcome List :=
  match n with
  | O => Ok l
  | S i =>
      node ← getNodeByIndex l (Z.of_nat i);
      r ← removeNode node l;
      if (r.1 : bool) then clear_loop i r.2 else Ok r.2
  end.

Definition clear (l : List) : outcome List :=
  if isConstructed l then len ← getLength l; clear_loop (Z.to_nat len) l
  else Ok l.

Definition get (l : List) (index : Z) : outcome T :=
  if isConstructed l then
    node ← getNodeByIndex l index;
    match node with
    | Some a => n ← deref (heap_ l) (Some a); Ok (element_ n)
    | None => Ok (illegal_ l)
    end
  else Ok (illegal_ l).

Definition peek (l : List) : outcome T := get l 0.
Definition getFirst (l : List) : outcome T := get l 0.
Definition getLast (l : List) : outcome T :=
  len ← getLength l; get l (len - 1).

Definition getIllegal (l : List) : T := illegal_ l.

Definition setIllegal (value : T) (l : List) : List :=
  if isConstructed l then
    mkList (constructed_ l) value (last_ l) (count_ l) (heap_ l)
  else l.

Definition isIllegal (l : List) (value : T) : bool :=
  if isConstructed l then bool_decide (illegal_ l = value) else false.

Definition getIndexOf (l : List) (element : T) : outcome Z :=
  node ← getNodeByElement l element;
  match node with
  | Some a => n ← deref (heap_ l) (Some a); Ok (index_ n)
  | None => Ok (-1)
  end.

(** ** library::LinkedList::Iterator *)

Definition ILLEGAL_INDEX : Z := -1.

(** The iterator's own fields: [count_.self], [curs_] and [rindex_]. *)
Record Iterator : Type := mkIterator {
  self_ : Z;
  curs_ : ptr;
  rindex_ : Z
}.

(** [LinkedList::getListIterator]: the constructor and [construct(index)];
    [allocated] tells whether [new Iterator] gave an object. *)
Definition getListIterator (allocated : bool) (index : Z) (l : List)
  : outcome (option Iterator) :=
  if negb (isConstructed l) then Ok None
  else if negb allocated then Ok None
  else
    oob ← isIndexOutOfBounds l index;
    if (oob : bool) then Ok None
    else
      c ← getNodeByIndex l index;
      Ok (Some (mkIterator (count_ l) c ILLEGAL_INDEX)).

Definition getIterator (allocated : bool) (l : List)
  : outcome (option Iterator) :=
  getListIterator allocated 0 l.

Definition hasNext (l : List) (it : Iterator) : bool :=
  if decide (count_ l ≠ self_ it) then false
  else match curs_ it with None => false | Some _ => true end.

Definition getNextIndex (l : List) (it : Iterator) : outcome Z :=
  if hasNext l it then n ← deref (heap_ l) (curs_ it); Ok (index_ n)
  else getLength l.

Definition getNext (l : List) (it : Iterator) : outcome (T * Iterator) :=
  if negb (hasNext l it) then Ok (illegal_ l, it)
  else
    n ← deref (heap_ l) (curs_ it);
    let curs :=
      if decide (curs_ it ≠ last_ l) then Some (next_ n) else None in
    Ok (element_ n, mkIterator (self_ it) curs (index_ n)).

Definition hasPrevious (l : List) (it : Iterator) : outcome bool :=
  if decide (count_ l ≠ self_ it) then Ok false
  else match last_ l with
       | None => Ok false
       | Some lst =>
           n ← deref (heap_ l) (curs_ it);
           if decide (Some (prev_ n) = last_ l) then Ok false else Ok true
       end.

Definition getPrevious (l : List) (it : Iterator) : outcome (T * Iterator) :=
  b ← hasPrevious l it;
  if negb b then Ok (illegal_ l, it)
  else
    curs ← match curs_ it with
           | None => Ok (last_ l)
           | Some a => n ← deref (heap_ l) (Some a); Ok (Some (prev_ n))
           end;
    n ← deref (heap_ l) curs;
    Ok (element_ n, mkIterator (self_ it) curs (index_ n)).

Definition getPreviousIndex (l : List) (it : Iterator) : outcome Z :=
  b ← hasPrevious l it;
  if negb b then Ok (-1)
  else match curs_ it with
       | None => n ← deref (heap_ l) (last_ l); Ok (index_ n)
       | Some a =>
           n ← deref (heap_ l) (Some a);
           m ← deref (heap_ l) (Some (prev_ n));
           Ok (index_ m)
       end.

(** [Iterator::add]; [p] is what [new Node(element)] returns in [list_.add]. *)
Definition it_add (p : ptr) (element : T) (l : List) (it : Iterator)
  : outcome (bool * List * Iterator) :=
  if decide (count_ l ≠ self_ it) then Ok (false, l, it)
  else
    i ← getNextIndex l it;
    r ← add_at p i element l;
    if negb r.1 then Ok (false, r.2, it)
    else
      s ← incr32 (self_ it);
      Ok (true, r.2, mkIterator s (curs_ it) ILLEGAL_INDEX).

(** [Iterator::remove] *)
Definition it_remove (l : List) (it : Iterator)
  : outcome (bool * List * Iterator) :=
  if decide (count_ l ≠ self_ it) then Ok (false, l, it)
  else if decide (rindex_ it = ILLEGAL_INDEX) then Ok (false, l, it)
  else
    n ← deref (heap_ l) (curs_ it);
    let curs :=
      if decide (index_ n ≠ rindex_ it) then curs_ it
      else if decide (curs_ it ≠ last_ l) then Some (next_ n) else None in
    r ← remove (rindex_ it) l;
    if negb r.1 then Ok (false, r.2, it)
    else
      s ← incr32 (self_ it);
      Ok (true, r.2, mkIterator s curs ILLEGAL_INDEX).

End LinkedList.

Arguments Node : clear implicits.
Arguments List : clear implicits.

(** ** The ring of nodes behind a list

    A list of [n] elements is a ring of [n] cells: the cell at position [i]
    carries index [i], its [next] is the cell at position [i + 1] (the head
    for the tail) and its [prev] the cell at position [i - 1] (the tail for
    the head); [last_] is the cell at position [n - 1]. *)

Section Representation.

Context {T : Type} `{EqDecision T}.

Definition succ_pos (n i : nat) : nat := if decide (S i = n) then O else S i.
Definition pred_pos (n i : nat) : nat :=
  if decide (i = O) then pred n else pred i.

Definition ring_next (addrs : list positive) (i : nat) : positive :=
  default 1%positive (addrs !! succ_pos (length addrs) i).
Definition ring_prev (addrs : list positive) (i : nat) : positive :=
  default 1%positive (addrs !! pred_pos (length addrs) i).

Definition ring_cell (ns : list (positive * T)) (i : nat) (x : T) : Node T :=
  mkNode x (Z.of_nat i) (ring_next ns.*1 i) (ring_prev ns.*1 i).

Definition ring_heap (ns : list (positive * T)) : gmap positive (Node T) :=
  list_to_map (imap (fun i ax => (ax.1, ring_cell ns i ax.2)) ns).

(** The list state whose ring is [ns]. *)
Definition ring_list (constructed : bool) (illegal : T) (count : Z)
  (ns : list (positive * T)) : List T :=
  mkList constructed illegal (last ns.*1) count (ring_heap ns).

(** [Rep l ns]: the state [l] is the ring [ns], of addresses and elements in
    traversal order from the head. A list that is not constructed is empty,
    the index of the tail is an [int32], and so is the number of changes,
    which starts at [0]. *)
Record Rep (l : List T) (ns : list (positive * T)) : Prop := mkRep {
  rep_heap : heap_ l = ring_heap ns;
  rep_last : last_ l = last ns.*1;
  rep_nodup : NoDup ns.*1;
  rep_size : Z.of_nat (length ns) <= INT32_MAX;
  rep_constructed : constructed_ l = false -> ns = [];
  rep_count : 0 <= count_ l <= INT32_MAX
}.

(** [Ring l ns]: the heap of [l] holds the cells of the ring [ns], and
    possibly other cells, such as a node that is allocated and not yet
    linked. *)
Record Ring (l : List T) (ns : list (positive * T)) : Prop := mkRing {
  ring_cells_in : forall i a x,
    ns !! i = Some (a, x) -> heap_ l !! a = Some (ring_cell ns i x);
  ring_last : last_ l = last ns.*1;
  ring_size_le : Z.of_nat (length ns) <= INT32_MAX
}.

(** A state is well formed when it is some ring. *)
Definition wf (l : List T) : Prop := exists ns, Rep l ns.

(** The elements of a ring, in order. *)
Definition elements (ns : list (positive * T)) : list T := ns.*2.

(** What the allocator may answer to [new Node]: nothing, or an address not
    in use, and then fewer than [INT32_MAX] nodes are alive. *)
Definition alloc_ok (l : List T) (p : option positive) : Prop :=
  match p with
  | None => True
  | Some a => heap_ l !! a = None /\ Z.of_nat (size (heap_ l)) < INT32_MAX
  end.

(** [alloc_ok] as a test. *)
Definition alloc_okb (l : List T) (p : option positive) : bool :=
  match p with
  | None => true
  | Some a =>
      match heap_ l !! a with
      | None => bool_decide (Z.of_nat (size (heap_ l)) < INT32_MAX)
      | Some _ => false
      end
  end.

(** [l] with [y] put at position [k]. *)
Definition insert_at {A} (k : nat) (y : A) (l : list A) : list A :=
  take k l ++ y :: drop k l.

(** The first node that holds [element], with its position. *)
Definition find_node (element : T) (ns : list (positive * T))
  : option (nat * (positive * T)) :=
  list_find (fun ax : positive * T => element = ax.2) ns.

(** ** Calls on a list

    The public operations of the list as a type of calls; a call that may
    allocate carries the allocator's answer. *)

Inductive Result : Type :=
| RBool (b : bool)
| RInt (z : Z)
| RElem (x : T)
| RUnit.

Inductive Op : Type :=
| OAdd (p : option positive) (element : T)
| OAddAt (p : option positive) (index : Z) (element : T)
| ORemove (index : Z)
| ORemoveElement (element : T)
| ORemoveFirst
| ORemoveLast
| ORemoveHead
| OClear
| OSetIllegal (value : T)
| OGet (index : Z)
| OGetFirst
| OGetLast
| OPeek
| OGetLength
| OIsEmpty
| OGetIndexOf (element : T)
| OIsIndex (index : Z)
| OIsIllegal (value : T)
| OGetIllegal.

Definition ret_bool (m : outcome (bool * List T))
  : outcome (Result * List T) :=
  r ← m; Ok (RBool r.1, r.2).

(** The read accessors are [const] methods: the list comes back as it is. *)
Definition exec (o : Op) (l : List T) : outcome (Result * List T) :=
  match o with
  | OAdd p x => ret_bool (add p x l)
  | OAddAt p i x => ret_bool (add_at p i x l)
  | ORemove i => ret_bool (remove i l)
  | ORemoveElement x => ret_bool (removeElement x l)
  | ORemoveFirst => ret_bool (removeFirst l)
  | ORemoveLast => ret_bool (removeLast l)
  | ORemoveHead => ret_bool (remove_head l)
  | OClear => l' ← clear l; Ok (RUnit, l')
  | OSetIllegal v => Ok (RUnit, setIllegal v l)
  | OGet i => x ← get l i; Ok (RElem x, l)
  | OGetFirst => x ← getFirst l; Ok (RElem x, l)
  | OGetLast => x ← getLast l; Ok (RElem x, l)
  | OPeek => x ← peek l; Ok (RElem x, l)
  | OGetLength => n ← getLength l; Ok (RInt n, l)
  | OIsEmpty => Ok (RBool (isEmpty l), l)
  | OGetIndexOf x => i ← getIndexOf l x; Ok (RInt i, l)
  | OIsIndex i => b ← isIndex l i; Ok (RBool b, l)
  | OIsIllegal v => Ok (RBool (isIllegal l v), l)
  | OGetIllegal => Ok (RElem (getIllegal l), l)
  end.

Fixpoint run (os : list Op) (l : List T) : outcome (list Result * List T) :=
  match os with
  | [] => Ok ([], l)
  | o :: os' =>
      r ← exec o l;
      rs ← run os' r.2;
      Ok (r.1 :: rs.1, rs.2)
  end.

Definition is_add (o : Op) : bool :=
  match o with OAdd _ _ | OAddAt _ _ _ => true | _ => false end.

Definition is_remove (o : Op) : bool :=
  match o with
  | ORemove _ | ORemoveElement _ | ORemoveFirst | ORemoveLast | ORemoveHead =>
      true
  | _ => false
  end.

Definition is_read (o : Op) : bool :=
  match o with
  | OGet _ | OGetFirst | OGetLast | OPeek | OGetLength | OIsEmpty
  | OGetIndexOf _ | OIsIndex _ | OIsIllegal _ | OGetIllegal => true
  | _ => false
  end.

Definition op_alloc_okb (o : Op) (l : List T) : bool :=
  match o with
  | OAdd p _ | OAddAt p _ _ => alloc_okb l p
  | _ => true
  end.

(** Every allocation of the run is answered as [alloc_ok] allows. *)
Fixpoint allocs_okb (os : list Op) (l : List T) : bool :=
  match os with
  | [] => true
  | o :: os' =>
      op_alloc_okb o l &&
      match exec o l with
      | Ok r => allocs_okb os' r.2
      | Undefined => true
      end
  end.

(** The states a list can be in: as the constructor leaves it, and after any
    call whose allocation is answered as [alloc_ok] allows. *)
Inductive reachable : List T -> Prop :=
| reachable_new constructed illegal :
    reachable (List_new constructed illegal)
| reachable_exec l o r l' :
    reachable l -> op_alloc_okb o l = true -> exec o l = Ok (r, l') ->
    reachable l'.

(** The number of calls selected by [sel] that returned [true]. *)
Fixpoint count_true (sel : Op -> bool) (os : list Op) (rs : list Result) : Z :=
  match os, rs with
  | o :: os', r :: rs' =>
      (match r with
       | RBool true => if sel o then 1 else 0
       | _ => 0
       end) + count_true sel os' rs'
  | _, _ => 0
  end.

(** The ring after a call that changes the list, [None] for a call that
    fails or changes nothing. *)
Definition next_ring (o : Op) (constructed : bool)
  (ns : list (positive * T)) : option (list (positive * T)) :=
  match o with
  | OAdd (Some a) x => if constructed then Some (ns ++ [(a, x)]) else None
  | OAddAt (Some a) i x =>
      if decide (constructed = true /\ 0 <= i <= Z.of_nat (length ns))
      then Some (insert_at (Z.to_nat i) (a, x) ns) else None
  | ORemove i =>
      if decide (0 <= i < Z.of_nat (length ns))
      then Some (delete (Z.to_nat i) ns) else None
  | ORemoveElement x =>
      match find_node x ns with
      | Some (k, _) => Some (delete k ns)
      | None => None
      end
  | ORemoveFirst | ORemoveHead =>
      if decide (ns = []) then None else Some (delete O ns)
  | ORemoveLast =>
      if decide (ns = []) then None else Some (delete (pred (length ns)) ns)
  | _ => None
  end.

(** What [get] answers on a list with the elements [xs]. *)
Definition element_at (illegal : T) (xs : list T) (index : Z) : T :=
  if decide (0 <= index) then default illegal (xs !! Z.to_nat index)
  else illegal.

(** ** Iterators on a list *)

(** The iterator has seen every change of its list. *)
Definition fresh_it (l : List T) (it : Iterator) : Prop :=
  count_ l = self_ it.

(** The list has changed behind the back of the iterator. *)
Definition stale (l : List T) (it : Iterator) : Prop :=
  self_ it < count_ l.

(** [Cursor l ns it k]: the iterator has seen every change of the list and
    its cursor is the node at position [k] of the ring, or null for
    [k = length ns], past the last element; the last-returned index is
    [ILLEGAL_INDEX] or the position on one side of the cursor. *)
Record Cursor (l : List T) (ns : list (positive * T)) (it : Iterator)
  (k : nat) : Prop := mkCursor {
  cur_fresh : count_ l = self_ it;
  cur_pos : (k <= length ns)%nat;
  cur_node : curs_ it = ns.*1 !! k;
  cur_rindex :
    rindex_ it = ILLEGAL_INDEX \/
    exists r, rindex_ it = Z.of_nat r /\ (r < length ns)%nat /\
              (r = k \/ S r = k)
}.

(** A call has changed the structure of the list: it added or removed and
    returned [true], or the nodes are not what they were. *)
Definition modifies (o : Op) (r : Result) (l l1 : List T) : Prop :=
  (is_add o || is_remove o = true /\ r = RBool true) \/ heap_ l1 <> heap_ l.

(** What every operation of the iterator answers when it refuses to work. *)
Definition refuses (l : List T) (it : Iterator) : Prop :=
  hasNext l it = false /\
  hasPrevious l it = Ok false /\
  getNext l it = Ok (illegal_ l, it) /\
  getPrevious l it = Ok (illegal_ l, it) /\
  getNextIndex l it = getLength l /\
  getPreviousIndex l it = Ok (-1) /\
  (forall p x, it_add p x l it = Ok (false, l, it)) /\
  it_remove l it = Ok (false, l, it).

End Representation.

Arguments Result : clear implicits.
Arguments Op : clear implicits.

(** ** Lists of integers used as examples *)

Module Examples.

Definition empty : List Z := List_new true (-1).

(** [add(10)], [add(20)], [add(1, 15)] on the empty list, the nodes being
    allocated at the addresses 1, 2 and 3. *)
Definition three_adds : list (Op Z) :=
  [OAdd (Some 1%positive) 10; OAdd (Some 2%positive) 20;
   OAddAt (Some 3%positive) 1 15].

Definition list_10_15_20 : List Z :=
  ring_list true (-1) 3 [(1%positive, 10); (3%positive, 15); (2%positive, 20)].

Definition list_15_20 : List Z :=
  ring_list true (-1) 4 [(3%positive, 15); (2%positive, 20)].

Definition four_calls : list (Op Z) := three_adds ++ [ORemove 0].
Definition four_true : list (Result Z) :=
  [RBool true; RBool true; RBool true; RBool true].

Definition list_10 : List Z := ring_list true (-1) 1 [(1%positive, 10)].

(** The sequence that [get] shows for the indices [0 .. n-1]. *)
Definition observe (l : List Z) (n : nat) : list (outcome Z) :=
  (fun i => get l (Z.of_nat i)) <$> seq 0 n.

(** A list that is not constructed. *)
Definition unconstructed : List Z := List_new false (-1).

(** A list in which [10] occurs twice. *)
Definition ring_10_20_10 : list (positive * Z) :=
  [(1%positive, 10); (2%positive, 20); (3%positive, 10)].
Definition list_10_20_10 : List Z := ring_list true (-1) 3 ring_10_20_10.

Definition ring_15_20 : list (positive * Z) :=
  [(3%positive, 15); (2%positive, 20)].

(** The iterator of [list_10] made at index 0, and what it is after
    [getNext()] has returned the only element. *)
Definition it_10_start : Iterator :=
  mkIterator 1 (Some 1%positive) ILLEGAL_INDEX.
Definition it_10_end : Iterator := mkIterator 1 None 0.

(** The iterator of [list_15_20] made at index 1, and what it is after
    [getNext()] has returned [20]. *)
Definition it_20 : Iterator := mkIterator 4 (Some 2%positive) ILLEGAL_INDEX.
Definition it_20_end : Iterator := mkIterator 4 None 1.

(** The iterator of [list_15_20] made at index 2, past the last element. *)
Definition it_past : Iterator := mkIterator 4 None ILLEGAL_INDEX.

(** The iterator of the empty list made at index 0. *)
Definition it_empty : Iterator := mkIterator 0 None ILLEGAL_INDEX.

End Examples.

(** ** library::AbstractBuffer and library::Buffer

    A buffer is its [count_], its illegal value and the array behind the
    pointer that [getBuffer()] returns: the member [arr_] of the static
    buffer [Buffer<T,L,A>], the array [buf_] points to for the dynamic
    buffer [Buffer<T,0,A>]; [None] is the null pointer. [buf[i]] has no
    defined behaviour through a null pointer or outside the array. The cells
    of a new array hold what the memory held, which the environment tells.
    A buffer [t] owns its array: it is the static buffer, or the dynamic
    buffer that has allocated it, and two of them are the same object or
    have no cell in common. Dynamic buffers over arrays given from outside,
    which the constructors that take a [T*] make, may have cells in common;
    for them the loop of [copy] is embedded on the array of the caller that
    holds both, as [copy_shared]. *)

Module Buffer.

Section Defs.

Context {T : Type} `{EqDecision T}.

(** The two implementations of the virtual [getBuffer()]. *)
Inductive kind : Type := Static | Dynamic.

Record t : Type := mk {
  kind_ : kind;
  constructed_ : bool;
  count_ : Z;
  illegal_ : T;
  buf_ : option (list T)
}.

Definition set_buf (buf : option (list T)) (b : t) : t :=
  mk (kind_ b) (constructed_ b) (count_ b) (illegal_ b) buf.

(** [Buffer<T,L,A>(illegal)]: [count_] is [L], the number of cells of the
    member [arr_], and [buf_] points to [arr_]; [constructed] is the flag of
    the root [Object]. *)
Definition new_static (constructed : bool) (illegal : T) (arr : list T) : t :=
  mk Static constructed (Z.of_nat (length arr)) illegal (Some arr).

(** [construct(length)] of the dynamic buffer on the root flag and [buf_];
    [mem] is what [A::allocate] returns. *)
Definition construct (constructed : bool) (buf mem : option (list T))
  : bool * option (list T) :=
  if constructed then
    let buf' := match buf with None => mem | Some _ => buf end in
    (match buf' with None => false | Some _ => true end, buf')
  else (false, buf).

(** [Buffer<T,0,A>(length, illegal)]; [setConstructed] stores the result of
    [construct]. *)
Definition new_dynamic (constructed : bool) (length : Z) (illegal : T)
  (mem : option (list T)) : t :=
  let r := construct constructed None mem in
  mk Dynamic r.1 length illegal r.2.

Definition isConstructed (b : t) : bool := constructed_ b.

Definition getBuffer (b : t) : option (list T) :=
  match kind_ b with
  | Static => buf_ b
  | Dynamic => if negb (isConstructed b) then None else buf_ b
  end.

Definition getLength (b : t) : Z := count_ b.

Definition isEmpty (b : t) : bool := bool_decide (count_ b = 0).

Definition getIllegal (b : t) : T := illegal_ b.

Definition setIllegal (value : T) (b : t) : t :=
  mk (kind_ b) (constructed_ b) (count_ b) value (buf_ b).

Definition isIllegal (b : t) (value : T) : bool :=
  bool_decide (illegal_ b = value).

(** The cell [buf[i]] of a [T* buf]. *)
Definition cell (buf : option (list T)) (i : Z) : outcome nat :=
  match buf with
  | None => Undefined
  | Some cells =>
      if decide (0 <= i < Z.of_nat (length cells)) then Ok (Z.to_nat i)
      else Undefined
  end.

(** What the [T&] that [operator[]] returns refers to: the member
    [illegal_] or a cell of the array. *)
Inductive place : Type :=
| AtIllegal
| AtCell (k : nat).

(** [operator[](i)] *)
Definition subscript (b : t) (i : Z) : outcome place :=
  let buf := getBuffer b in
  if negb (constructed_ b) || bool_decide (i >= count_ b)
     || match buf with None => true | Some _ => false end
  then Ok AtIllegal
  else k ← cell buf i; Ok (AtCell k).

Definition load (b : t) (p : place) : outcome T :=
  match p with
  | AtIllegal => Ok (illegal_ b)
  | AtCell k =>
      match buf_ b ≫= (fun cells => cells !! k) with
      | Some x => Ok x
      | None => Undefined
      end
  end.

Definition store (b : t) (p : place) (value : T) : t :=
  match p with
  | AtIllegal => setIllegal value b
  | AtCell k => set_buf (<[k := value]> <$> buf_ b) b
  end.

(** [b[i]] read, and [b[i] = value]. *)
Definition get (b : t) (i : Z) : outcome T := p ← subscript b i; load b p.

Definition set (b : t) (i : Z) (value : T) : outcome t :=
  p ← subscript b i; Ok (store b p value).

(** The loop [for(i=index; i<max; i++) buf[i] = value;], [steps] rounds
    from [i]. *)
Fixpoint fill_loop (steps : nat) (i : Z) (value : T) (buf : option (list T))
  : outcome (option (list T)) :=
  match steps with
  | O => Ok buf
  | S n =>
      k ← cell buf i;
      fill_loop n (i + 1) value (<[k := value]> <$> buf)
  end.

(** [fill(value, index, count)] *)
Definition fill_at (value : T) (index count : Z) (b : t) : outcome t :=
  if negb (constructed_ b) then Ok b
  else if decide (index >= count_ b) then Ok b
  else
    let buf := getBuffer b in
    s ← add32 index count;
    let max := if decide (s <= count_ b) then s else count_ b in
    buf' ← fill_loop (Z.to_nat (max - index)) index value buf;
    Ok (set_buf buf' b).

(** [fill(value, count)] *)
Definition fill_n (value : T) (count : Z) (b : t) : outcome t :=
  fill_at value 0 count b.

(** [fill(value)] *)
Definition fill (value : T) (b : t) : outcome t :=
  fill_at value 0 (count_ b) b.

(** The loop [for(i=0; i<size; i++) buf1[i] = buf2[i];], [steps] rounds
    from [i]. *)
Fixpoint copy_loop (steps : nat) (i : Z) (buf1 buf2 : option (list T))
  : outcome (option (list T)) :=
  match steps with
  | O => Ok buf1
  | S n =>
      k2 ← cell buf2 i;
      match buf2 ≫= (fun cells => cells !! k2) with
      | None => Undefined
      | Some x =>
          k1 ← cell buf1 i;
          copy_loop n (i + 1) (<[k1 := x]> <$> buf1) buf2
      end
  end.

(** [copy(buf)], which is what [operator=] calls; [b] is [*this]. The
    source and the target own their arrays, so that a cell written is no
    cell of the source still to be read, unless both are one object, where
    each cell receives its own value. *)
Definition copy (src : t) (b : t) : outcome t :=
  if negb (constructed_ b) then Ok b
  else
    let size1 := getLength b in
    let size2 := getLength src in
    let size := if decide (size1 < size2) then size1 else size2 in
    let buf1 := getBuffer b in
    let buf2 := getBuffer src in
    buf' ← copy_loop (Z.to_nat size) 0 buf1 buf2;
    Ok (set_buf buf' b).

(** The loop [for(i=0; i<size; i++) buf1[i] = buf2[i];] on two arrays that
    lie in one array [arr] of the caller, [buf1 = arr + off1] and
    [buf2 = arr + off2]; [steps] rounds from [i]. A round reads [arr] as
    the rounds before it have left it. *)
Fixpoint copy_shared_loop (steps i off1 off2 : nat) (arr : list T)
  : outcome (list T) :=
  match steps with
  | O => Ok arr
  | S n =>
      match arr !! (off2 + i)%nat with
      | None => Undefined
      | Some x =>
          if decide (off1 + i < length arr)%nat then
            copy_shared_loop n (S i) off1 off2 (<[(off1 + i)%nat := x]> arr)
          else Undefined
      end
  end.

(** [copy(buf)] of a constructed buffer [Buffer<T,0,A>(size1, arr + off1)]
    from a constructed buffer [Buffer<T,0,A>(size2, arr + off2)]; the
    result is the array of the caller after the call. *)
Definition copy_shared (size1 size2 : Z) (off1 off2 : nat) (arr : list T)
  : outcome (list T) :=
  let size := if decide (size1 < size2) then size1 else size2 in
  copy_shared_loop (Z.to_nat size) 0 off1 off2 arr.

(** The buffer owns an array of [count_] cells. *)
Definition sized (b : t) : Prop :=
  exists cells, buf_ b = Some cells /\ Z.of_nat (length cells) = count_ b.

(** A constructed buffer that owns the array [cs], of [count_] cells. *)
Definition holds (b : t) (cs : list T) : Prop :=
  constructed_ b = true /\ buf_ b = Some cs /\
  Z.of_nat (length cs) = count_ b.

(** The cells of the buffer, none behind a null pointer. *)
Definition cells (b : t) : list T := default [] (buf_ b).

End Defs.

Arguments t : clear implicits.

End Buffer.

(** ** AbstractLinkedList::array *)

Section Array.

Context {T : Type} `{EqDecision T}.

(** The loop of [array]: the element of [node] is assigned through
    [operator[](i)] of the buffer and [node = node->getNext();], [steps]
    rounds from [i]. *)
Fixpoint array_loop (h : gmap positive (Node T)) (steps : nat) (i : Z)
  (node : positive) (b : Buffer.t T) : outcome (Buffer.t T) :=
  match steps with
  | O => Ok b
  | S k =>
      n ← deref h (Some node);
      b' ← Buffer.set b i (element_ n);
      array_loop h k (i + 1) (next_ n) b'
  end.

(** [array()]. [no_strict_misra] tells whether [EOOS_NO_STRICT_MISRA_RULES]
    is defined, [allocated] whether [new Buffer] gave an object, and [mem] is
    what [A::allocate] returns to its constructor. *)
Definition array (no_strict_misra allocated : bool) (mem : option (list T))
  (l : List T) : outcome (option (Buffer.t T)) :=
  if negb no_strict_misra then Ok None
  else if negb (isConstructed l) then Ok None
  else
    count ← getLength l;
    if decide (count = 0) then Ok None
    else
      let buf := Buffer.new_dynamic allocated count (illegal_ l) mem in
      if negb allocated || negb (Buffer.isConstructed buf) then Ok None
      else
        lst ← deref (heap_ l) (last_ l);
        b ← array_loop (heap_ l) (Z.to_nat count) 0 (next_ lst) buf;
        Ok (Some b).

(** [Iterator::getIllegal], [setIllegal] and [isIllegal] pass the call to
    the list. *)
Definition it_getIllegal (l : List T) (it : Iterator) : T := getIllegal l.

Definition it_setIllegal (value : T) (l : List T) (it : Iterator) : List T :=
  setIllegal value l.

Definition it_isIllegal (l : List T) (it : Iterator) (value : T) : bool :=
  isIllegal l value.

(** ** Loops of a client *)

(** [while(it->hasNext()) { ... it->getNext() ... }], cut after [n] rounds:
    the elements returned, and the iterator as the loop leaves it. *)
Fixpoint next_all (n : nat) (l : List T) (it : Iterator)
  : outcome (list T * Iterator) :=
  match n with
  | O => Ok ([], it)
  | S k =>
      if hasNext l it then
        r ← getNext l it;
        rs ← next_all k l r.2;
        Ok (r.1 :: rs.1, rs.2)
      else Ok ([], it)
  end.

(** [while(it->hasPrevious()) { ... it->getPrevious() ... }], cut after [n]
    rounds. *)
Fixpoint previous_all (n : nat) (l : List T) (it : Iterator)
  : outcome (list T * Iterator) :=
  match n with
  | O => Ok ([], it)
  | S k =>
      b ← hasPrevious l it;
      if (b : bool) then
        r ← getPrevious l it;
        rs ← previous_all k l r.2;
        Ok (r.1 :: rs.1, rs.2)
      else Ok ([], it)
  end.

(** The list as a queue: [add(x)] for each element of [axs], the node of
    [x] being allocated at the address paired with it. *)
Definition enqueue_all (axs : list (positive * T)) : list (Op T) :=
  (fun ax => OAdd (Some ax.1) ax.2) <$> axs.

(** [peek()] then [remove()], [n] times. *)
Fixpoint dequeue_all (n : nat) : list (Op T) :=
  match n with
  | O => []
  | S k => OPeek :: ORemoveHead :: dequeue_all k
  end.

(** What [dequeue_all] returns on a queue that holds [xs]. *)
Definition dequeued (xs : list T) : list (Result T) :=
  xs ≫= (fun x => [RElem x; RBool true]).

End Array.

(** ** The context of a dynamic string

    [AbstractString<Type,0,Alloc>::Context] of [library.AbstractString.hpp]:
    the pointer to the characters of the string, its length and the number
    of characters the array has room for. [size_t] is an unsigned integer of
    [size_bits] bits and [sizeof_Type] is [sizeof(Type)]; a conversion to
    [size_t] is modulo [2 ^ size_bits], and [static_cast<int32>] of a
    [size_t] keeps the low 32 bits as a two's complement number. The array
    is known by its address. *)

Module StringContext.

Section Defs.

Context (sizeof_Type size_bits : Z).

Definition to_size_t (z : Z) : Z := z mod 2 ^ size_bits.

Definition to_int32 (z : Z) : Z := (z + 2 ^ 31) mod 2 ^ 32 - 2 ^ 31.

(** [calculateSize(len)]: the bytes of [len] characters and a terminator,
    aligned to eight. *)
Definition calculateSize (len : Z) : Z :=
  let size :=
    to_size_t (to_size_t (to_size_t len * sizeof_Type) + sizeof_Type) in
  let size :=
    if decide (Z.land size 7 ≠ 0)
    then to_size_t (Z.land size (to_size_t (Z.lnot 7)) + 8)
    else size in
  to_int32 size.

(** [calculateLength(size)]; the division of [int32] truncates. *)
Definition calculateLength (size : Z) : Z :=
  let charSize := to_int32 sizeof_Type in
  if decide (charSize = 0) then 0
  else
    let len := Z.quot size charSize in
    if decide (len > 1) then len - 1 else 0.

Record t : Type := mk {
  str : option positive;
  len : Z;
  max : Z
}.

(** [Context()] *)
Definition new : t := mk None 0 0.

(** [allocate(length)]; [mem] is what [Alloc::allocate(size)] returns. *)
Definition allocate (mem : option positive) (length : Z) (c : t) : bool * t :=
  match str c with
  | Some _ => (false, c)
  | None =>
      let size := calculateSize length in
      match mem with
      | None => (false, c)
      | Some string => (true, mk (Some string) length (calculateLength size))
      end
  end.

(** [free()] *)
Definition free (c : t) : t :=
  match str c with
  | Some _ => mk None 0 0
  | None => c
  end.

(** [AbstractString::isFit(len)] on the context of the string. *)
Definition isFit (c : t) (length : Z) : bool :=
  if decide (length > max c) then false else true.

End Defs.

End StringContext.

(** ** More lists, iterators and buffers of integers used as examples *)

Module Samples.

(** [[15, 20]] after [add(1, 17)], the node being allocated at address 7. *)
Definition ring_15_17_20 : list (positive * Z) :=
  [(3%positive, 15); (7%positive, 17); (2%positive, 20)].
Definition list_15_17_20 : List Z := ring_list true (-1) 5 ring_15_17_20.

(** The iterator of [Examples.list_15_20] made at index 0, and what it is
    after [getNext()] has returned [15]. *)
Definition it_15 : Iterator := mkIterator 4 (Some 3%positive) ILLEGAL_INDEX.
Definition it_15_next : Iterator := mkIterator 4 (Some 2%positive) 0.

(** The iterator [Examples.it_20] after its [add(17)]. *)
Definition it_20_added : Iterator :=
  mkIterator 5 (Some 2%positive) ILLEGAL_INDEX.

(** Three nodes to be added to a queue. *)
Definition nodes_10_20_30 : list (positive * Z) :=
  [(1%positive, 10); (2%positive, 20); (3%positive, 30)].

(** Two static buffers. *)
Definition buffer_1_2_3 : Buffer.t Z := Buffer.new_static true (-1) [1; 2; 3].
Definition buffer_7_8 : Buffer.t Z := Buffer.new_static true 0 [7; 8].

(** A dynamic buffer of two cells whose array could not be allocated. *)
Definition buffer_failed : Buffer.t Z := Buffer.new_dynamic true 2 0 None.

(** The list [[10]] after [INT32_MAX] changes. *)
Definition list_at_max : List Z :=
  ring_list true (-1) INT32_MAX [(1%positive, 10)].

End Samples.
(** ** Lists with an element inserted *)

Section InsertAt.

Context {A : Type}.
Implicit Types (l : list A) (k i : nat).

Lemma length_insert_at k (y : A) l :
  length (insert_at k y l) = S (length l).
Proof.
  unfold insert_at. rewrite length_app. simpl.
  rewrite length_take, length_drop. lia.
Qed.

Lemma lookup_insert_at k (y : A) l i :
  (k <= length l)%nat ->
  insert_at k y l !! i =
    if decide (i < k)%nat then l !! i
    else if decide (i = k) then Some y else l !! pred i.
Proof.
  intros Hk. unfold insert_at. rewrite lookup_app.
  rewrite lookup_take. case_decide.
  - destruct (l !! i) eqn:E; [done|].
    apply lookup_ge_None in E. lia.
  - assert (length (take k l) = k) as -> by (rewrite length_take; lia).
    case_decide.
    + subst. by rewrite Nat.sub_diag.
    + destruct (i - k)%nat as [|j] eqn:E; [lia|]. simpl.
      rewrite lookup_drop. f_equal. lia.
Qed.

Lemma fmap_insert_at {B} (f : A -> B) k (y : A) l :
  f <$> insert_at k y l = insert_at k (f y) (f <$> l).
Proof.
  unfold insert_at. by rewrite fmap_app, fmap_cons, fmap_take, fmap_drop.
Qed.

Lemma elem_of_insert_at k (y : A) l (x : A) :
  x ∈ insert_at k y l <-> x = y \/ x ∈ l.
Proof.
  unfold insert_at. rewrite elem_of_app, elem_of_cons.
  assert (x ∈ l <-> x ∈ take k l \/ x ∈ drop k l) as ->; [|tauto].
  by rewrite <- elem_of_app, take_drop.
Qed.

Lemma NoDup_insert_at k (y : A) l :
  NoDup l -> y ∉ l -> NoDup (insert_at k y l).
Proof.
  intros Hnd Hy. unfold insert_at.
  rewrite <- (take_drop k l) in Hnd, Hy.
  apply NoDup_app in Hnd as (H1 & H2 & H3).
  rewrite elem_of_app in Hy.
  apply NoDup_app. split_and!; [done| |].
  - intros x Hx. rewrite elem_of_cons. intros [->|?]; [tauto|]. by eapply H2.
  - apply NoDup_cons. tauto.
Qed.

Lemma insert_at_length (y : A) l : insert_at (length l) y l = l ++ [y].
Proof. unfold insert_at. by rewrite take_ge, drop_ge by lia. Qed.

End InsertAt.

(** ** The cells of a ring *)

Section Ring.

Context {T : Type} `{EqDecision T}.
Implicit Types (ns : list (positive * T)) (l : List T) (a b : positive).

Lemma ring_keys ns :
  (imap (fun i (ax : positive * T) => (ax.1, ring_cell ns i ax.2)) ns).*1
  = ns.*1.
Proof.
  generalize (ring_cell ns). intros f.
  revert f. induction ns as [|[a x] ns IH]; intros f; [done|].
  simpl. f_equal. apply (IH (fun i => f (S i))).
Qed.

Lemma ring_lookup ns i a x :
  NoDup ns.*1 -> ns !! i = Some (a, x) ->
  ring_heap ns !! a = Some (ring_cell ns i x).
Proof.
  intros Hnd Hi. unfold ring_heap.
  apply elem_of_list_to_map; [by rewrite ring_keys|].
  apply (elem_of_lookup_imap_2
           (fun i (ax : positive * T) => (ax.1, ring_cell ns i ax.2))
           ns (a, x) i Hi).
Qed.

Lemma ring_lookup_None ns a : a ∉ ns.*1 -> ring_heap ns !! a = None.
Proof.
  intros Ha. unfold ring_heap.
  apply not_elem_of_list_to_map_1. by rewrite ring_keys.
Qed.

Lemma ring_lookup_Some ns a c :
  ring_heap ns !! a = Some c ->
  exists i x, ns !! i = Some (a, x) /\ c = ring_cell ns i x.
Proof.
  unfold ring_heap. intros Hc.
  apply elem_of_list_to_map_2 in Hc.
  apply elem_of_lookup_imap_1 in Hc as (i & [b x] & Heq & Hi).
  simpl in Heq. injection Heq as -> ->. eauto.
Qed.

Lemma ring_lookup_fresh ns a : ring_heap ns !! a = None -> a ∉ ns.*1.
Proof.
  unfold ring_heap. intros Hnone.
  apply not_elem_of_list_to_map_2 in Hnone. by rewrite ring_keys in Hnone.
Qed.

Lemma ring_size ns : NoDup ns.*1 -> size (ring_heap ns) = length ns.
Proof.
  intros Hnd. unfold ring_heap.
  rewrite map_size_list_to_map by (by rewrite ring_keys).
  by rewrite length_imap.
Qed.

Lemma ring_heap_intro ns (h : gmap positive (Node T)) :
  NoDup ns.*1 ->
  (forall b, b ∉ ns.*1 -> h !! b = None) ->
  (forall i a x, ns !! i = Some (a, x) -> h !! a = Some (ring_cell ns i x)) ->
  h = ring_heap ns.
Proof.
  intros Hnd Hout Hin. apply map_eq. intros b.
  destruct (decide (b ∈ ns.*1)) as [Hb|Hb].
  - apply list_elem_of_fmap in Hb as ([b' x] & -> & Hb).
    apply list_elem_of_lookup in Hb as [i Hi]. simpl.
    by rewrite (Hin _ _ _ Hi), (ring_lookup _ _ _ _ Hnd Hi).
  - by rewrite Hout, ring_lookup_None.
Qed.

Lemma ring_addr_inj ns i j a x y :
  NoDup ns.*1 -> ns !! i = Some (a, x) -> ns !! j = Some (a, y) -> i = j.
Proof.
  intros Hnd Hi Hj. eapply NoDup_lookup; [exact Hnd| |].
  - rewrite list_lookup_fmap, Hi. done.
  - rewrite list_lookup_fmap, Hj. done.
Qed.

End Ring.

(** ** Reading a ring *)

Section Reads.

Context {T : Type} `{EqDecision T}.
Implicit Types (ns : list (positive * T)) (l : List T) (a b : positive).

Lemma ring_next_eq ns i b y :
  ns !! succ_pos (length ns) i = Some (b, y) -> ring_next ns.*1 i = b.
Proof.
  intros H0. unfold ring_next.
  by rewrite length_fmap, list_lookup_fmap, H0.
Qed.

Lemma ring_prev_eq ns i b y :
  ns !! pred_pos (length ns) i = Some (b, y) -> ring_prev ns.*1 i = b.
Proof.
  intros H0. unfold ring_prev.
  by rewrite length_fmap, list_lookup_fmap, H0.
Qed.

Lemma last_ring ns :
  last ns.*1 = fst <$> ns !! pred (length ns).
Proof. by rewrite last_lookup, length_fmap, list_lookup_fmap. Qed.

Lemma deref_ring ns i a x :
  NoDup ns.*1 -> ns !! i = Some (a, x) ->
  deref (ring_heap ns) (Some a) = Ok (ring_cell ns i x).
Proof. intros Hnd Hi. simpl. by rewrite (ring_lookup _ _ _ _ Hnd Hi). Qed.

Lemma add32_ok x y :
  INT32_MIN <= x + y <= INT32_MAX -> add32 x y = Ok (x + y).
Proof. intros Hr. unfold add32. by rewrite decide_True. Qed.

Lemma Rep_Ring l ns : Rep l ns -> Ring l ns.
Proof.
  intros [Hh Hl Hnd Hsz _ _]. split; [|done..].
  intros i a x Hi. rewrite Hh. by apply ring_lookup.
Qed.

Lemma Ring_deref l ns i a x :
  Ring l ns -> ns !! i = Some (a, x) ->
  deref (heap_ l) (Some a) = Ok (ring_cell ns i x).
Proof. intros [Hin _ _] Hi. simpl. by rewrite (Hin _ _ _ Hi). Qed.

Lemma getLength_ring l ns :
  Ring l ns -> getLength l = Ok (Z.of_nat (length ns)).
Proof.
  intros [Hin Hl Hsz]. unfold getLength. rewrite Hl, last_ring.
  destruct (ns !! pred (length ns)) as [[a x]|] eqn:E; simpl.
  - rewrite (Hin _ _ _ E). simpl.
    apply lookup_lt_Some in E.
    rewrite add32_ok by (unfold INT32_MIN, INT32_MAX in *; lia).
    f_equal. lia.
  - destruct ns; [done|]. apply lookup_ge_None in E. simpl in E. lia.
Qed.

Lemma walk_ring l ns k i a x :
  Ring l ns -> (i + k < length ns)%nat -> ns !! i = Some (a, x) ->
  exists b y, ns !! (i + k)%nat = Some (b, y) /\ walk (heap_ l) k a = Ok b.
Proof.
  intros HR. revert i a x. induction k as [|k IH]; intros i a x Hlt Hi.
  - exists a, x. by rewrite Nat.add_0_r.
  - destruct (lookup_lt_is_Some_2 ns (S i)) as [[b y] Hb]; [lia|].
    destruct (IH (S i) b y) as (c & z & Hc & Hw); [lia|done|].
    exists c, z. split.
    + by replace (i + S k)%nat with (S i + k)%nat by lia.
    + cbn [walk]. rewrite (Ring_deref _ _ _ _ _ HR Hi). simpl.
      rewrite (ring_next_eq ns i b y); [done|].
      unfold succ_pos. by rewrite decide_False by lia.
Qed.

Lemma isIndex_ring l ns index :
  Ring l ns ->
  isIndex l index = Ok (bool_decide (0 <= index < Z.of_nat (length ns))).
Proof.
  intros HR. unfold isIndex. case_decide.
  - rewrite (getLength_ring _ _ HR). simpl. f_equal.
    apply bool_decide_ext. lia.
  - f_equal. symmetry. apply bool_decide_eq_false. lia.
Qed.

Lemma isIndexOutOfBounds_ring l ns index :
  Ring l ns ->
  isIndexOutOfBounds l index
  = Ok (bool_decide (index < 0 \/ index > Z.of_nat (length ns))).
Proof.
  intros HR. unfold isIndexOutOfBounds. case_decide.
  - f_equal. symmetry. apply bool_decide_eq_true. lia.
  - rewrite (getLength_ring _ _ HR). simpl. f_equal.
    apply bool_decide_ext. lia.
Qed.

(** [getNodeByIndex] finds the cell at position [index], and [NULL] when
    there is none. *)
Lemma getNodeByIndex_ring l ns index :
  Ring l ns ->
  getNodeByIndex l index
  = Ok (if decide (0 <= index) then ns.*1 !! Z.to_nat index else None).
Proof.
  intros HR. unfold getNodeByIndex.
  rewrite (isIndex_ring _ _ _ HR). simpl.
  case_bool_decide as Hin; simpl.
  - rewrite (getLength_ring _ _ HR). simpl.
    rewrite (decide_True (P := 0 <= index)) by lia.
    case_decide as Hlast.
    + rewrite (ring_last _ _ HR), last_lookup, length_fmap. do 2 f_equal. lia.
    + rewrite (ring_last _ _ HR), last_ring.
      destruct (lookup_lt_is_Some_2 ns (pred (length ns))) as [[a x] Ha];
        [lia|].
      rewrite Ha. cbn [fmap option_fmap option_map fst].
      rewrite (Ring_deref _ _ _ _ _ HR Ha). simpl.
      destruct (lookup_lt_is_Some_2 ns 0) as [[b y] Hb]; [lia|].
      rewrite (ring_next_eq ns _ b y).
      2:{ unfold succ_pos. rewrite decide_True by lia. done. }
      destruct (walk_ring l ns (Z.to_nat index) 0 b y HR) as (c & z & Hc' & Hw);
        [lia|done|].
      rewrite Hw. simpl. rewrite list_lookup_fmap.
      simpl in Hc'. by rewrite Hc'.
  - case_decide; [|done]. f_equal. symmetry.
    apply lookup_ge_None. rewrite length_fmap. lia.
Qed.

End Reads.

(** ** Searching a ring *)

Section Search.

Context {T : Type} `{EqDecision T}.
Implicit Types (ns : list (positive * T)) (l : List T) (a b : positive).

Lemma scan_ring l ns element k i a :
  Ring l ns -> (i + k <= length ns)%nat ->
  (k <> O -> exists x, ns !! i = Some (a, x)) ->
  scan (heap_ l) k a element
  = Ok ((fun r => r.2.1) <$> find_node element (take k (drop i ns))).
Proof.
  intros HR. revert i a. induction k as [|k IH]; intros i a Hle Hi.
  - done.
  - destruct Hi as [x Hi]; [done|].
    cbn [scan]. rewrite (Ring_deref _ _ _ _ _ HR Hi). simpl.
    rewrite (drop_S _ _ _ Hi). cbn [take]. unfold find_node. cbn [list_find].
    simpl. case_decide as Hne.
    + rewrite decide_False by done.
      rewrite (IH (S i)); [|lia|].
      * f_equal. unfold find_node.
        by destruct (list_find _ (take k (drop (S i) ns))) as [[j [b y]]|].
      * intros Hk.
        destruct (lookup_lt_is_Some_2 ns (S i)) as [[b y] Hb]; [lia|].
        exists y. rewrite (ring_next_eq ns i b y); [done|].
        unfold succ_pos. by rewrite decide_False by lia.
    + rewrite decide_True; [done|]. by destruct (decide (element = x)).
Qed.

Lemma getNodeByElement_ring l ns element :
  Ring l ns ->
  getNodeByElement l element
  = Ok ((fun r => r.2.1) <$> find_node element ns).
Proof.
  intros HR. unfold getNodeByElement.
  rewrite (getLength_ring _ _ HR). simpl.
  case_decide as Hlen.
  - destruct ns; [done|]. simpl in Hlen. lia.
  - rewrite (ring_last _ _ HR), last_ring.
    destruct (lookup_lt_is_Some_2 ns (pred (length ns))) as [[a x] Ha]; [lia|].
    rewrite Ha. cbn [fmap option_fmap option_map fst].
    rewrite (Ring_deref _ _ _ _ _ HR Ha). simpl.
    destruct (lookup_lt_is_Some_2 ns 0) as [[b y] Hb]; [lia|].
    rewrite (ring_next_eq ns _ b y).
    2:{ unfold succ_pos. rewrite decide_True by lia. done. }
    rewrite (scan_ring l ns element _ O b HR); [| lia | eauto].
    rewrite drop_0, Nat2Z.id, firstn_all. done.
Qed.

Lemma find_node_Some element ns i a x :
  find_node element ns = Some (i, (a, x)) <->
  ns !! i = Some (a, x) /\ x = element /\
  forall j, (j < i)%nat -> (elements ns) !! j <> Some element.
Proof.
  unfold find_node. rewrite list_find_Some. simpl. split.
  - intros (Hi & Hx & Hmin). simpl in Hx. subst x. split_and!; [done..|].
    intros j Hj Hel. unfold elements in Hel.
    rewrite list_lookup_fmap in Hel.
    destruct (ns !! j) as [[b y]|] eqn:E; [|done].
    simpl in Hel. injection Hel as ->. by apply (Hmin j (b, element)).
  - intros (Hi & Hx & Hmin). subst x. split_and!; [done..|].
    intros j [b y] Hj Hlt Hy. simpl in Hy. subst y. apply (Hmin j Hlt).
    unfold elements. by rewrite list_lookup_fmap, Hj.
Qed.

Lemma find_node_None element ns :
  find_node element ns = None <-> element ∉ elements ns.
Proof.
  unfold find_node. rewrite list_find_None, Forall_forall. split.
  - intros Hall Hin. apply list_elem_of_fmap in Hin as ([b y] & Hy & Hin).
    by apply (Hall _ Hin).
  - intros Hnot [b y] Hin Hy. simpl in Hy. subst element. apply Hnot.
    apply list_elem_of_fmap. by exists (b, y).
Qed.

End Search.

(** ** Splicing and unlinking cells *)

Section Splice.

Context {T : Type} `{EqDecision T}.
Implicit Types (ns : list (positive * T)) (l : List T) (a b : positive).

Lemma ring_elem_of ns i a x : ns !! i = Some (a, x) -> a ∈ ns.*1.
Proof.
  intros Hi. apply list_elem_of_fmap. exists (a, x). split; [done|].
  by eapply list_elem_of_lookup_2.
Qed.

Lemma ring_addr_neq ns i j a b x y :
  NoDup ns.*1 -> ns !! i = Some (a, x) -> ns !! j = Some (b, y) ->
  i <> j -> a <> b.
Proof.
  intros Hnd Hi Hj Hne E. subst. apply Hne. eauto using ring_addr_inj.
Qed.

Lemma ring_addr_eq ns i j a b x y :
  NoDup ns.*1 -> ns !! i = Some (a, x) -> ns !! j = Some (b, y) ->
  a = b <-> i = j.
Proof.
  intros Hnd Hi Hj. split.
  - intros ->. eauto using ring_addr_inj.
  - intros ->. congruence.
Qed.

Lemma lookup_alter' (f : Node T -> Node T) (m : gmap positive (Node T)) i j :
  alter f i m !! j = (if decide (i = j) then f else id) <$> m !! j.
Proof.
  rewrite lookup_alter. case_decide; [by subst|]. by destruct (m !! j).
Qed.

(** An address that is not in the ring, by [H], differs from one that is. *)
Ltac outside H :=
  intros E; subst; apply H; rewrite ?fmap_insert_at, ?elem_of_insert_at;
  eauto using ring_elem_of.

Ltac ring_lookups :=
  repeat match goal with
  | H : ?l !! ?q = Some ?v |- context [?l !! ?p] =>
      replace p with q by lia; rewrite H
  end.

Ltac lookup_bounds :=
  repeat match goal with
  | H : ?l !! ?i = Some _ |- _ =>
      lazymatch goal with
      | _ : (i < length l)%nat |- _ => fail
      | _ => pose proof (lookup_lt_Some l i _ H)
      end
  end.

Ltac addr_eq :=
  match goal with
  | H1 : ?l !! ?p = Some ?u, H2 : ?l !! ?q = Some ?v |- ?u = ?v =>
      replace p with q in H1 by lia; congruence
  end.

Ltac ring_cells :=
  lookup_bounds;
  unfold ring_cell, shift_up, shift_down, set_next, set_prev, set_index,
    ring_next, ring_prev, succ_pos, pred_pos, Node_new in *;
  simpl in *;
  rewrite ?length_fmap in *;
  rewrite ?fmap_insert_at, ?list_fmap_delete, ?length_insert_at,
    ?length_fmap in *;
  simpl in *;
  rewrite ?lookup_insert_at by (rewrite ?length_fmap; lia);
  rewrite ?list_lookup_delete in *;
  repeat (case_decide; simpl in * ); try lia; simpl;
  try (f_equal; try lia; ring_lookups; simpl; try done;
       try (do 2 f_equal; lia); try addr_eq).

Lemma insertAfter_ring ns k t xt a x :
  NoDup ns.*1 -> a ∉ ns.*1 -> ns !! k = Some (t, xt) ->
  insertAfter (<[a := Node_new x a]> (ring_heap ns)) t a
  = Ok (ring_heap (insert_at (S k) (a, x) ns)).
Proof.
  intros Hnd Ha Hk.
  assert (a <> t) as Hat by (outside Ha).
  pose proof (lookup_lt_Some _ _ _ Hk) as Hlt.
  destruct (lookup_lt_is_Some_2 ns (succ_pos (length ns) k)) as [[nx xn] Hnx].
  { unfold succ_pos. case_decide; lia. }
  assert (a <> nx) as Hanx by (outside Ha).
  unfold insertAfter. simpl.
  rewrite (lookup_insert_ne _ a t), (ring_lookup _ _ _ _ Hnd Hk) by done. simpl.
  rewrite lookup_insert_eq. simpl.
  rewrite (ring_next_eq ns k nx xn Hnx).
  f_equal. apply ring_heap_intro.
  - rewrite fmap_insert_at. by apply NoDup_insert_at.
  - intros b Hb. rewrite fmap_insert_at, elem_of_insert_at in Hb. simpl in Hb.
    assert (t <> b) by (outside Hb).
    assert (nx <> b) by (outside Hb).
    rewrite !lookup_alter_ne, lookup_insert_ne, lookup_fmap, lookup_insert_ne
      by auto.
    rewrite ring_lookup_None; [done|tauto].
  - intros j b y Hj. rewrite lookup_insert_at in Hj by lia.
    assert (forall i, ns !! i = Some (b, y) ->
      alter (set_next a) t (alter (set_prev a) nx
        (<[a:=mkNode x (Z.of_nat k + 1) nx t]>
           (shift_up (Z.of_nat k + 1) <$> <[a:=Node_new x a]> (ring_heap ns))))
        !! b
      = Some ((if decide (k = i) then set_next a else id)
               ((if decide (succ_pos (length ns) k = i) then set_prev a else id)
                 (shift_up (Z.of_nat k + 1) (ring_cell ns i y))))) as Hold.
    { intros i Hi.
      assert (a <> b) by (outside Ha).
      rewrite !lookup_alter', lookup_insert_ne, lookup_fmap, lookup_insert_ne
        by done.
      rewrite (ring_lookup _ _ _ _ Hnd Hi). simpl.
      rewrite (decide_ext (t = b) (k = i)),
        (decide_ext (nx = b) (succ_pos (length ns) k = i));
        [done| |]; eapply ring_addr_eq; eauto. }
    pose proof (f_equal (fmap fst) Hk) as Hk1.
    pose proof (f_equal (fmap fst) Hnx) as Hnx1.
    rewrite <- list_lookup_fmap in Hk1, Hnx1. simpl in Hk1, Hnx1.
    repeat case_decide.
    + rewrite (Hold j Hj). clear Hold. f_equal. ring_cells.
    + injection Hj as <- <-.
      rewrite !lookup_alter_ne, lookup_insert_eq by done. f_equal. ring_cells.
    + rewrite (Hold _ Hj). clear Hold. f_equal. ring_cells.
Qed.

Lemma insertBefore_ring ns k t xt a x :
  NoDup ns.*1 -> a ∉ ns.*1 -> ns !! k = Some (t, xt) ->
  insertBefore (<[a := Node_new x a]> (ring_heap ns)) t a
  = Ok (ring_heap (insert_at k (a, x) ns)).
Proof.
  intros Hnd Ha Hk.
  assert (a <> t) as Hat by (outside Ha).
  pose proof (lookup_lt_Some _ _ _ Hk) as Hlt.
  destruct (lookup_lt_is_Some_2 ns (pred_pos (length ns) k)) as [[pv xp] Hpv].
  { unfold pred_pos. case_decide; lia. }
  assert (a <> pv) as Hapv by (outside Ha).
  unfold insertBefore. simpl.
  rewrite (lookup_insert_ne _ a t), (ring_lookup _ _ _ _ Hnd Hk) by done. simpl.
  rewrite lookup_insert_eq. simpl.
  rewrite (ring_prev_eq ns k pv xp Hpv).
  f_equal. apply ring_heap_intro.
  - rewrite fmap_insert_at. by apply NoDup_insert_at.
  - intros b Hb. rewrite fmap_insert_at, elem_of_insert_at in Hb. simpl in Hb.
    assert (t <> b) by (outside Hb).
    assert (pv <> b) by (outside Hb).
    rewrite !lookup_alter_ne, lookup_insert_ne, lookup_fmap, lookup_insert_ne
      by auto.
    rewrite ring_lookup_None; [done|tauto].
  - intros j b y Hj. rewrite lookup_insert_at in Hj by lia.
    assert (forall i, ns !! i = Some (b, y) ->
      alter (set_prev a) t (alter (set_next a) pv
        (<[a:=mkNode x (Z.of_nat k) t pv]>
           (shift_up (Z.of_nat k) <$> <[a:=Node_new x a]> (ring_heap ns))))
        !! b
      = Some ((if decide (k = i) then set_prev a else id)
               ((if decide (pred_pos (length ns) k = i) then set_next a else id)
                 (shift_up (Z.of_nat k) (ring_cell ns i y))))) as Hold.
    { intros i Hi.
      assert (a <> b) by (outside Ha).
      rewrite !lookup_alter', lookup_insert_ne, lookup_fmap, lookup_insert_ne
        by done.
      rewrite (ring_lookup _ _ _ _ Hnd Hi). simpl.
      rewrite (decide_ext (t = b) (k = i)),
        (decide_ext (pv = b) (pred_pos (length ns) k = i));
        [done| |]; eapply ring_addr_eq; eauto. }
    pose proof (f_equal (fmap fst) Hk) as Hk1.
    pose proof (f_equal (fmap fst) Hpv) as Hpv1.
    rewrite <- list_lookup_fmap in Hk1, Hpv1. simpl in Hk1, Hpv1.
    repeat case_decide.
    + rewrite (Hold j Hj). clear Hold. f_equal. ring_cells.
    + injection Hj as <- <-.
      rewrite !lookup_alter_ne, lookup_insert_eq by done. f_equal. ring_cells.
    + rewrite (Hold _ Hj). clear Hold. f_equal. ring_cells.
Qed.

Lemma Node_delete_ring ns k a x :
  NoDup ns.*1 -> ns !! k = Some (a, x) ->
  Node_delete (ring_heap ns) a = Ok (ring_heap (delete k ns)).
Proof.
  intros Hnd Hk.
  pose proof (lookup_lt_Some _ _ _ Hk) as Hlt.
  destruct (lookup_lt_is_Some_2 ns (pred_pos (length ns) k)) as [[pv xp] Hpv].
  { unfold pred_pos. case_decide; lia. }
  destruct (lookup_lt_is_Some_2 ns (succ_pos (length ns) k)) as [[nx xn] Hnx].
  { unfold succ_pos. case_decide; lia. }
  assert (length (delete k ns) = pred (length ns)) as Hlen.
  { rewrite length_delete by eauto. lia. }
  assert (NoDup (delete k ns).*1) as Hnd'.
  { rewrite list_fmap_delete, delete_take_drop.
    rewrite <- (take_drop_middle ns.*1 k a) in Hnd.
    2:{ by rewrite list_lookup_fmap, Hk. }
    apply NoDup_app in Hnd as (H1 & H2 & H3). apply NoDup_cons in H3 as [H3 H4].
    apply NoDup_app. split_and!; [done| |done].
    intros b Hb Hb'. apply (H2 b Hb). by right. }
  unfold Node_delete. rewrite (deref_ring _ _ _ _ Hnd Hk). simpl.
  rewrite (ring_prev_eq ns k pv xp Hpv), (ring_next_eq ns k nx xn Hnx).
  assert (forall b, b ∉ (delete k ns).*1 -> b <> a -> b ∉ ns.*1) as Hout.
  { intros b Hb Hba Hin. apply Hb.
    rewrite list_fmap_delete, delete_take_drop.
    rewrite <- (take_drop_middle ns.*1 k a) in Hin.
    2:{ by rewrite list_lookup_fmap, Hk. }
    rewrite elem_of_app, elem_of_cons in Hin. rewrite elem_of_app. tauto. }
  pose proof (f_equal (fmap fst) Hk) as Hk1.
  pose proof (f_equal (fmap fst) Hpv) as Hpv1.
  pose proof (f_equal (fmap fst) Hnx) as Hnx1.
  rewrite <- list_lookup_fmap in Hk1, Hpv1, Hnx1. simpl in Hk1, Hpv1, Hnx1.
  case_decide as Hself; f_equal; apply ring_heap_intro; try done.
  - intros b Hb. rewrite lookup_delete. case_decide; [done|].
    apply ring_lookup_None. auto.
  - intros j b y Hj. subst nx.
    pose proof (ring_addr_inj _ _ _ _ _ _ Hnd Hnx Hk) as Hpos.
    ring_cells.
  - intros b Hb. rewrite lookup_fmap, lookup_delete. case_decide; [done|].
    rewrite !lookup_alter', ring_lookup_None by auto. done.
  - intros j b y Hj. rewrite list_lookup_delete in Hj.
    set (i := if decide (j < k)%nat then j else S j) in *.
    assert (i <> k) as Hik by (unfold i; case_decide; lia).
    assert (a <> b) as Hab.
    { apply (ring_addr_neq ns k i a b x y); auto. }
    rewrite lookup_fmap, lookup_delete_ne, !lookup_alter' by done.
    rewrite (ring_lookup _ _ _ _ Hnd Hj). simpl.
    rewrite (decide_ext (nx = b) (succ_pos (length ns) k = i)),
      (decide_ext (pv = b) (pred_pos (length ns) k = i));
      [| exact (ring_addr_eq ns _ _ _ _ _ _ Hnd Hpv Hj)
       | exact (ring_addr_eq ns _ _ _ _ _ _ Hnd Hnx Hj)].
    f_equal. unfold i in *. clear i. clear Hout. ring_cells.
Qed.

End Splice.

(** ** The mutations of a list *)

Section Mutations.

Context {T : Type} `{EqDecision T}.
Implicit Types (ns : list (positive * T)) (l : List T) (a b : positive).

Lemma Rep_eq l ns :
  Rep l ns -> l = ring_list (constructed_ l) (illegal_ l) (count_ l) ns.
Proof.
  intros [Hh Hl _ _ _ _]. destruct l as [c i la cnt h]. simpl in *.
  unfold ring_list. by subst.
Qed.

Lemma Rep_empty constructed (illegal : T) :
  Rep (List_new constructed illegal) [].
Proof. split; first [done | constructor | unfold INT32_MAX; simpl; lia]. Qed.

Lemma Rep_fresh l ns a : Rep l ns -> heap_ l !! a = None -> a ∉ ns.*1.
Proof.
  intros [Hh _ _ _ _ _] Ha. rewrite Hh in Ha. by apply ring_lookup_fresh.
Qed.

Lemma Rep_size l ns : Rep l ns -> size (heap_ l) = length ns.
Proof. intros [Hh _ Hnd _ _ _]. rewrite Hh. by apply ring_size. Qed.

Lemma last_insert_at {A} (k : nat) (y : A) (xs : list A) :
  (k <= length xs)%nat ->
  last (insert_at k y xs) = if decide (k = length xs) then Some y else last xs.
Proof.
  intros Hk. rewrite !last_lookup, length_insert_at, lookup_insert_at by done.
  simpl. repeat case_decide; try lia; try done.
Qed.

(** The heap of a list with a node allocated and not yet linked still holds
    the ring. *)
Lemma Ring_allocated l ns a (n : Node T) :
  Rep l ns -> heap_ l !! a = None ->
  Ring (set_heap (<[a := n]> (heap_ l)) l) ns.
Proof.
  intros HR Ha. pose proof (Rep_fresh _ _ _ HR Ha) as Hfresh.
  destruct (Rep_Ring _ _ HR) as [Hin Hl Hsz]. split; simpl; [|done..].
  intros i b x Hi. rewrite lookup_insert_ne; [by apply Hin|].
  intros ->. apply Hfresh. eauto using ring_elem_of.
Qed.

Lemma addNode_rep l ns p index x :
  Rep l ns -> alloc_ok l p ->
  addNode p index x l =
    if decide (0 <= index <= Z.of_nat (length ns)) then
      match p with
      | None => Ok (false, l)
      | Some a =>
          c ← incr32 (count_ l);
          Ok (true, ring_list (constructed_ l) (illegal_ l) c
                      (insert_at (Z.to_nat index) (a, x) ns))
      end
    else Ok (false, l).
Proof.
  intros HR Hp. unfold addNode.
  rewrite (isIndexOutOfBounds_ring _ _ _ (Rep_Ring _ _ HR)). simpl.
  case_bool_decide as Hoob.
  { rewrite decide_False by lia. done. }
  rewrite decide_True by lia.
  destruct p as [a|]; [|done].
  destruct Hp as [Ha Hsz].
  pose proof (Rep_fresh _ _ _ HR Ha) as Hfresh.
  pose proof (Ring_allocated l ns a (Node_new x a) HR Ha) as HRa.
  destruct HR as [Hh Hl Hnd Hlen Hc Hcnt].
  rewrite Hl, last_ring.
  destruct (ns !! pred (length ns)) as [[lst xl]|] eqn:Hlast; simpl.
  - apply lookup_lt_Some in Hlast as Hlt.
    case_decide as Hpos.
    + rewrite (getNodeByIndex_ring _ _ _ HRa).
      rewrite decide_True by lia. simpl.
      destruct (lookup_lt_is_Some_2 ns (Z.to_nat (index - 1))) as [[t xt] Ht];
        [lia|].
      rewrite list_lookup_fmap, Ht. simpl.
      rewrite Hh, (insertAfter_ring ns _ t xt a x Hnd Hfresh Ht). simpl.
      replace (S (Z.to_nat (index - 1))) with (Z.to_nat index) by lia.
      destruct (incr32 (count_ l)); simpl; [|done].
      do 2 f_equal. unfold ring_list. f_equal.
      rewrite fmap_insert_at, last_insert_at by (rewrite length_fmap; lia).
      rewrite length_fmap. simpl.
      rewrite (decide_ext (t = lst) (Z.to_nat index = length ns)).
      * case_decide; [done|]. by rewrite last_ring, Hlast.
      * rewrite (ring_addr_eq ns _ _ _ _ _ _ Hnd Ht Hlast). lia.
    + rewrite (getNodeByIndex_ring _ _ _ HRa).
      rewrite decide_True by lia. change (Z.to_nat 0) with O.
      destruct (lookup_lt_is_Some_2 ns 0) as [[t xt] Ht]; [lia|].
      rewrite list_lookup_fmap, Ht. simpl.
      rewrite Hh, (insertBefore_ring ns _ t xt a x Hnd Hfresh Ht). simpl.
      replace (Z.to_nat index) with O by lia.
      destruct (incr32 (count_ l)); simpl; [|done].
      do 2 f_equal. unfold ring_list. f_equal.
      rewrite fmap_insert_at, last_insert_at by (rewrite length_fmap; lia).
      rewrite length_fmap. simpl.
      rewrite decide_False by lia. by rewrite last_ring, Hlast.
  - assert (ns = []) as ->.
    { destruct ns; [done|]. apply lookup_ge_None in Hlast.
      simpl in Hlast. lia. }
    simpl in *. replace (Z.to_nat index) with O by lia.
    destruct (incr32 (count_ l)); simpl; [|done].
    do 2 f_equal. unfold ring_list. f_equal. rewrite Hh. done.
Qed.

Lemma last_delete {A} (k : nat) (xs : list A) :
  (k < length xs)%nat ->
  last (delete k xs)
  = if decide (S k = length xs)
    then (if decide (k = O) then None else xs !! pred k)
    else last xs.
Proof.
  intros Hk.
  rewrite !last_lookup, length_delete by (by apply lookup_lt_is_Some_2).
  rewrite list_lookup_delete.
  repeat case_decide; try lia; try (f_equal; lia).
  apply lookup_ge_None. lia.
Qed.

Lemma removeNode_rep l ns k a x :
  Rep l ns -> ns !! k = Some (a, x) ->
  removeNode (Some a) l =
    c ← incr32 (count_ l);
    Ok (true, ring_list (constructed_ l) (illegal_ l) c (delete k ns)).
Proof.
  intros HR Hk. unfold removeNode.
  pose proof (lookup_lt_Some _ _ _ Hk) as Hlt.
  rewrite (getLength_ring _ _ (Rep_Ring _ _ HR)).
  pose proof (Rep_Ring _ _ HR) as HRing.
  destruct HR as [Hh Hl Hnd Hlen Hc Hcnt].
  destruct (lookup_lt_is_Some_2 ns (pred (length ns))) as [[lst xl] Hlast];
    [lia|].
  rewrite Hl, last_ring, Hlast. cbn [fmap option_fmap option_map fst].
  rewrite (Ring_deref _ _ _ _ _ HRing Hlast).
  rewrite Hh, (Node_delete_ring ns k a x Hnd Hk).
  assert ((if decide (Some a = Some lst) then
             len ← Ok (Z.of_nat (length ns));
             if decide (len = 1) then Ok None
             else lst0 ← Ok (ring_cell ns (pred (length ns)) xl);
                  Ok (Some (prev_ lst0))
           else Ok (Some lst))
          = Ok (last (delete k ns).*1)) as ->.
  { rewrite list_fmap_delete, last_delete by (rewrite length_fmap; lia).
    rewrite length_fmap.
    rewrite (decide_ext (Some a = Some lst) (S k = length ns)).
    2:{ pose proof (ring_addr_eq ns _ _ _ _ _ _ Hnd Hk Hlast) as Hiff.
        split; [intros [= E]; apply Hiff in E; lia|].
        intros E. f_equal. apply Hiff. lia. }
    case_decide as Hend; simpl.
    - repeat case_decide; try lia; [done|].
      destruct (lookup_lt_is_Some_2 ns (pred k)) as [[pv xp] Hpv]; [lia|].
      rewrite list_lookup_fmap, Hpv. simpl. do 2 f_equal.
      apply (ring_prev_eq ns _ pv xp). unfold pred_pos.
      rewrite decide_False by lia. rewrite <- Hpv. f_equal. lia.
    - by rewrite last_ring, Hlast. }
  simpl. by destruct (incr32 (count_ l)).
Qed.

Lemma Rep_ring_list constructed (illegal : T) count ns :
  NoDup ns.*1 -> Z.of_nat (length ns) <= INT32_MAX ->
  (constructed = false -> ns = []) -> 0 <= count <= INT32_MAX ->
  Rep (ring_list constructed illegal count ns) ns.
Proof. intros. by split. Qed.

Lemma incr32_Ok x y : 0 <= x -> incr32 x = Ok y <-> x < INT32_MAX /\ y = x + 1.
Proof.
  intros Hx. unfold incr32, add32, INT32_MAX, INT32_MIN in *. case_decide as Hr.
  - split; [intros [= <-]|intros [_ ->]]; [lia|done].
  - split; [done|]. lia.
Qed.

Lemma incr32_lt x : 0 <= x < INT32_MAX -> incr32 x = Ok (x + 1).
Proof. intros Hx. apply incr32_Ok; lia. Qed.

End Mutations.

(** ** The public operations on a ring *)

Section Operations.

Context {T : Type} `{EqDecision T}.
Implicit Types (ns : list (positive * T)) (l : List T) (a b : positive).

Lemma alloc_okb_spec l p : alloc_okb l p = true <-> alloc_ok l p.
Proof.
  unfold alloc_okb, alloc_ok. destruct p as [a|]; [|done].
  destruct (heap_ l !! a); [split; [done|intros [? _]; done]|].
  rewrite bool_decide_eq_true. tauto.
Qed.

Lemma alloc_ok_ring l ns a :
  Rep l ns -> a ∉ ns.*1 -> Z.of_nat (length ns) < INT32_MAX ->
  alloc_ok l (Some a).
Proof.
  intros HR Ha Hlen. split.
  - rewrite (rep_heap _ _ HR). by apply ring_lookup_None.
  - by rewrite (Rep_size _ _ HR).
Qed.

Lemma add_at_rep l ns p index x :
  Rep l ns -> alloc_ok l p ->
  add_at p index x l =
    if decide (constructed_ l = true /\ 0 <= index <= Z.of_nat (length ns)) then
      match p with
      | None => Ok (false, l)
      | Some a =>
          c ← incr32 (count_ l);
          Ok (true, ring_list (constructed_ l) (illegal_ l) c
                      (insert_at (Z.to_nat index) (a, x) ns))
      end
    else Ok (false, l).
Proof.
  intros HR Hp. unfold add_at, isConstructed.
  destruct (constructed_ l) eqn:Hc.
  - rewrite (addNode_rep _ _ _ _ _ HR Hp), Hc.
    repeat case_decide; tauto || done.
  - rewrite decide_False; [done|]. intros [? _]. done.
Qed.

Lemma add_rep l ns p x :
  Rep l ns -> alloc_ok l p ->
  add p x l =
    if constructed_ l then
      match p with
      | None => Ok (false, l)
      | Some a =>
          c ← incr32 (count_ l);
          Ok (true, ring_list (constructed_ l) (illegal_ l) c (ns ++ [(a, x)]))
      end
    else Ok (false, l).
Proof.
  intros HR Hp. unfold add, isConstructed.
  destruct (constructed_ l) eqn:Hc; [|done].
  rewrite (getLength_ring _ _ (Rep_Ring _ _ HR)). simpl.
  rewrite (addNode_rep _ _ _ _ _ HR Hp), Hc.
  rewrite decide_True by lia. destruct p; [|done].
  by rewrite Nat2Z.id, insert_at_length.
Qed.

Lemma remove_rep l ns index :
  Rep l ns ->
  remove index l =
    if decide (0 <= index < Z.of_nat (length ns)) then
      c ← incr32 (count_ l);
      Ok (true, ring_list (constructed_ l) (illegal_ l) c
                  (delete (Z.to_nat index) ns))
    else Ok (false, l).
Proof.
  intros HR. unfold remove, isConstructed.
  destruct (constructed_ l) eqn:Hc.
  - rewrite (getNodeByIndex_ring _ _ _ (Rep_Ring _ _ HR)).
    destruct (decide (0 <= index < Z.of_nat (length ns))) as [Hin|Hin].
    + destruct (lookup_lt_is_Some_2 ns (Z.to_nat index)) as [[a x] Ha]; [lia|].
      rewrite decide_True by lia. rewrite list_lookup_fmap, Ha.
      cbn [mbind outcome_bind fmap option_fmap option_map fst].
      by rewrite (removeNode_rep _ _ _ _ _ HR Ha), Hc.
    + case_decide; [|done].
      rewrite (proj2 (lookup_ge_None _ _)); [done|].
      rewrite length_fmap. lia.
  - rewrite (rep_constructed _ _ HR Hc). simpl.
    rewrite decide_False by lia. done.
Qed.

Lemma removeLast_rep l ns :
  Rep l ns ->
  removeLast l =
    if decide (ns = []) then Ok (false, l)
    else
      c ← incr32 (count_ l);
      Ok (true, ring_list (constructed_ l) (illegal_ l) c
                  (delete (pred (length ns)) ns)).
Proof.
  intros HR. unfold removeLast.
  rewrite (getLength_ring _ _ (Rep_Ring _ _ HR)). simpl.
  rewrite (remove_rep _ _ _ HR).
  destruct ns as [|n ns']; [done|].
  rewrite decide_True by (simpl; lia). rewrite decide_False by done.
  replace (Z.to_nat (Z.of_nat (length (n :: ns')) - 1))
    with (pred (length (n :: ns'))) by (simpl; lia).
  done.
Qed.

Lemma removeElement_rep l ns element :
  Rep l ns ->
  removeElement element l =
    match find_node element ns with
    | Some (k, _) =>
        c ← incr32 (count_ l);
        Ok (true, ring_list (constructed_ l) (illegal_ l) c (delete k ns))
    | None => Ok (false, l)
    end.
Proof.
  intros HR. unfold removeElement, isConstructed.
  destruct (constructed_ l) eqn:Hc.
  - rewrite (getNodeByElement_ring _ _ _ (Rep_Ring _ _ HR)).
    destruct (find_node element ns) as [[k [a x]]|] eqn:Hf; [|done].
    cbn [mbind outcome_bind fmap option_fmap option_map fst snd].
    apply find_node_Some in Hf as (Hk & _ & _).
    by rewrite (removeNode_rep _ _ _ _ _ HR Hk), Hc.
  - by rewrite (rep_constructed _ _ HR Hc).
Qed.

Lemma removeFirst_rep l ns :
  Rep l ns ->
  removeFirst l =
    if decide (ns = []) then Ok (false, l)
    else
      c ← incr32 (count_ l);
      Ok (true, ring_list (constructed_ l) (illegal_ l) c (delete O ns)).
Proof.
  intros HR. unfold removeFirst. rewrite (remove_rep _ _ _ HR).
  destruct ns as [|n ns']; [done|].
  rewrite decide_True by (simpl; lia). by rewrite decide_False.
Qed.

(** Every call that adds or removes does what [next_ring] says, and counts
    one change when it does something. *)
Lemma exec_mutator l ns o :
  Rep l ns -> op_alloc_okb o l = true -> is_add o || is_remove o = true ->
  exec o l =
    match next_ring o (constructed_ l) ns with
    | Some ns' =>
        c ← incr32 (count_ l);
        Ok (RBool true, ring_list (constructed_ l) (illegal_ l) c ns')
    | None => Ok (RBool false, l)
    end.
Proof.
  intros HR Hp Hm.
  destruct o; try discriminate Hm; cbn [exec next_ring ret_bool].
  - apply alloc_okb_spec in Hp. rewrite (add_rep _ _ _ _ HR Hp).
    destruct (constructed_ l), p; try done.
    cbn [mbind outcome_bind]. by destruct (incr32 (count_ l)).
  - apply alloc_okb_spec in Hp. rewrite (add_at_rep _ _ _ _ _ HR Hp).
    destruct p; case_decide; try done.
    cbn [mbind outcome_bind]. by destruct (incr32 (count_ l)).
  - rewrite (remove_rep _ _ _ HR). case_decide; [|done].
    cbn [mbind outcome_bind]. by destruct (incr32 (count_ l)).
  - rewrite (removeElement_rep _ _ _ HR).
    destruct (find_node element ns) as [[k ?]|]; [|done].
    cbn [mbind outcome_bind]. by destruct (incr32 (count_ l)).
  - rewrite (removeFirst_rep _ _ HR). case_decide; [done|].
    cbn [mbind outcome_bind]. by destruct (incr32 (count_ l)).
  - rewrite (removeLast_rep _ _ HR). case_decide; [done|].
    cbn [mbind outcome_bind]. by destruct (incr32 (count_ l)).
  - unfold remove_head. fold (removeFirst l).
    rewrite (removeFirst_rep _ _ HR). case_decide; [done|].
    cbn [mbind outcome_bind]. by destruct (incr32 (count_ l)).
Qed.

Lemma NoDup_delete_ring ns k : NoDup ns.*1 -> NoDup (delete k ns).*1.
Proof.
  intros Hnd. rewrite list_fmap_delete.
  destruct (ns.*1 !! k) as [a|] eqn:Hk.
  - rewrite delete_take_drop.
    rewrite <- (take_drop_middle ns.*1 k a Hk) in Hnd.
    apply NoDup_app in Hnd as (H1 & H2 & H3). apply NoDup_cons in H3 as [H3 H4].
    apply NoDup_app. split_and!; [done| |done].
    intros b Hb Hb'. apply (H2 b Hb). by right.
  - apply lookup_ge_None in Hk.
    rewrite delete_take_drop, take_ge, drop_ge by lia. by rewrite app_nil_r.
Qed.

(** What [next_ring] does to the length, and that it keeps the addresses
    distinct. *)
Lemma next_ring_spec l ns o ns' :
  Rep l ns -> op_alloc_okb o l = true ->
  next_ring o (constructed_ l) ns = Some ns' ->
  NoDup ns'.*1 /\ constructed_ l = true /\
  Z.of_nat (length ns') <= INT32_MAX /\
  Z.of_nat (length ns')
  = Z.of_nat (length ns) + (if is_add o then 1 else -1) /\
  is_add o || is_remove o = true.
Proof.
  intros HR Hp Hn.
  assert (constructed_ l = true) as Hc.
  { destruct (constructed_ l) eqn:Hc; [done|].
    rewrite (rep_constructed _ _ HR Hc) in Hn.
    destruct o as [[?|]?|[?|]??| | | | | | | | | | | | | | | | |];
      simpl in Hn; try done; case_decide; try done; simpl in *; lia. }
  assert (forall a x k, alloc_ok l (Some a) -> (k <= length ns)%nat ->
    NoDup (insert_at k (a, x) ns).*1 /\ constructed_ l = true /\
    Z.of_nat (length (insert_at k (a, x) ns)) <= INT32_MAX /\
    Z.of_nat (length (insert_at k (a, x) ns)) = Z.of_nat (length ns) + 1 /\
    true = true) as Hins.
  { intros a x k [Ha Hsz] Hk. rewrite (Rep_size _ _ HR) in Hsz.
    rewrite fmap_insert_at, length_insert_at. split_and!; try done; try lia.
    apply NoDup_insert_at; [apply HR|]. by apply (Rep_fresh l). }
  assert (forall k, (k < length ns)%nat ->
    NoDup (delete k ns).*1 /\ constructed_ l = true /\
    Z.of_nat (length (delete k ns)) <= INT32_MAX /\
    Z.of_nat (length (delete k ns)) = Z.of_nat (length ns) + -1 /\
    true = true) as Hdel.
  { intros k Hk. pose proof (rep_size _ _ HR).
    rewrite length_delete by (by apply lookup_lt_is_Some_2).
    split_and!; try done; try lia. apply NoDup_delete_ring, HR. }
  destruct o as [[a|] x|[a|] i x|i|x| | | | | | | | | | | | | | |];
    simpl in Hn; try done.
  - rewrite Hc in Hn. injection Hn as <-. rewrite <- insert_at_length.
    apply Hins; [by apply alloc_okb_spec|lia].
  - case_decide as Hi; [|done]. injection Hn as <-.
    apply Hins; [by apply alloc_okb_spec|lia].
  - case_decide as Hi; [|done]. injection Hn as <-. apply Hdel. lia.
  - destruct (find_node x ns) as [[k [a y]]|] eqn:Hf; [|done].
    injection Hn as <-. apply find_node_Some in Hf as (Hk & _).
    apply Hdel. by eapply lookup_lt_Some.
  - case_decide as Hi; [done|]. injection Hn as <-. apply Hdel.
    destruct ns; [done|simpl; lia].
  - case_decide as Hi; [done|]. injection Hn as <-. apply Hdel.
    destruct ns; [done|simpl; lia].
  - case_decide as Hi; [done|]. injection Hn as <-. apply Hdel.
    destruct ns; [done|simpl; lia].
Qed.

End Operations.

(** ** Read accessors, [clear] and runs of calls *)

Section Runs.

Context {T : Type} `{EqDecision T}.
Implicit Types (ns : list (positive * T)) (l : List T) (a b : positive).

Lemma get_rep l ns index :
  Rep l ns -> get l index = Ok (element_at (illegal_ l) (elements ns) index).
Proof.
  intros HR. unfold get, isConstructed, element_at, elements.
  destruct (constructed_ l) eqn:Hc.
  - rewrite (getNodeByIndex_ring _ _ _ (Rep_Ring _ _ HR)).
    case_decide; [|done]. rewrite !list_lookup_fmap.
    destruct (ns !! Z.to_nat index) as [[a x]|] eqn:Ha; [|done].
    cbn [mbind outcome_bind fmap option_fmap option_map fst snd].
    by rewrite (Ring_deref _ _ _ _ _ (Rep_Ring _ _ HR) Ha).
  - rewrite (rep_constructed _ _ HR Hc). by case_decide.
Qed.

Lemma getLast_rep l ns :
  Rep l ns ->
  getLast l
  = Ok (element_at (illegal_ l) (elements ns) (Z.of_nat (length ns) - 1)).
Proof.
  intros HR. unfold getLast.
  rewrite (getLength_ring _ _ (Rep_Ring _ _ HR)).
  cbn [mbind outcome_bind]. by apply get_rep.
Qed.

Lemma getIndexOf_rep l ns element :
  Rep l ns ->
  getIndexOf l element
  = Ok (match find_node element ns with
        | Some (k, _) => Z.of_nat k
        | None => -1
        end).
Proof.
  intros HR. unfold getIndexOf.
  rewrite (getNodeByElement_ring _ _ _ (Rep_Ring _ _ HR)).
  destruct (find_node element ns) as [[k [a x]]|] eqn:Hf; [|done].
  cbn [mbind outcome_bind fmap option_fmap option_map fst snd].
  apply find_node_Some in Hf as (Hk & _ & _).
  by rewrite (Ring_deref _ _ _ _ _ (Rep_Ring _ _ HR) Hk).
Qed.

(** A read accessor answers, and the list is as it was. *)
Lemma exec_read l ns o :
  Rep l ns -> is_read o = true -> exists r, exec o l = Ok (r, l).
Proof.
  intros HR Hr. pose proof (Rep_Ring _ _ HR) as HRing.
  destruct o; try discriminate Hr; cbn [exec]; unfold getFirst, peek.
  - rewrite (get_rep _ _ _ HR). eauto.
  - rewrite (get_rep _ _ _ HR). eauto.
  - rewrite (getLast_rep _ _ HR). eauto.
  - rewrite (get_rep _ _ _ HR). eauto.
  - rewrite (getLength_ring _ _ HRing). eauto.
  - eauto.
  - rewrite (getIndexOf_rep _ _ _ HR). eauto.
  - rewrite (isIndex_ring _ _ _ HRing). eauto.
  - eauto.
  - eauto.
Qed.

Lemma clear_loop_rep ns l :
  Rep l ns ->
  clear_loop (length ns) l =
    if decide (count_ l + Z.of_nat (length ns) <= INT32_MAX)
    then Ok (ring_list (constructed_ l) (illegal_ l)
               (count_ l + Z.of_nat (length ns)) [])
    else Undefined.
Proof.
  revert l. induction ns as [|[a x] ns IH] using rev_ind; intros l HR.
  - simpl. pose proof (rep_count _ _ HR).
    rewrite decide_True by lia. rewrite Z.add_0_r.
    f_equal. by apply Rep_eq.
  - rewrite length_app. simpl length.
    replace (length ns + 1)%nat with (S (length ns)) by lia.
    cbn [clear_loop].
    rewrite (getNodeByIndex_ring _ _ _ (Rep_Ring _ _ HR)).
    rewrite decide_True by lia. rewrite Nat2Z.id.
    assert ((ns ++ [(a, x)]) !! length ns = Some (a, x)) as Ha.
    { rewrite lookup_app_r by lia. by rewrite Nat.sub_diag. }
    rewrite list_lookup_fmap, Ha.
    cbn [mbind outcome_bind fmap option_fmap option_map fst snd].
    rewrite (removeNode_rep _ _ _ _ _ HR Ha).
    pose proof (rep_count _ _ HR) as Hcnt.
    pose proof (rep_size _ _ HR) as Hsz. rewrite length_app in Hsz.
    simpl in Hsz.
    assert (delete (length ns) (ns ++ [(a, x)]) = ns) as ->.
    { rewrite delete_take_drop, take_app_length, drop_ge;
        [by rewrite app_nil_r|]. rewrite length_app. simpl. lia. }
    destruct (decide (count_ l < INT32_MAX)) as [Hlt|Hge].
    + rewrite incr32_lt by lia. cbn [mbind outcome_bind fst snd].
      rewrite IH.
      * cbn [count_ ring_list constructed_ illegal_].
        repeat case_decide; try lia; try done.
        replace (count_ l + 1 + Z.of_nat (length ns))
          with (count_ l + Z.of_nat (S (length ns))) by lia. done.
      * apply Rep_ring_list; try lia.
        -- pose proof (rep_nodup _ _ HR) as Hnd.
           rewrite fmap_app in Hnd. by apply NoDup_app in Hnd as [? _].
        -- intros Hc. pose proof (rep_constructed _ _ HR Hc) as E.
           by destruct ns.
    + assert (incr32 (count_ l) = Undefined) as ->.
      { destruct (incr32 (count_ l)) eqn:E; [|done].
        apply incr32_Ok in E; lia. }
      cbn [mbind outcome_bind]. rewrite decide_False by lia. done.
Qed.

Lemma clear_rep l ns :
  Rep l ns ->
  clear l =
    if decide (count_ l + Z.of_nat (length ns) <= INT32_MAX)
    then Ok (ring_list (constructed_ l) (illegal_ l)
               (count_ l + Z.of_nat (length ns)) [])
    else Undefined.
Proof.
  intros HR. unfold clear, isConstructed.
  destruct (constructed_ l) eqn:Hc.
  - rewrite (getLength_ring _ _ (Rep_Ring _ _ HR)).
    cbn [mbind outcome_bind]. rewrite Nat2Z.id, (clear_loop_rep _ _ HR).
    by rewrite Hc.
  - rewrite (rep_constructed _ _ HR Hc). simpl.
    pose proof (rep_count _ _ HR). rewrite decide_True by lia.
    rewrite Z.add_0_r. pose proof (Rep_eq _ _ HR) as E.
    rewrite (rep_constructed _ _ HR Hc), Hc in E. by f_equal.
Qed.

Lemma Rep_setIllegal l ns v : Rep l ns -> Rep (setIllegal v l) ns.
Proof.
  intros HR. unfold setIllegal, isConstructed.
  destruct (constructed_ l) eqn:Hc; [|done].
  destruct HR. by split.
Qed.

(** Every call keeps the state a ring and never lowers the number of
    changes. *)
Lemma exec_Rep l ns o r l' :
  Rep l ns -> op_alloc_okb o l = true -> exec o l = Ok (r, l') ->
  exists ns', Rep l' ns' /\ count_ l <= count_ l'.
Proof.
  intros HR Hp He. pose proof (rep_count _ _ HR) as Hcnt.
  destruct (is_add o || is_remove o) eqn:Hm.
  - rewrite (exec_mutator _ _ _ HR Hp Hm) in He.
    destruct (next_ring o (constructed_ l) ns) as [ns'|] eqn:Hn.
    + destruct (next_ring_spec _ _ _ _ HR Hp Hn) as (Hnd & Hc & Hsz & _).
      destruct (incr32 (count_ l)) as [c|] eqn:Hi; [|done].
      apply incr32_Ok in Hi as [Hlt ->]; [|lia].
      injection He as <- <-. exists ns'. split; [|simpl; lia].
      apply Rep_ring_list; try done; try lia. by rewrite Hc.
    + injection He as <- <-. exists ns. split; [done|lia].
  - destruct (is_read o) eqn:Hr.
    + destruct (exec_read _ _ _ HR Hr) as [r' He'].
      rewrite He' in He. injection He as <- <-. exists ns. split; [done|lia].
    + destruct o; try discriminate Hm; try discriminate Hr; cbn [exec] in He.
      * rewrite (clear_rep _ _ HR) in He. case_decide; [|done].
        injection He as <- <-. exists []. split; [|simpl; lia].
        apply Rep_ring_list;
          first [done | apply NoDup_nil_2 | unfold INT32_MAX in *; simpl; lia].
      * injection He as <- <-. exists ns. split; [by apply Rep_setIllegal|].
        unfold setIllegal, isConstructed. destruct (constructed_ l); simpl; lia.
Qed.

(** What a call that adds or removes does to the number of changes. *)
Lemma count_step l ns o r l' :
  Rep l ns -> op_alloc_okb o l = true -> exec o l = Ok (r, l') ->
  (is_add o || is_remove o = true ->
     (r = RBool true /\ count_ l' = count_ l + 1) \/
     (r = RBool false /\ l' = l)) /\
  (is_read o = true -> l' = l).
Proof.
  intros HR Hp He. pose proof (rep_count _ _ HR) as Hcnt. split.
  - intros Hm. rewrite (exec_mutator _ _ _ HR Hp Hm) in He.
    destruct (next_ring o (constructed_ l) ns).
    + destruct (incr32 (count_ l)) as [c|] eqn:Hi; [|done].
      apply incr32_Ok in Hi as [_ ->]; [|lia].
      injection He as <- <-. by left.
    + injection He as <- <-. by right.
  - intros Hr. destruct (exec_read _ _ _ HR Hr) as [r' He'].
    rewrite He' in He. by injection He as <- <-.
Qed.

End Runs.

(** ** Runs of calls *)

Section RunLemmas.

Context {T : Type} `{EqDecision T}.
Implicit Types (ns : list (positive * T)) (l : List T) (a b : positive).

Lemma run_cons o os l r l1 rs l2 :
  exec o l = Ok (r, l1) -> run os l1 = Ok (rs, l2) ->
  run (o :: os) l = Ok (r :: rs, l2).
Proof. intros He Hr. cbn [run]. rewrite He. simpl. by rewrite Hr. Qed.

Lemma run_cons_inv o os l rs l2 :
  run (o :: os) l = Ok (rs, l2) ->
  exists r l1 rs', exec o l = Ok (r, l1) /\ run os l1 = Ok (rs', l2) /\
                   rs = r :: rs'.
Proof.
  cbn [run]. destruct (exec o l) as [[r l1]|] eqn:He; [|done]. simpl.
  destruct (run os l1) as [[rs' l2']|] eqn:Hr; [|done]. simpl.
  intros [= <- <-]. by exists r, l1, rs'.
Qed.

Lemma allocs_okb_cons o os l r l1 :
  allocs_okb (o :: os) l = true -> exec o l = Ok (r, l1) ->
  op_alloc_okb o l = true /\ allocs_okb os l1 = true.
Proof.
  cbn [allocs_okb]. intros Ha He. rewrite He in Ha.
  by apply andb_true_iff in Ha.
Qed.

(** A run keeps the state a ring and never lowers the number of changes. *)
Lemma run_Rep os l ns rs l' :
  Rep l ns -> allocs_okb os l = true -> run os l = Ok (rs, l') ->
  exists ns', Rep l' ns' /\ count_ l <= count_ l'.
Proof.
  revert l ns rs. induction os as [|o os IH]; intros l ns rs HR Ha Hr.
  - injection Hr as <- <-. exists ns. split; [done|lia].
  - apply run_cons_inv in Hr as (r & l1 & rs' & He & Hr & ->).
    destruct (allocs_okb_cons _ _ _ _ _ Ha He) as [Hp Ha'].
    destruct (exec_Rep _ _ _ _ _ HR Hp He) as (ns1 & HR1 & Hle1).
    destruct (IH _ _ _ HR1 Ha' Hr) as (ns2 & HR2 & Hle2).
    exists ns2. split; [done|lia].
Qed.

(** After a run of adding and removing calls the ring has grown by the
    number of calls that added and shrunk by the number that removed. *)
Lemma run_length os l ns rs l' :
  Forall (fun o => is_add o || is_remove o = true) os ->
  Rep l ns -> allocs_okb os l = true -> run os l = Ok (rs, l') ->
  exists ns', Rep l' ns' /\
    Z.of_nat (length ns')
    = Z.of_nat (length ns) + count_true is_add os rs
      - count_true is_remove os rs.
Proof.
  intros Hm. revert l ns rs.
  induction Hm as [|o os Ho Hm IH]; intros l ns rs HR Ha Hr.
  - injection Hr as <- <-. exists ns. split; [done|simpl; lia].
  - apply run_cons_inv in Hr as (r & l1 & rs' & He & Hr & ->).
    destruct (allocs_okb_cons _ _ _ _ _ Ha He) as [Hp Ha'].
    pose proof (rep_count _ _ HR) as Hcnt.
    pose proof He as He'.
    rewrite (exec_mutator _ _ _ HR Hp Ho) in He'.
    destruct (next_ring o (constructed_ l) ns) as [ns1|] eqn:Hn.
    + destruct (next_ring_spec _ _ _ _ HR Hp Hn) as (Hnd & Hc & Hsz & Hlen & _).
      destruct (incr32 (count_ l)) as [c|] eqn:Hi; [|done].
      apply incr32_Ok in Hi as [Hlt ->]; [|lia].
      injection He' as <- <-.
      assert (Rep (ring_list (constructed_ l) (illegal_ l) (count_ l + 1) ns1)
                ns1) as HR1.
      { apply Rep_ring_list; try done; [by rewrite Hc|lia]. }
      destruct (IH _ ns1 _ HR1 Ha' Hr) as (ns2 & HR2 & Hlen2).
      exists ns2. split; [done|]. cbn [count_true].
      destruct o; try discriminate Ho; simpl in *; lia.
    + injection He' as <- <-.
      destruct (IH _ _ _ HR Ha' Hr) as (ns2 & HR2 & Hlen2).
      exists ns2. split; [done|]. cbn [count_true]. lia.
Qed.

(** A run of adding and removing calls is defined as long as the number of
    changes stays an [int32]. *)
Lemma run_defined os l ns :
  Forall (fun o => is_add o || is_remove o = true) os ->
  Rep l ns -> allocs_okb os l = true ->
  count_ l + Z.of_nat (length os) <= INT32_MAX ->
  is_Ok (run os l).
Proof.
  intros Hm. revert l ns.
  induction Hm as [|o os Ho Hm IH]; intros l ns HR Ha Hb.
  - by exists ([], l).
  - pose proof (rep_count _ _ HR) as Hcnt.
    assert (op_alloc_okb o l = true) as Hp.
    { cbn [allocs_okb] in Ha. by apply andb_true_iff in Ha as [? _]. }
    pose proof (exec_mutator _ _ _ HR Hp Ho) as He.
    assert (exists r l1, exec o l = Ok (r, l1) /\ count_ l1 <= count_ l + 1)
      as (r & l1 & He1 & Hle).
    { destruct (next_ring o (constructed_ l) ns) as [ns1|].
      - rewrite incr32_lt in He by (simpl length in Hb; lia).
        eexists _, _. split; [exact He|]. simpl. lia.
      - eexists _, _. split; [exact He|]. lia. }
    destruct (allocs_okb_cons _ _ _ _ _ Ha He1) as [_ Ha'].
    destruct (exec_Rep _ _ _ _ _ HR Hp He1) as (ns1 & HR1 & _).
    destruct (IH _ _ HR1 Ha') as [[rs l2] Hr].
    { simpl length in Hb. lia. }
    exists (r :: rs, l2). by apply (run_cons _ _ _ _ l1).
Qed.

(** Every state a list can be in is a ring. *)
Lemma reachable_wf l : reachable l -> wf l.
Proof.
  induction 1 as [c ill|l o r l' _ [ns HR] Hp He].
  - exists []. apply Rep_empty.
  - destruct (exec_Rep _ _ _ _ _ HR Hp He) as (ns' & HR' & _). by exists ns'.
Qed.

Lemma reachable_run os l rs l' :
  reachable l -> allocs_okb os l = true -> run os l = Ok (rs, l') ->
  reachable l'.
Proof.
  revert l rs. induction os as [|o os IH]; intros l rs Hl Ha Hr.
  - by injection Hr as <- <-.
  - apply run_cons_inv in Hr as (r & l1 & rs' & He & Hr & ->).
    destruct (allocs_okb_cons _ _ _ _ _ Ha He) as [Hp Ha'].
    apply (IH l1 rs'); [|done..]. by apply (reachable_exec l o r).
Qed.

(** A call returns when the number of changes and the number of nodes
    together are below the largest [int32], and raises their sum by two at
    most: [add] counts one change and one node, [remove] one change for one
    node less, [clear] one change for each node it frees. *)
Lemma exec_room l ns o :
  Rep l ns -> op_alloc_okb o l = true ->
  count_ l + Z.of_nat (length ns) < INT32_MAX ->
  exists r l' ns', exec o l = Ok (r, l') /\ Rep l' ns' /\
    count_ l <= count_ l' /\
    count_ l' + Z.of_nat (length ns')
    <= count_ l + Z.of_nat (length ns) + 2.
Proof.
  intros HR Hp Hroom. pose proof (rep_count _ _ HR) as Hcnt.
  destruct (is_add o || is_remove o) eqn:Hm.
  - rewrite (exec_mutator _ _ _ HR Hp Hm).
    destruct (next_ring o (constructed_ l) ns) as [ns'|] eqn:Hn.
    + destruct (next_ring_spec _ _ _ _ HR Hp Hn) as (Hnd & Hc & Hsz & Hlen & _).
      rewrite (incr32_lt (count_ l)) by lia.
      eexists _, _, ns'. split; [done|]. split.
      { apply Rep_ring_list; try done; [by rewrite Hc|lia]. }
      cbn [count_ ring_list]. destruct (is_add o); lia.
    + eexists _, _, ns. split; [done|]. split; [done|]. lia.
  - destruct (is_read o) eqn:Hr.
    + destruct (exec_read _ _ _ HR Hr) as [r' ->].
      eexists _, _, ns. split; [done|]. split; [done|]. lia.
    + destruct o; try discriminate Hm; try discriminate Hr; cbn [exec].
      * rewrite (clear_rep _ _ HR), decide_True by lia.
        eexists _, _, []. split; [done|]. split.
        { apply Rep_ring_list; [apply NoDup_nil_2| |done|lia].
          unfold INT32_MAX. simpl. lia. }
        cbn [count_ ring_list length]. lia.
      * eexists _, _, ns. split; [done|].
        split; [by apply Rep_setIllegal|].
        unfold setIllegal, isConstructed. destruct (constructed_ l); simpl; lia.
Qed.

(** A sequence of calls returns when the counter has room for it. *)
Lemma run_room os l ns :
  Rep l ns -> allocs_okb os l = true ->
  count_ l + Z.of_nat (length ns) + 2 * Z.of_nat (length os) <= INT32_MAX ->
  exists rs l', run os l = Ok (rs, l') /\ count_ l <= count_ l'.
Proof.
  revert l ns. induction os as [|o os IH]; intros l ns HR Ha Hroom.
  - exists [], l. split; [done|lia].
  - cbn [length] in Hroom.
    assert (op_alloc_okb o l = true) as Hp.
    { cbn [allocs_okb] in Ha. by apply andb_true_iff in Ha as [? _]. }
    destruct (exec_room _ _ _ HR Hp ltac:(lia))
      as (r & l1 & ns1 & He & HR1 & Hle & Hsum).
    destruct (allocs_okb_cons _ _ _ _ _ Ha He) as [_ Ha'].
    destruct (IH _ _ HR1 Ha' ltac:(lia)) as (rs & l2 & Hr & Hle2).
    exists (r :: rs), l2. split; [by apply (run_cons _ _ _ _ l1)|lia].
Qed.

(** A list of one element can have counted any odd number of changes:
    the element is removed and added again. *)
Lemma reachable_odd_count (illegal : T) a (x : T) c :
  0 <= c -> 2 * c + 1 <= INT32_MAX ->
  reachable (ring_list true illegal (2 * c + 1) [(a, x)]).
Proof.
  intros Hc.
  assert (forall n, 0 <= n <= INT32_MAX ->
            Rep (ring_list true illegal n [(a, x)]) [(a, x)]) as HR1.
  { intros n Hn. apply Rep_ring_list; [|unfold INT32_MAX; simpl; lia|done|done].
    apply NoDup_cons_2; [apply not_elem_of_nil|apply NoDup_nil_2]. }
  assert (forall n, 0 <= n <= INT32_MAX ->
            Rep (ring_list true illegal n []) []) as HR0.
  { intros n Hn. apply Rep_ring_list; [apply NoDup_nil_2| |done|done].
    unfold INT32_MAX. simpl. lia. }
  assert (forall n, 0 <= n < INT32_MAX ->
            exec (OAdd (Some a) x) (ring_list true illegal n [])
            = Ok (RBool true, ring_list true illegal (n + 1) [(a, x)])) as Hadd.
  { intros n Hn. cbn [exec]. unfold ret_bool.
    rewrite (add_rep _ _ _ _ (HR0 n ltac:(lia))).
    - cbn [constructed_ ring_list count_ illegal_].
      by rewrite (incr32_lt n) by lia.
    - apply (alloc_ok_ring _ []); [apply HR0; lia|apply not_elem_of_nil|].
      unfold INT32_MAX. simpl. lia. }
  pattern c. apply natlike_ind; [| |exact Hc]; clear c Hc.
  - intros _. change (2 * 0 + 1) with (0 + 1).
    apply (reachable_exec (List_new true illegal) (OAdd (Some a) x)
             (RBool true)); [apply reachable_new|done|].
    apply (Hadd 0). unfold INT32_MAX. lia.
  - intros c Hc IH Hle.
    replace (2 * Z.succ c + 1) with (2 * c + 1 + 1 + 1) by lia.
    apply (reachable_exec (ring_list true illegal (2 * c + 1 + 1) [])
             (OAdd (Some a) x) (RBool true)); [|done|apply Hadd; lia].
    apply (reachable_exec (ring_list true illegal (2 * c + 1) [(a, x)])
             (ORemove 0) (RBool true)); [apply IH; lia|done|].
    cbn [exec]. unfold ret_bool.
    rewrite (remove_rep _ _ _ (HR1 (2 * c + 1) ltac:(lia))).
    rewrite decide_True by (simpl; lia).
    cbn [constructed_ ring_list count_ illegal_].
    by rewrite (incr32_lt (2 * c + 1)) by lia.
Qed.

End RunLemmas.

(** ** Properties of the list *)

Section ListProperties.

Context {T : Type} `{EqDecision T}.
Implicit Types (ns : list (positive * T)) (l : List T) (a b : positive).

(** C2. On a list that has just been constructed, after any finite sequence
    of [add] calls (with or without an index) and [remove] calls (by index,
    by element, first, last or head), [getLength()] is the number of the
    [add] calls that returned [true] minus the number of the [remove] calls
    that returned [true]; and the sequence has a defined result as long as
    it is not longer than [INT32_MAX]. *)
Theorem getLength_adds_minus_removes (illegal : T) (os : list (Op T)) :
  Forall (fun o => is_add o || is_remove o = true) os ->
  allocs_okb os (List_new true illegal) = true ->
  (Z.of_nat (length os) <= INT32_MAX ->
   is_Ok (run os (List_new true illegal))) /\
  forall rs l', run os (List_new true illegal) = Ok (rs, l') ->
    getLength l'
    = Ok (count_true is_add os rs - count_true is_remove os rs).
Proof.
  intros Hm Ha. split.
  - intros Hlen. by apply (run_defined os _ [] Hm (Rep_empty true illegal)).
  - intros rs l' Hr.
    destruct (run_length os _ [] rs l' Hm (Rep_empty true illegal) Ha Hr)
      as (ns' & HR & Hlen).
    rewrite (getLength_ring _ _ (Rep_Ring _ _ HR)). f_equal.
    simpl in Hlen. lia.
Qed.

(** C5. [get(i)] gives the element at position [i] when
    [0 <= i < getLength()], and the illegal value for every other index and
    on a list that is not constructed; [getFirst()] and [peek()] are
    [get(0)], [getLast()] is [get(getLength() - 1)]; every read accessor
    answers and leaves the list as it is. *)
Theorem read_accessors_total l ns :
  Rep l ns ->
  (forall i, 0 <= i < Z.of_nat (length ns) ->
     exists x, elements ns !! Z.to_nat i = Some x /\ get l i = Ok x) /\
  (forall i, ~ 0 <= i < Z.of_nat (length ns) -> get l i = Ok (illegal_ l)) /\
  (constructed_ l = false -> forall i, get l i = Ok (illegal_ l)) /\
  getFirst l = get l 0 /\ peek l = get l 0 /\
  getLast l = get l (Z.of_nat (length ns) - 1) /\
  (forall o, is_read o = true -> exists r, exec o l = Ok (r, l)).
Proof.
  intros HR. split_and!.
  - intros i Hi. rewrite (get_rep _ _ _ HR). unfold element_at, elements.
    rewrite decide_True by lia.
    destruct (lookup_lt_is_Some_2 ns.*2 (Z.to_nat i)) as [x Hx].
    { rewrite length_fmap. lia. }
    exists x. by rewrite Hx.
  - intros i Hi. rewrite (get_rep _ _ _ HR). unfold element_at, elements.
    case_decide; [|done].
    rewrite (proj2 (lookup_ge_None _ _)); [done|]. rewrite length_fmap. lia.
  - intros Hc i. unfold get, isConstructed. by rewrite Hc.
  - done.
  - done.
  - by rewrite (getLast_rep _ _ HR), (get_rep _ _ _ HR).
  - intros o Ho. by apply (exec_read _ ns).
Qed.

(** C6, as amended. On a constructed list [add(index, element)] returns
    [false] exactly when [index] is outside [[0, getLength()]] or the
    allocation of the node fails, and the list is then unchanged; on a list
    that is not constructed it returns [false] whatever the index; a call
    that succeeds puts the element at [index], and on an empty list the new
    node becomes [last_]. *)
Theorem add_at_fails_exactly l ns p index x :
  Rep l ns -> alloc_ok l p ->
  (constructed_ l = true ->
   forall l', add_at p index x l = Ok (false, l') <->
     l' = l /\ (index < 0 \/ index > Z.of_nat (length ns) \/ p = None)) /\
  (constructed_ l = false -> add_at p index x l = Ok (false, l)) /\
  (constructed_ l = true -> 0 <= index <= Z.of_nat (length ns) ->
   count_ l < INT32_MAX ->
   forall a, p = Some a ->
   exists l', add_at p index x l = Ok (true, l') /\
     Rep l' (insert_at (Z.to_nat index) (a, x) ns) /\
     (ns = [] -> last_ l' = Some a)).
Proof.
  intros HR Hp. pose proof (rep_count _ _ HR) as Hcnt.
  rewrite (add_at_rep _ _ _ _ _ HR Hp). split_and!.
  - intros Hc l'. case_decide as Hd.
    + destruct Hd as [_ Hd]. destruct p as [a|].
      * destruct (incr32 (count_ l)); simpl; split; try done;
          intros [_ [?|[?|?]]]; try lia; done.
      * split; [intros [= <-]; auto|]. by intros [-> _].
    + split; [|by intros [-> _]]. intros [= <-]. split; [done|].
      destruct (decide (index < 0)); [tauto|].
      destruct (decide (index > Z.of_nat (length ns))); [tauto|].
      destruct Hd. split; [done|lia].
  - intros Hc. rewrite decide_False; [done|]. rewrite Hc. by intros [? _].
  - intros Hc Hi Hlt a ->. rewrite decide_True by done.
    rewrite incr32_lt by lia. simpl. eexists. split; [done|].
    assert (op_alloc_okb (OAddAt (Some a) index x) l = true) as Hpb
      by (by apply alloc_okb_spec).
    assert (next_ring (OAddAt (Some a) index x) (constructed_ l) ns
            = Some (insert_at (Z.to_nat index) (a, x) ns)) as Hn.
    { simpl. by rewrite decide_True. }
    destruct (next_ring_spec _ _ _ _ HR Hpb Hn) as (Hnd & _ & Hsz & _).
    split.
    + apply Rep_ring_list; try done; [by rewrite Hc|lia].
    + intros ->. simpl in Hi. by replace index with 0 by lia.
Qed.

(** C7. When [v] occurs in the list, [removeElement(v)] returns [true] and
    removes the occurrence of [v] with the lowest index, every other element
    staying in its order; when [v] does not occur it returns [false] and the
    list is unchanged. *)
Theorem removeElement_first l ns v :
  Rep l ns ->
  (v ∈ elements ns ->
   exists k, elements ns !! k = Some v /\
     (forall j, (j < k)%nat -> elements ns !! j <> Some v) /\
     (count_ l < INT32_MAX ->
      exists l', removeElement v l = Ok (true, l') /\
        Rep l' (delete k ns) /\
        elements (delete k ns) = delete k (elements ns))) /\
  (v ∉ elements ns -> removeElement v l = Ok (false, l)).
Proof.
  intros HR. pose proof (rep_count _ _ HR) as Hcnt.
  rewrite (removeElement_rep _ _ _ HR). split.
  - intros Hin. destruct (find_node v ns) as [[k [a x]]|] eqn:Hf.
    2:{ by apply find_node_None in Hf. }
    pose proof Hf as Hf'. apply find_node_Some in Hf' as (Hk & -> & Hmin).
    exists k. split_and!.
    + unfold elements. by rewrite list_lookup_fmap, Hk.
    + done.
    + intros Hlt. rewrite incr32_lt by lia. simpl. eexists. split; [done|].
      assert (next_ring (ORemoveElement v) (constructed_ l) ns
              = Some (delete k ns)) as Hn by (simpl; by rewrite Hf).
      destruct (next_ring_spec l ns (ORemoveElement v) _ HR eq_refl Hn)
        as (Hnd & Hc & Hsz & _).
      split; [|by apply list_fmap_delete].
      apply Rep_ring_list; try done; [by rewrite Hc|lia].
  - intros Hnot. apply find_node_None in Hnot. by rewrite Hnot.
Qed.

(** C10. A call that adds or removes and returns [true] raises [count_] by
    exactly one, on an empty list as on any other; a call that returns
    [false] and a read accessor leave the list, and so [count_], as they
    are; over any sequence of calls that returns, [count_] never decreases.
    While [count_] is below the largest [int32] the calls do return:
    [addNode] returns [true] exactly when the allocator gives a node and the
    index is in [[0, getLength()]], [removeNode] exactly on a node of the
    list, a call of the list exactly when it has something to add or to
    remove, and each of them then counts one change; every other call
    returns [false] with the list as it was. A read accessor always
    returns, and a sequence of calls returns when the counter has room for
    its changes. A call with nothing to add or to remove returns [false]
    whatever [count_] is; at [count_ = INT32_MAX] a call that has something
    to add or to remove has no defined result, its [count_++] overflowing
    the [int32]. *)
Theorem count_changes l ns :
  Rep l ns ->
  (forall o r l', op_alloc_okb o l = true -> exec o l = Ok (r, l') ->
     (is_add o || is_remove o = true ->
        (r = RBool true /\ count_ l' = count_ l + 1) \/
        (r = RBool false /\ l' = l)) /\
     (is_read o = true -> l' = l) /\
     count_ l <= count_ l') /\
  (forall os rs l', allocs_okb os l = true -> run os l = Ok (rs, l') ->
     count_ l <= count_ l') /\
  (count_ l < INT32_MAX ->
     (forall p index x, alloc_ok l p ->
        exists (ok : bool) l', addNode p index x l = Ok (ok, l') /\
          (ok = true <->
           p <> None /\ 0 <= index <= Z.of_nat (length ns)) /\
          (if ok then count_ l' = count_ l + 1 else l' = l)) /\
     (forall node, (forall a, node = Some a -> a ∈ ns.*1) ->
        exists (ok : bool) l', removeNode node l = Ok (ok, l') /\
          (ok = true <-> node <> None) /\
          (if ok then count_ l' = count_ l + 1 else l' = l)) /\
     (forall o, op_alloc_okb o l = true -> is_add o || is_remove o = true ->
        exists (ok : bool) l', exec o l = Ok (RBool ok, l') /\
          (ok = true <-> is_Some (next_ring o (constructed_ l) ns)) /\
          (if ok then count_ l' = count_ l + 1 else l' = l))) /\
  (forall o, is_read o = true -> exists r, exec o l = Ok (r, l)) /\
  (forall os, allocs_okb os l = true ->
     count_ l + Z.of_nat (length ns) + 2 * Z.of_nat (length os)
     <= INT32_MAX ->
     exists rs l', run os l = Ok (rs, l') /\ count_ l <= count_ l') /\
  (forall o, op_alloc_okb o l = true -> is_add o || is_remove o = true ->
     next_ring o (constructed_ l) ns = None ->
     exec o l = Ok (RBool false, l)) /\
  (count_ l = INT32_MAX ->
     forall o, op_alloc_okb o l = true -> is_add o || is_remove o = true ->
       is_Some (next_ring o (constructed_ l) ns) -> exec o l = Undefined).
Proof.
  intros HR. pose proof (rep_count _ _ HR) as Hcnt. split_and!.
  - intros o r l' Hp He.
    destruct (count_step _ _ _ _ _ HR Hp He) as [Hm Hr].
    split_and!; [done|done|].
    by destruct (exec_Rep _ _ _ _ _ HR Hp He) as (? & _ & ?).
  - intros os rs l' Ha Hr.
    by destruct (run_Rep _ _ _ _ _ HR Ha Hr) as (? & _ & ?).
  - intros Hlt. split_and!.
    + intros p index x Hp. rewrite (addNode_rep _ _ _ _ _ HR Hp).
      case_decide as Hin.
      * destruct p as [a|].
        -- rewrite (incr32_lt (count_ l)) by lia.
           exists true. eexists. split; [done|]. split; [|done].
           split; [|done]. intros _. split; [done|lia].
        -- exists false, l. split; [done|]. split; [|done].
           split; [done|]. by intros [? _].
      * exists false, l. split; [done|]. split; [|done].
        split; [done|]. intros [_ ?]. lia.
    + intros [a|] Hin.
      * pose proof (Hin a eq_refl) as Ha.
        apply list_elem_of_fmap in Ha as ([a' x] & Ea & Hax).
        simpl in Ea. subst a.
        apply list_elem_of_lookup in Hax as [k Hk].
        rewrite (removeNode_rep _ _ _ _ _ HR Hk).
        rewrite (incr32_lt (count_ l)) by lia.
        exists true. eexists. split; [done|]. by split.
      * exists false, l. split; [done|]. by split.
    + intros o Hp Hm. rewrite (exec_mutator _ _ _ HR Hp Hm).
      destruct (next_ring o (constructed_ l) ns) as [ns'|].
      * rewrite (incr32_lt (count_ l)) by lia.
        exists true. eexists. split; [done|]. split; [|done].
        split; [by eexists|done].
      * exists false, l. split; [done|]. split; [|done].
        split; [done|]. by intros [? ?].
  - intros o Hr. by apply (exec_read _ ns).
  - intros os Ha Hroom. by apply (run_room os l ns).
  - intros o Hp Hm Hn. by rewrite (exec_mutator _ _ _ HR Hp Hm), Hn.
  - intros Hmax o Hp Hm [ns' Hn].
    rewrite (exec_mutator _ _ _ HR Hp Hm), Hn, Hmax. reflexivity.
Qed.

End ListProperties.

(** ** Iterators whose list has changed *)

Section StaleIterators.

Context {T : Type} `{EqDecision T}.
Implicit Types (ns : list (positive * T)) (l : List T) (it : Iterator).

(** An iterator whose counter differs from the counter of the list refuses
    every operation, whatever the list and the cursor are. *)
Lemma mismatch_refuses l it : count_ l <> self_ it -> refuses l it.
Proof.
  intros Hne. unfold refuses.
  assert (hasNext l it = false) as Hn.
  { unfold hasNext. by rewrite decide_True. }
  assert (hasPrevious l it = Ok false) as Hp.
  { unfold hasPrevious. by rewrite decide_True. }
  split_and!; try done.
  - unfold getNext. by rewrite Hn.
  - unfold getPrevious. by rewrite Hp.
  - unfold getNextIndex. by rewrite Hn.
  - unfold getPreviousIndex. by rewrite Hp.
  - intros p x. unfold it_add. by rewrite decide_True.
  - unfold it_remove. by rewrite decide_True.
Qed.

(** A call that changes the structure of the list counts at least one
    change. *)
Lemma exec_changes_count l ns o r l' :
  Rep l ns -> op_alloc_okb o l = true -> exec o l = Ok (r, l') ->
  modifies o r l l' -> count_ l < count_ l'.
Proof.
  intros HR Hp He [[Hm ->]|Hh]; pose proof (rep_count _ _ HR) as Hcnt.
  { destruct (proj1 (count_step _ _ _ _ _ HR Hp He) Hm) as [[_ ->]|[? _]];
      [lia|done]. }
  destruct (is_add o || is_remove o) eqn:Hm.
  - rewrite (exec_mutator _ _ _ HR Hp Hm) in He.
    destruct (next_ring o (constructed_ l) ns) as [ns'|].
    + destruct (incr32 (count_ l)) as [c|] eqn:Hi; [|done].
      apply incr32_Ok in Hi as [_ ->]; [|lia].
      injection He as <- <-. simpl. lia.
    + by injection He as <- <-.
  - destruct (is_read o) eqn:Hr.
    + destruct (exec_read _ _ _ HR Hr) as [r' He'].
      rewrite He' in He. by injection He as <- <-.
    + destruct o; try discriminate Hm; try discriminate Hr; cbn [exec] in He.
      * rewrite (clear_rep _ _ HR) in He. case_decide; [|done].
        injection He as <- <-. simpl in *.
        destruct ns as [|n ns]; [|simpl; lia].
        by rewrite (rep_heap _ _ HR) in Hh.
      * injection He as <- <-. exfalso. apply Hh.
        unfold setIllegal, isConstructed. by destruct (constructed_ l).
Qed.

(** A new iterator has the counter of its list. *)
Lemma getListIterator_fresh allocated index l it :
  getListIterator allocated index l = Ok (Some it) -> fresh_it l it.
Proof.
  unfold getListIterator, fresh_it.
  destruct (negb (isConstructed l)); [done|].
  destruct (negb allocated); [done|].
  destruct (isIndexOutOfBounds l index) as [[|]|]; try done. simpl.
  destruct (getNodeByIndex l index); [|done]. simpl.
  by intros [= <-].
Qed.

(** C3. Once a call on the list has changed its structure (an [add] or a
    [remove] that returned [true], or any call after which the nodes are not
    what they were), an iterator that existed before the call refuses every
    operation: [hasNext()] and [hasPrevious()] answer [false], [getNext()]
    and [getPrevious()] the illegal value, [getNextIndex()] the length,
    [getPreviousIndex()] [-1], [add] and [remove] [false], the list and the
    iterator staying as they are; this lasts through every later sequence of
    calls on the list, and an iterator obtained afterwards counts as the
    list does. *)
Theorem stale_iterator_refuses l it o r l1 os rs l2 :
  wf l -> self_ it <= count_ l ->
  op_alloc_okb o l = true -> exec o l = Ok (r, l1) ->
  modifies o r l l1 ->
  allocs_okb os l1 = true -> run os l1 = Ok (rs, l2) ->
  stale l2 it /\ refuses l2 it /\
  (forall allocated index it',
     getListIterator allocated index l2 = Ok (Some it') -> fresh_it l2 it').
Proof.
  intros [ns HR] Hle Hp He Hh Ha Hr.
  pose proof (exec_changes_count _ _ _ _ _ HR Hp He Hh) as Hlt.
  destruct (exec_Rep _ _ _ _ _ HR Hp He) as (ns1 & HR1 & _).
  destruct (run_Rep _ _ _ _ _ HR1 Ha Hr) as (ns2 & HR2 & Hle2).
  assert (stale l2 it) as Hs by (unfold stale; lia).
  split_and!; [done| |].
  - apply mismatch_refuses. unfold stale in Hs. lia.
  - intros allocated index it'. apply getListIterator_fresh.
Qed.

(** ** Iterators at the end of the list *)

(** [hasPrevious()] reads the node under the cursor before it looks whether
    there is one. *)
Lemma hasPrevious_null_cursor l it :
  count_ l = self_ it -> last_ l <> None -> curs_ it = None ->
  hasPrevious l it = Undefined.
Proof.
  intros Hc Hl Hn. unfold hasPrevious. rewrite decide_False by tauto.
  destruct (last_ l); [|done]. by rewrite Hn.
Qed.

Lemma getPrevious_null_cursor l it :
  count_ l = self_ it -> last_ l <> None -> curs_ it = None ->
  getPrevious l it = Undefined.
Proof.
  intros Hc Hl Hn. unfold getPrevious.
  by rewrite hasPrevious_null_cursor.
Qed.

Lemma getPreviousIndex_null_cursor l it :
  count_ l = self_ it -> last_ l <> None -> curs_ it = None ->
  getPreviousIndex l it = Undefined.
Proof.
  intros Hc Hl Hn. unfold getPreviousIndex.
  by rewrite hasPrevious_null_cursor.
Qed.

(** [remove()] reads the index of the node under the cursor before it looks
    whether there is one. *)
Lemma it_remove_null_cursor l it :
  count_ l = self_ it -> rindex_ it <> ILLEGAL_INDEX -> curs_ it = None ->
  it_remove l it = Undefined.
Proof.
  intros Hc Hr Hn. unfold it_remove.
  rewrite decide_False by tauto. rewrite decide_False by done.
  by rewrite Hn.
Qed.

End StaleIterators.

(** ** Iterators that have seen every change *)

Section Cursors.

Context {T : Type} `{EqDecision T}.
Implicit Types (ns : list (positive * T)) (l : List T) (it : Iterator).

Lemma getListIterator_rep l ns allocated index :
  Rep l ns ->
  getListIterator allocated index l =
    if decide (constructed_ l = true /\ allocated = true /\
               0 <= index <= Z.of_nat (length ns))
    then Ok (Some (mkIterator (count_ l) (ns.*1 !! Z.to_nat index)
                     ILLEGAL_INDEX))
    else Ok None.
Proof.
  intros HR. unfold getListIterator, isConstructed.
  rewrite (isIndexOutOfBounds_ring _ _ _ (Rep_Ring _ _ HR)).
  rewrite (getNodeByIndex_ring _ _ _ (Rep_Ring _ _ HR)).
  destruct (decide (constructed_ l = true /\ allocated = true /\
                    0 <= index <= Z.of_nat (length ns))) as [Hd|Hd].
  - destruct Hd as (-> & -> & Hi). cbn [negb mbind outcome_bind].
    rewrite bool_decide_eq_false_2 by lia. by rewrite decide_True by lia.
  - destruct (constructed_ l); [|done]. destruct allocated; [|done].
    cbn [negb mbind outcome_bind]. rewrite bool_decide_eq_true_2; [done|].
    destruct (decide (index < 0)); [by left|right].
    destruct (decide (index > Z.of_nat (length ns))); [done|].
    exfalso. apply Hd. split_and!; try done; lia.
Qed.

Lemma ring_lookup_in l ns k a x :
  Rep l ns -> ns !! k = Some (a, x) ->
  heap_ l !! a = Some (ring_cell ns k x).
Proof. intros HR. apply (ring_cells_in _ _ (Rep_Ring _ _ HR)). Qed.

(** A new iterator is at the position it was asked for. *)
Lemma getListIterator_Cursor l ns allocated index it :
  Rep l ns -> getListIterator allocated index l = Ok (Some it) ->
  Cursor l ns it (Z.to_nat index).
Proof.
  intros HR. rewrite (getListIterator_rep _ _ _ _ HR).
  case_decide as Hd; [|done]. intros [= <-]. split; simpl; try done.
  - lia.
  - by left.
Qed.

Lemma Cursor_node l ns it k a x :
  Cursor l ns it k -> ns !! k = Some (a, x) -> curs_ it = Some a.
Proof.
  intros HC Hk. by rewrite (cur_node _ _ _ _ HC), list_lookup_fmap, Hk.
Qed.

Lemma Cursor_end l ns it :
  Cursor l ns it (length ns) -> curs_ it = None.
Proof.
  intros HC. rewrite (cur_node _ _ _ _ HC). apply lookup_ge_None.
  by rewrite length_fmap.
Qed.

Lemma hasNext_Cursor l ns it k :
  Cursor l ns it k -> hasNext l it = bool_decide (k < length ns)%nat.
Proof.
  intros HC. unfold hasNext.
  rewrite decide_False by (intros Hne; apply Hne, HC).
  rewrite (cur_node _ _ _ _ HC).
  destruct (ns.*1 !! k) eqn:E.
  - apply lookup_lt_Some in E. rewrite length_fmap in E.
    by rewrite bool_decide_eq_true_2.
  - apply lookup_ge_None in E. rewrite length_fmap in E.
    rewrite bool_decide_eq_false_2; [done|lia].
Qed.

(** [getNextIndex()] is the position of the cursor, the length at the end,
    and nothing moves. *)
Lemma getNextIndex_Cursor l ns it k :
  Rep l ns -> Cursor l ns it k -> getNextIndex l it = Ok (Z.of_nat k).
Proof.
  intros HR HC. unfold getNextIndex. rewrite (hasNext_Cursor _ _ _ _ HC).
  case_bool_decide as Hk.
  - destruct (lookup_lt_is_Some_2 ns k Hk) as [[a x] Ha].
    rewrite (Cursor_node _ _ _ _ _ _ HC Ha).
    by rewrite (Ring_deref _ _ _ _ _ (Rep_Ring _ _ HR) Ha).
  - rewrite (getLength_ring _ _ (Rep_Ring _ _ HR)).
    pose proof (cur_pos _ _ _ _ HC). do 2 f_equal. lia.
Qed.

Lemma next_cursor ns k a :
  NoDup ns.*1 -> ns.*1 !! k = Some a ->
  (if decide (Some a ≠ last ns.*1) then Some (ring_next ns.*1 k) else None)
  = ns.*1 !! S k.
Proof.
  intros Hnd Ha. pose proof (lookup_lt_Some _ _ _ Ha) as Hlt.
  rewrite last_lookup. case_decide as Hl.
  - destruct (ns.*1 !! S k) as [b|] eqn:Hb.
    + unfold ring_next, succ_pos.
      apply lookup_lt_Some in Hb as Hlt'.
      rewrite decide_False by lia. by rewrite Hb.
    + apply lookup_ge_None in Hb. exfalso. apply Hl.
      rewrite <- Ha. f_equal. lia.
  - symmetry. apply lookup_ge_None.
    assert (k = pred (length ns.*1)); [|lia].
    eapply NoDup_lookup; [exact Hnd|exact Ha|by symmetry].
Qed.

(** [getNext()] returns the element under the cursor, remembers its index
    and moves the cursor one position on. *)
Lemma getNext_Cursor l ns it k a x :
  Rep l ns -> Cursor l ns it k -> ns !! k = Some (a, x) ->
  exists it', getNext l it = Ok (x, it') /\ Cursor l ns it' (S k) /\
              rindex_ it' = Z.of_nat k.
Proof.
  intros HR HC Hk. pose proof (lookup_lt_Some _ _ _ Hk) as Hlt.
  unfold getNext. rewrite (hasNext_Cursor _ _ _ _ HC).
  rewrite bool_decide_eq_true_2 by done. simpl.
  rewrite (Cursor_node _ _ _ _ _ _ HC Hk).
  rewrite (Ring_deref _ _ _ _ _ (Rep_Ring _ _ HR) Hk). simpl.
  eexists. split; [reflexivity|]. split; [|done].
  split; simpl.
  - apply HC.
  - lia.
  - rewrite (rep_last _ _ HR). apply next_cursor; [apply HR|].
    by rewrite list_lookup_fmap, Hk.
  - right. exists k. split_and!; [done|done|by right].
Qed.

Lemma hasPrevious_Cursor l ns it k :
  Rep l ns -> Cursor l ns it k -> (k < length ns)%nat ->
  hasPrevious l it = Ok (bool_decide (0 < k)%nat).
Proof.
  intros HR HC Hlt. unfold hasPrevious.
  rewrite decide_False by (intros Hne; apply Hne, HC).
  destruct (lookup_lt_is_Some_2 ns k Hlt) as [[a x] Ha].
  destruct (lookup_lt_is_Some_2 ns (pred (length ns))) as [[lst xl] Hlast];
    [lia|].
  destruct (lookup_lt_is_Some_2 ns (pred_pos (length ns) k)) as [[pv xp] Hpv].
  { unfold pred_pos. case_decide; lia. }
  rewrite (rep_last _ _ HR), last_ring, Hlast. simpl.
  rewrite (cur_node _ _ _ _ HC), list_lookup_fmap, Ha. simpl.
  rewrite (ring_lookup_in l ns k a x HR Ha). simpl.
  rewrite (ring_prev_eq ns k pv xp Hpv).
  rewrite (decide_ext (Some pv = Some lst) (k = O)).
  - case_decide; f_equal; symmetry;
      [apply bool_decide_eq_false|apply bool_decide_eq_true]; lia.
  - pose proof (ring_addr_eq ns _ _ _ _ _ _ (rep_nodup _ _ HR) Hpv Hlast) as E.
    unfold pred_pos in E. split.
    + intros [= Heq]. apply E in Heq. case_decide; lia.
    + intros ->. f_equal. apply E. by rewrite decide_True.
Qed.

(** On the empty list there is nothing before the cursor. *)
Lemma hasPrevious_empty l it :
  last_ l = None -> hasPrevious l it = Ok false.
Proof. intros Hl. unfold hasPrevious. case_decide; [done|]. by rewrite Hl. Qed.

(** [hasPrevious()] on every position of the cursor: defined on a node and
    on the empty list, undefined past the end of a list that has elements. *)
Lemma hasPrevious_cases l ns it k :
  Rep l ns -> Cursor l ns it k ->
  hasPrevious l it =
    if decide (k < length ns)%nat then Ok (bool_decide (0 < k)%nat)
    else if decide (ns = []) then Ok false else Undefined.
Proof.
  intros HR HC. case_decide as Hk.
  - by apply (hasPrevious_Cursor _ ns).
  - case_decide as Hn.
    + apply hasPrevious_empty. rewrite (rep_last _ _ HR). by subst.
    + pose proof (cur_pos _ _ _ _ HC).
      apply hasPrevious_null_cursor; [apply HC| |].
      * rewrite (rep_last _ _ HR), last_ring.
        destruct (lookup_lt_is_Some_2 ns (pred (length ns))) as [[a x] ->];
          [|done].
        destruct ns; [done|simpl; lia].
      * replace k with (length ns) in HC by lia. by apply (Cursor_end l ns).
Qed.

(** Away from the end, [getPreviousIndex()] is the position before the
    cursor, [-1] at the head, and nothing moves. *)
Lemma getPreviousIndex_Cursor l ns it k :
  Rep l ns -> Cursor l ns it k -> (k < length ns)%nat ->
  getPreviousIndex l it = Ok (Z.of_nat k - 1).
Proof.
  intros HR HC Hlt. unfold getPreviousIndex.
  rewrite (hasPrevious_Cursor _ _ _ _ HR HC Hlt). simpl.
  case_bool_decide as Hk; simpl; [|f_equal; lia].
  destruct (lookup_lt_is_Some_2 ns k Hlt) as [[a x] Ha].
  destruct (lookup_lt_is_Some_2 ns (pred k)) as [[pv xp] Hpv]; [lia|].
  rewrite (cur_node _ _ _ _ HC), list_lookup_fmap, Ha. simpl.
  rewrite (ring_lookup_in l ns k a x HR Ha). simpl.
  rewrite (ring_prev_eq ns k pv xp).
  2:{ unfold pred_pos. by rewrite decide_False by lia. }
  rewrite (ring_lookup_in l ns _ pv xp HR Hpv). simpl. f_equal. lia.
Qed.

(** [getPreviousIndex()] on every position of the cursor. *)
Lemma getPreviousIndex_cases l ns it k :
  Rep l ns -> Cursor l ns it k ->
  getPreviousIndex l it =
    if decide (k < length ns)%nat then Ok (Z.of_nat k - 1)
    else if decide (ns = []) then Ok (-1) else Undefined.
Proof.
  intros HR HC. case_decide as Hk.
  - by apply (getPreviousIndex_Cursor _ ns).
  - unfold getPreviousIndex. rewrite (hasPrevious_cases _ _ _ _ HR HC).
    rewrite decide_False by done. by case_decide.
Qed.

(** Away from the end and from the head, [getPrevious()] returns the element
    before the cursor, remembers its index and moves the cursor onto it. *)
Lemma getPrevious_Cursor l ns it k pv xp :
  Rep l ns -> Cursor l ns it (S k) -> (S k < length ns)%nat ->
  ns !! k = Some (pv, xp) ->
  exists it', getPrevious l it = Ok (xp, it') /\ Cursor l ns it' k /\
              rindex_ it' = Z.of_nat k.
Proof.
  intros HR HC Hlt Hpv. unfold getPrevious.
  rewrite (hasPrevious_Cursor _ _ _ _ HR HC Hlt). simpl.
  destruct (lookup_lt_is_Some_2 ns (S k) Hlt) as [[a x] Ha].
  rewrite (cur_node _ _ _ _ HC), list_lookup_fmap, Ha. simpl.
  rewrite (ring_lookup_in l ns _ a x HR Ha). simpl.
  rewrite (ring_prev_eq ns (S k) pv xp).
  2:{ unfold pred_pos. by rewrite decide_False by lia. }
  rewrite (ring_lookup_in l ns _ pv xp HR Hpv). simpl.
  eexists. split; [reflexivity|]. split; [|done].
  split; simpl.
  - apply HC.
  - lia.
  - by rewrite list_lookup_fmap, Hpv.
  - right. exists k. split_and!; [done|lia|by left].
Qed.

(** [remove()] without a last-returned index does nothing. *)
Lemma it_remove_nothing_returned l it :
  rindex_ it = ILLEGAL_INDEX -> it_remove l it = Ok (false, l, it).
Proof.
  intros Hr. unfold it_remove. case_decide; [done|]. by rewrite decide_True.
Qed.

(** With the cursor on a node, [remove()] removes the element at the
    last-returned index; the cursor moves to the successor when its own node
    is the one removed and stays on its node otherwise, and the
    last-returned index is forgotten. *)
Lemma it_remove_Cursor l ns it k r :
  Rep l ns -> Cursor l ns it k -> (k < length ns)%nat ->
  rindex_ it = Z.of_nat r -> (r < length ns)%nat ->
  count_ l < INT32_MAX ->
  exists l' it',
    it_remove l it = Ok (true, l', it') /\
    Rep l' (delete r ns) /\
    Cursor l' (delete r ns) it' (if decide (r < k)%nat then pred k else k) /\
    rindex_ it' = ILLEGAL_INDEX /\
    curs_ it' = if decide (r = k) then ns.*1 !! S k else curs_ it.
Proof.
  intros HR HC Hk Hri Hr Hlt. pose proof (rep_count _ _ HR) as Hcnt.
  destruct (lookup_lt_is_Some_2 ns k Hk) as [[a x] Ha].
  assert (ns.*1 !! k = Some a) as Ha1 by (by rewrite list_lookup_fmap, Ha).
  unfold it_remove.
  rewrite decide_False by (intros Hne; apply Hne, HC).
  rewrite decide_False by (rewrite Hri; unfold ILLEGAL_INDEX; lia).
  rewrite (cur_node _ _ _ _ HC), Ha1. cbn [deref].
  rewrite (ring_lookup_in l ns k a x HR Ha).
  cbn [mbind outcome_bind index_ next_ ring_cell].
  rewrite Hri, (remove_rep _ _ _ HR).
  rewrite (decide_True (P := 0 <= Z.of_nat r < Z.of_nat (length ns))) by lia.
  rewrite (incr32_lt (count_ l)) by lia. cbn [mbind outcome_bind fst snd negb].
  rewrite <- (cur_fresh _ _ _ _ HC), (incr32_lt (count_ l)) by lia.
  cbn [mbind outcome_bind].
  rewrite Nat2Z.id, (rep_last _ _ HR).
  rewrite (next_cursor ns k a (rep_nodup _ _ HR) Ha1).
  rewrite (decide_ext (Z.of_nat k ≠ Z.of_nat r) (r ≠ k)) by lia.
  eexists _, _. split; [reflexivity|].
  assert (next_ring (ORemove (Z.of_nat r)) (constructed_ l) ns
          = Some (delete r ns)) as Hn.
  { simpl. rewrite decide_True by lia. by rewrite Nat2Z.id. }
  destruct (next_ring_spec l ns (ORemove (Z.of_nat r)) _ HR eq_refl Hn)
    as (Hnd & Hc & Hsz & Hlen & _).
  cbn [is_add] in Hlen.
  split_and!.
  - apply Rep_ring_list; try done; [by rewrite Hc|lia].
  - split; simpl.
    + done.
    + case_decide; lia.
    + rewrite list_fmap_delete, list_lookup_delete.
      repeat case_decide; try lia; try done.
      rewrite <- Ha1. f_equal. lia.
    + by left.
  - done.
  - simpl. repeat case_decide; try done; try lia.
Qed.

(** [add(element)] of the iterator inserts before the cursor, which stays on
    its node, one position further. *)
Lemma it_add_Cursor l ns it k a x :
  Rep l ns -> Cursor l ns it k -> alloc_ok l (Some a) ->
  constructed_ l = true -> count_ l < INT32_MAX ->
  exists l' it',
    it_add (Some a) x l it = Ok (true, l', it') /\
    Rep l' (insert_at k (a, x) ns) /\
    Cursor l' (insert_at k (a, x) ns) it' (S k) /\
    rindex_ it' = ILLEGAL_INDEX /\ curs_ it' = curs_ it.
Proof.
  intros HR HC Hp Hc Hlt. pose proof (rep_count _ _ HR) as Hcnt.
  pose proof (cur_pos _ _ _ _ HC) as Hk.
  unfold it_add.
  rewrite decide_False by (intros Hne; apply Hne, HC).
  rewrite (getNextIndex_Cursor _ _ _ _ HR HC). simpl.
  rewrite (add_at_rep _ _ _ _ _ HR Hp), decide_True by (split; [done|lia]).
  rewrite (incr32_lt (count_ l)) by lia. cbn [mbind outcome_bind fst snd negb].
  rewrite <- (cur_fresh _ _ _ _ HC), (incr32_lt (count_ l)) by lia.
  cbn [mbind outcome_bind]. rewrite Nat2Z.id.
  eexists _, _. split; [reflexivity|].
  assert (next_ring (OAddAt (Some a) (Z.of_nat k) x) (constructed_ l) ns
          = Some (insert_at k (a, x) ns)) as Hn.
  { simpl. rewrite decide_True by (split; [done|lia]). by rewrite Nat2Z.id. }
  assert (op_alloc_okb (OAddAt (Some a) (Z.of_nat k) x) l = true) as Hpb
    by (by apply alloc_okb_spec).
  destruct (next_ring_spec l ns _ _ HR Hpb Hn) as (Hnd & _ & Hsz & Hlen & _).
  split_and!; try done.
  - apply Rep_ring_list; try done; [by rewrite Hc|lia].
  - split; simpl.
    + done.
    + rewrite length_insert_at. lia.
    + rewrite fmap_insert_at, lookup_insert_at by (rewrite length_fmap; lia).
      rewrite decide_False by lia. rewrite decide_False by lia.
      apply HC.
    + by left.
Qed.

(** What [add] and [remove] of an iterator do to the list is what a call on
    the list does. *)
Lemma it_add_as_exec p x l it (ok : bool) l' it' :
  it_add p x l it = Ok (ok, l', it') ->
  (ok = false /\ l' = l) \/
  exists index, exec (OAddAt p index x) l = Ok (RBool ok, l').
Proof.
  unfold it_add. case_decide; [intros [= <- <- <-]; by left|].
  destruct (getNextIndex l it) as [i|]; [|done].
  cbn [mbind outcome_bind fst snd negb].
  destruct (add_at p i x l) as [[b l1]|] eqn:E; [|done].
  cbn [mbind outcome_bind fst snd negb].
  destruct b; cbn [mbind outcome_bind fst snd negb].
  - destruct (incr32 (self_ it)); [|done].
    cbn [mbind outcome_bind fst snd negb]. intros [= <- <- <-].
    right. exists i. cbn [exec]. unfold ret_bool. by rewrite E.
  - intros [= <- <- <-]. right. exists i. cbn [exec]. unfold ret_bool.
    by rewrite E.
Qed.

Lemma it_remove_as_exec l it (ok : bool) l' it' :
  it_remove l it = Ok (ok, l', it') ->
  (ok = false /\ l' = l) \/
  exec (ORemove (rindex_ it)) l = Ok (RBool ok, l').
Proof.
  unfold it_remove. case_decide; [intros [= <- <- <-]; by left|].
  case_decide; [intros [= <- <- <-]; by left|].
  destruct (deref (heap_ l) (curs_ it)); [|done].
  cbn [mbind outcome_bind fst snd negb].
  destruct (remove (rindex_ it) l) as [[b l1]|] eqn:E; [|done].
  cbn [mbind outcome_bind fst snd negb].
  destruct b; cbn [mbind outcome_bind fst snd negb].
  - destruct (incr32 (self_ it)); [|done].
    cbn [mbind outcome_bind fst snd negb]. intros [= <- <- <-].
    right. cbn [exec]. unfold ret_bool. by rewrite E.
  - intros [= <- <- <-]. right. cbn [exec]. unfold ret_bool. by rewrite E.
Qed.

(** The list after [add] or [remove] through an iterator is a state the
    list can be in. *)
Lemma reachable_it_add p x l it (ok : bool) l' it' :
  reachable l -> alloc_ok l p -> it_add p x l it = Ok (ok, l', it') ->
  reachable l'.
Proof.
  intros Hl Hp Ha.
  destruct (it_add_as_exec _ _ _ _ _ _ _ Ha) as [[_ ->]|[i He]].
  - done.
  - apply (reachable_exec l (OAddAt p i x) (RBool ok)); [done| |done].
    by apply alloc_okb_spec.
Qed.

Lemma reachable_it_remove l it (ok : bool) l' it' :
  reachable l -> it_remove l it = Ok (ok, l', it') -> reachable l'.
Proof.
  intros Hl Ha. destruct (it_remove_as_exec _ _ _ _ _ Ha) as [[_ ->]|He].
  - done.
  - by apply (reachable_exec l (ORemove (rindex_ it)) (RBool ok)).
Qed.

(** No operation of an iterator puts an iterator ahead of its list: after
    [add] or [remove] through one iterator, that iterator and every other
    one still have a counter that is at most [count_], and the list is
    still a ring; [getNext()] and [getPrevious()] leave the counter alone. *)
Lemma iterator_never_ahead l ns it :
  Rep l ns -> self_ it <= count_ l ->
  (forall p x (ok : bool) l' it', alloc_ok l p ->
     it_add p x l it = Ok (ok, l', it') ->
     wf l' /\ self_ it' <= count_ l' /\ count_ l <= count_ l') /\
  (forall (ok : bool) l' it',
     it_remove l it = Ok (ok, l', it') ->
     wf l' /\ self_ it' <= count_ l' /\ count_ l <= count_ l') /\
  (forall x it', getNext l it = Ok (x, it') -> self_ it' = self_ it) /\
  (forall x it', getPrevious l it = Ok (x, it') -> self_ it' = self_ it).
Proof.
  intros HR Hle. pose proof (rep_count _ _ HR) as Hcnt.
  assert (wf l) as Hwf by (by exists ns).
  split_and!.
  - intros p x ok l' it' Hp. unfold it_add.
    case_decide as Hf; [intros [= <- <- <-]; split_and!; [done|lia|lia]|].
    destruct (getNextIndex l it) as [i|]; [|done].
    cbn [mbind outcome_bind].
    destruct (add_at p i x l) as [[b l1]|] eqn:E; [|done].
    cbn [mbind outcome_bind fst snd].
    assert (exec (OAddAt p i x) l = Ok (RBool b, l1)) as He
      by (cbn [exec]; unfold ret_bool; by rewrite E).
    assert (op_alloc_okb (OAddAt p i x) l = true) as Hpb
      by (by apply alloc_okb_spec).
    destruct (exec_Rep _ _ _ _ _ HR Hpb He) as (ns1 & HR1 & Hle1).
    destruct (proj1 (count_step l ns _ _ _ HR Hpb He) eq_refl)
      as [[_ Hc]|[Hb ->]].
    + destruct b; cbn [negb].
      * destruct (incr32 (self_ it)) as [s|] eqn:Hs; [|done].
        apply incr32_Ok in Hs as [_ ->]; [|lia].
        cbn [mbind outcome_bind]. intros [= <- <- <-].
        split_and!; [by exists ns1|simpl; lia|lia].
      * intros [= <- <- <-]. split_and!; [by exists ns1|lia|lia].
    + injection Hb as ->. cbn [negb]. intros [= <- <- <-].
      split_and!; [done|lia|lia].
  - intros ok l' it'. unfold it_remove.
    case_decide as Hf; [intros [= <- <- <-]; split_and!; [done|lia|lia]|].
    case_decide; [intros [= <- <- <-]; split_and!; [done|lia|lia]|].
    destruct (deref (heap_ l) (curs_ it)); [|done].
    cbn [mbind outcome_bind].
    destruct (remove (rindex_ it) l) as [[b l1]|] eqn:E; [|done].
    cbn [mbind outcome_bind fst snd].
    assert (exec (ORemove (rindex_ it)) l = Ok (RBool b, l1)) as He
      by (cbn [exec]; unfold ret_bool; by rewrite E).
    assert (op_alloc_okb (ORemove (rindex_ it)) l = true) as Hpb by done.
    destruct (exec_Rep _ _ _ _ _ HR Hpb He) as (ns1 & HR1 & Hle1).
    destruct (proj1 (count_step l ns _ _ _ HR Hpb He) eq_refl)
      as [[_ Hc]|[Hb ->]].
    + destruct b; cbn [negb].
      * destruct (incr32 (self_ it)) as [s|] eqn:Hs; [|done].
        apply incr32_Ok in Hs as [_ ->]; [|lia].
        cbn [mbind outcome_bind]. intros [= <- <- <-].
        split_and!; [by exists ns1|simpl; lia|lia].
      * intros [= <- <- <-]. split_and!; [by exists ns1|lia|lia].
    + injection Hb as ->. cbn [negb]. intros [= <- <- <-].
      split_and!; [done|lia|lia].
  - intros x it'. unfold getNext. destruct (hasNext l it); cbn [negb].
    + destruct (deref (heap_ l) (curs_ it)); [|done].
      cbn [mbind outcome_bind]. by intros [= _ <-].
    + by intros [= _ <-].
  - intros x it'. unfold getPrevious.
    destruct (hasPrevious l it) as [[|]|]; [| |done];
      cbn [mbind outcome_bind negb].
    + destruct (match curs_ it with
                | Some a => _
                | None => _
                end) as [c|]; [|done].
      cbn [mbind outcome_bind].
      destruct (deref (heap_ l) c); [|done].
      cbn [mbind outcome_bind]. by intros [= _ <-].
    + by intros [= _ <-].
Qed.

End Cursors.

(** ** The scenarios of the specification, on lists of integers *)

Module Scenarios.

Import Examples.

Ltac rep_compute :=
  split;
  [ vm_compute; reflexivity
  | reflexivity
  | apply (bool_decide_unpack _); vm_compute; exact I
  | vm_compute; discriminate
  | discriminate
  | vm_compute; split; discriminate ].

Lemma Rep_empty_list : Rep empty [].
Proof. rep_compute. Defined.

Lemma Rep_unconstructed : Rep unconstructed [].
Proof.
  split;
    [ reflexivity | reflexivity
    | apply (bool_decide_unpack _); vm_compute; exact I
    | vm_compute; discriminate | reflexivity
    | vm_compute; split; discriminate ].
Defined.

Lemma Rep_list_15_20 : Rep list_15_20 ring_15_20.
Proof. rep_compute. Defined.

Lemma Rep_list_10_20_10 : Rep list_10_20_10 ring_10_20_10.
Proof. rep_compute. Defined.

Ltac fresh_addr :=
  simpl; rewrite ?elem_of_cons, elem_of_nil; intuition congruence.

Ltac distinct :=
  repeat (apply NoDup_cons_2; [fresh_addr|]); apply NoDup_nil_2.

(** C1. From the empty list, [add(10)], [add(20)], [add(1, 15)], whatever
    the addresses of the three nodes, give the sequence [10, 15, 20] with
    [getLength() == 3] and [getIndexOf(20) == 2]; then [remove(0)] gives
    [15, 20] with [getLength() == 2] and [getFirst() == 15]. *)
Theorem add_add_insert_remove (illegal : Z) (a1 a2 a3 : positive) :
  a1 <> a2 -> a1 <> a3 -> a2 <> a3 ->
  let l3 := ring_list true illegal 3 [(a1, 10); (a3, 15); (a2, 20)] in
  let l4 := ring_list true illegal 4 [(a3, 15); (a2, 20)] in
  run [OAdd (Some a1) 10; OAdd (Some a2) 20; OAddAt (Some a3) 1 15]
      (List_new true illegal)
  = Ok ([RBool true; RBool true; RBool true], l3) /\
  observe l3 3 = [Ok 10; Ok 15; Ok 20] /\
  getLength l3 = Ok 3 /\
  getIndexOf l3 20 = Ok 2 /\
  remove 0 l3 = Ok (true, l4) /\
  observe l4 2 = [Ok 15; Ok 20] /\
  getLength l4 = Ok 2 /\
  getFirst l4 = Ok 15.
Proof.
  intros H12 H13 H23 l3 l4.
  set (l0 := List_new true illegal).
  set (l1 := ring_list true illegal 1 [(a1, 10)]).
  set (l2 := ring_list true illegal 2 [(a1, 10); (a2, 20)]).
  assert (forall c (ns : list (positive * Z)),
            NoDup ns.*1 -> (length ns <= 3)%nat -> 0 <= c <= 4 ->
            Rep (ring_list true illegal c ns) ns) as HRep.
  { intros c ns Hnd Hlen Hc.
    apply Rep_ring_list; unfold INT32_MAX; try done; lia. }
  assert (Rep l0 []) as HR0 by apply Rep_empty.
  assert (Rep l1 [(a1, 10)]) as HR1.
  { apply HRep; simpl; try lia. distinct. }
  assert (Rep l2 [(a1, 10); (a2, 20)]) as HR2.
  { apply HRep; simpl; try lia. distinct. }
  assert (Rep l3 [(a1, 10); (a3, 15); (a2, 20)]) as HR3.
  { apply HRep; simpl; try lia. distinct. }
  assert (Rep l4 [(a3, 15); (a2, 20)]) as HR4.
  { apply HRep; simpl; try lia. distinct. }
  assert (add (Some a1) 10 l0 = Ok (true, l1)) as E1.
  { rewrite (add_rep _ _ _ _ HR0); [done|].
    apply (alloc_ok_ring _ [] _ HR0); [fresh_addr|done]. }
  assert (add (Some a2) 20 l1 = Ok (true, l2)) as E2.
  { rewrite (add_rep _ _ _ _ HR1); [done|].
    apply (alloc_ok_ring _ _ _ HR1); [fresh_addr|done]. }
  assert (add_at (Some a3) 1 15 l2 = Ok (true, l3)) as E3.
  { rewrite (add_at_rep _ _ _ _ _ HR2); [done|].
    apply (alloc_ok_ring _ _ _ HR2); [fresh_addr|done]. }
  assert (constructed_ l3 = true /\ illegal_ l3 = illegal /\ count_ l3 = 3)
    as (Hc3 & Hi3 & Hn3) by done.
  assert (ring_list true illegal 4 [(a3, 15); (a2, 20)] = l4) as E4 by done.
  clearbody l0 l1 l2 l3 l4. split_and!.
  - apply (run_cons _ _ _ _ l1); [by (cbn [exec]; rewrite E1)|].
    apply (run_cons _ _ _ _ l2); [by (cbn [exec]; rewrite E2)|].
    apply (run_cons _ _ _ _ l3); [by (cbn [exec]; rewrite E3)|done].
  - unfold observe. cbn [fmap list_fmap seq].
    by rewrite !(get_rep _ _ _ HR3).
  - by rewrite (getLength_ring _ _ (Rep_Ring _ _ HR3)).
  - rewrite (getIndexOf_rep _ _ _ HR3). vm_compute. reflexivity.
  - rewrite (remove_rep _ _ _ HR3), Hc3, Hi3, Hn3, <- E4. reflexivity.
  - unfold observe. cbn [fmap list_fmap seq].
    by rewrite !(get_rep _ _ _ HR4).
  - by rewrite (getLength_ring _ _ (Rep_Ring _ _ HR4)).
  - unfold getFirst. by rewrite (get_rep _ _ _ HR4).
Qed.

Lemma add_add_insert_remove_witness :
  (1 <> 2 /\ 1 <> 3 /\ 2 <> 3)%positive /\
  run three_adds empty
  = Ok ([RBool true; RBool true; RBool true], list_10_15_20) /\
  observe list_10_15_20 3 = [Ok 10; Ok 15; Ok 20] /\
  getLength list_10_15_20 = Ok 3 /\
  getIndexOf list_10_15_20 20 = Ok 2 /\
  remove 0 list_10_15_20 = Ok (true, list_15_20) /\
  observe list_15_20 2 = [Ok 15; Ok 20] /\
  getLength list_15_20 = Ok 2 /\
  getFirst list_15_20 = Ok 15.
Proof.
  assert (1 <> 2)%positive as H12 by discriminate.
  assert (1 <> 3)%positive as H13 by discriminate.
  assert (2 <> 3)%positive as H23 by discriminate.
  split; [by split_and!|].
  exact (add_add_insert_remove (-1) 1 2 3 H12 H13 H23).
Defined.

Lemma getLength_adds_minus_removes_witness :
  Forall (fun o => is_add o || is_remove o = true) four_calls /\
  allocs_okb four_calls empty = true /\
  run four_calls empty = Ok (four_true, list_15_20) /\
  getLength list_15_20
  = Ok (count_true is_add four_calls four_true
        - count_true is_remove four_calls four_true).
Proof.
  assert (Forall (fun o : Op Z => is_add o || is_remove o = true) four_calls)
    as Hm by (repeat constructor).
  assert (allocs_okb four_calls empty = true) as Ha
    by (vm_compute; reflexivity).
  assert (run four_calls empty = Ok (four_true, list_15_20)) as Hr
    by (vm_compute; reflexivity).
  split; [exact Hm|]. split; [exact Ha|]. split; [exact Hr|].
  exact (proj2 (getLength_adds_minus_removes (-1) four_calls Hm Ha) _ _ Hr).
Defined.

Lemma read_accessors_total_witness :
  Rep list_15_20 ring_15_20 /\
  (exists x, elements ring_15_20 !! Z.to_nat 1 = Some x /\
             get list_15_20 1 = Ok x) /\
  get list_15_20 2 = Ok (illegal_ list_15_20) /\
  getLast list_15_20 = get list_15_20 (Z.of_nat (length ring_15_20) - 1).
Proof.
  split; [exact Rep_list_15_20|].
  destruct (read_accessors_total list_15_20 ring_15_20 Rep_list_15_20)
    as (Hin & Hout & _ & _ & _ & Hlast & _).
  split; [apply Hin; simpl; lia|]. split; [apply Hout; simpl; lia|].
  exact Hlast.
Defined.

(** C6 as it was stated fails on a list that is not constructed:
    [add(0, 5)] returns [false] although [0] is in [[0, getLength()]] and the
    allocator has given a node. *)
Lemma add_at_unconstructed_false :
  Rep unconstructed [] /\
  alloc_ok unconstructed (Some 1%positive) /\
  getLength unconstructed = Ok 0 /\
  add_at (Some 1%positive) 0 5 unconstructed = Ok (false, unconstructed) /\
  ~ (0 < 0 \/ 0 > 0 \/ Some 1%positive = @None positive).
Proof.
  split; [exact Rep_unconstructed|].
  split; [split; [reflexivity|vm_compute; reflexivity]|].
  split; [reflexivity|]. split; [reflexivity|].
  intros [H|[H|H]]; [lia|lia|discriminate].
Qed.

Lemma add_at_fails_exactly_witness :
  Rep list_15_20 ring_15_20 /\
  alloc_ok list_15_20 (Some 7%positive) /\
  exists l', add_at (Some 7%positive) 1 17 list_15_20 = Ok (true, l') /\
    Rep l' (insert_at (Z.to_nat 1) (7%positive, 17) ring_15_20) /\
    (ring_15_20 = [] -> last_ l' = Some 7%positive).
Proof.
  assert (alloc_ok list_15_20 (Some 7%positive)) as Hp
    by (split; [reflexivity|vm_compute; reflexivity]).
  split; [exact Rep_list_15_20|]. split; [exact Hp|].
  destruct (add_at_fails_exactly list_15_20 ring_15_20 (Some 7%positive) 1 17
              Rep_list_15_20 Hp) as (_ & _ & Hok).
  apply Hok; [reflexivity|simpl; lia|vm_compute; reflexivity|reflexivity].
Defined.

Lemma removeElement_first_witness :
  Rep list_10_20_10 ring_10_20_10 /\
  10 ∈ elements ring_10_20_10 /\
  exists k, elements ring_10_20_10 !! k = Some 10 /\
    (forall j, (j < k)%nat -> elements ring_10_20_10 !! j <> Some 10) /\
    (count_ list_10_20_10 < INT32_MAX ->
     exists l', removeElement 10 list_10_20_10 = Ok (true, l') /\
       Rep l' (delete k ring_10_20_10) /\
       elements (delete k ring_10_20_10)
       = delete k (elements ring_10_20_10)).
Proof.
  assert (10 ∈ elements ring_10_20_10) as Hin by (simpl; left).
  split; [exact Rep_list_10_20_10|]. split; [exact Hin|].
  exact (proj1 (removeElement_first list_10_20_10 ring_10_20_10 10
                  Rep_list_10_20_10) Hin).
Defined.

Lemma count_changes_witness :
  Rep list_15_20 ring_15_20 /\ count_ list_15_20 < INT32_MAX /\
  alloc_ok list_15_20 (Some 7%positive) /\
  (exists l', addNode (Some 7%positive) 1 17 list_15_20 = Ok (true, l') /\
     count_ l' = count_ list_15_20 + 1) /\
  (exists l', removeNode (Some 3%positive) list_15_20 = Ok (true, l') /\
     count_ l' = count_ list_15_20 + 1) /\
  (exists l', exec (ORemoveLast) list_15_20 = Ok (RBool true, l') /\
     count_ l' = count_ list_15_20 + 1) /\
  addNode (Some 7%positive) 3 17 list_15_20 = Ok (false, list_15_20) /\
  removeNode None list_15_20 = Ok (false, list_15_20) /\
  exec (ORemove 2) list_15_20 = Ok (RBool false, list_15_20) /\
  (exists r, exec (OGet 0) list_15_20 = Ok (r, list_15_20)) /\
  (exists l', addNode (Some 1%positive) 0 10 empty = Ok (true, l') /\
     count_ l' = count_ empty + 1) /\
  (exists rs l',
     run [OAdd (Some 7%positive) 17; ORemove 0; OClear] list_15_20
     = Ok (rs, l') /\ count_ list_15_20 <= count_ l').
Proof.
  assert (count_ list_15_20 < INT32_MAX) as Hlt by (vm_compute; reflexivity).
  assert (count_ empty < INT32_MAX) as Hlt0 by (vm_compute; reflexivity).
  assert (alloc_ok list_15_20 (Some 7%positive)) as Hp
    by (split; [reflexivity|vm_compute; reflexivity]).
  assert (alloc_ok empty (Some 1%positive)) as Hp0
    by (split; [reflexivity|vm_compute; reflexivity]).
  destruct (count_changes list_15_20 ring_15_20 Rep_list_15_20)
    as (_ & _ & Hbelow & Hread & Hrun & _).
  destruct (Hbelow Hlt) as (Hadd & Hrem & Hexec).
  destruct (count_changes empty [] Rep_empty_list) as (_ & _ & Hbelow0 & _).
  destruct (Hbelow0 Hlt0) as (Hadd0 & _).
  split; [exact Rep_list_15_20|]. split; [exact Hlt|]. split; [exact Hp|].
  split.
  { destruct (Hadd (Some 7%positive) 1 17 Hp) as ([|] & l' & E & Hiff & Hc).
    - exists l'. split; [exact E | exact Hc].
    - exfalso. assert (false = true) as Hft; [|discriminate Hft].
      apply Hiff. split; [discriminate|simpl; lia]. }
  split.
  { destruct (Hrem (Some 3%positive)) as ([|] & l' & E & Hiff & Hc).
    - intros a [= <-]. simpl. left.
    - exists l'. split; [exact E | exact Hc].
    - exfalso. assert (false = true) as Hft; [|discriminate Hft].
      apply Hiff. discriminate. }
  split.
  { destruct (Hexec ORemoveLast eq_refl eq_refl)
      as ([|] & l' & E & Hiff & Hc).
    - exists l'. split; [exact E | exact Hc].
    - exfalso. assert (false = true) as Hft; [|discriminate Hft].
      apply Hiff. simpl. eexists. reflexivity. }
  split.
  { destruct (Hadd (Some 7%positive) 3 17 Hp) as ([|] & l' & E & Hiff & Hc).
    - exfalso. destruct (proj1 Hiff eq_refl) as [_ Hin]. simpl in Hin. lia.
    - rewrite E, Hc. reflexivity. }
  split.
  { destruct (Hrem None) as ([|] & l' & E & Hiff & Hc).
    - intros a Ha. discriminate Ha.
    - exfalso. exact (proj1 Hiff eq_refl eq_refl).
    - rewrite E, Hc. reflexivity. }
  split.
  { destruct (Hexec (ORemove 2) eq_refl eq_refl)
      as ([|] & l' & E & Hiff & Hc).
    - exfalso. destruct (proj1 Hiff eq_refl) as [ns' Hn].
      simpl in Hn. discriminate Hn.
    - rewrite E, Hc. reflexivity. }
  split; [exact (Hread (OGet 0) eq_refl)|]. split.
  { destruct (Hadd0 (Some 1%positive) 0 10 Hp0) as ([|] & l' & E & Hiff & Hc).
    - exists l'. split; [exact E | exact Hc].
    - exfalso. assert (false = true) as Hft; [|discriminate Hft].
      apply Hiff. split; [discriminate|simpl; lia]. }
  apply Hrun; [vm_compute; reflexivity | vm_compute; discriminate].
Defined.

(** C10 as it was stated fails where the counter is full: the list [[10]]
    that has counted [INT32_MAX] changes is a state the list can reach, its
    [remove(0)] and its [add(20)] would succeed, and [count_++] of either
    overflows the [int32]: neither call leaves [count_ + 1]. *)
Lemma count_overflows_at_int32_max :
  reachable Samples.list_at_max /\
  count_ Samples.list_at_max = INT32_MAX /\
  getLength Samples.list_at_max = Ok 1 /\
  get Samples.list_at_max 0 = Ok 10 /\
  alloc_ok Samples.list_at_max (Some 2%positive) /\
  incr32 (count_ Samples.list_at_max) = Undefined /\
  removeNode (Some 1%positive) Samples.list_at_max = Undefined /\
  addNode (Some 2%positive) 1 20 Samples.list_at_max = Undefined /\
  remove 0 Samples.list_at_max = Undefined /\
  add (Some 2%positive) 20 Samples.list_at_max = Undefined /\
  ~ (exists l', remove 0 Samples.list_at_max = Ok (true, l') /\
       count_ l' = count_ Samples.list_at_max + 1) /\
  ~ (exists l', add (Some 2%positive) 20 Samples.list_at_max
                = Ok (true, l') /\
       count_ l' = count_ Samples.list_at_max + 1) /\
  ~ (exists rs l', run [ORemove 0] Samples.list_at_max = Ok (rs, l') /\
       count_ Samples.list_at_max <= count_ l').
Proof.
  assert (remove 0 Samples.list_at_max = Undefined) as Er
    by (vm_compute; reflexivity).
  assert (add (Some 2%positive) 20 Samples.list_at_max = Undefined) as Ea
    by (vm_compute; reflexivity).
  split.
  { apply (reachable_odd_count (-1) 1%positive 10 1073741823);
      vm_compute; discriminate. }
  split; [reflexivity|]. split; [vm_compute; reflexivity|].
  split; [vm_compute; reflexivity|].
  split; [split; [reflexivity|vm_compute; reflexivity]|].
  split; [vm_compute; reflexivity|].
  split; [vm_compute; reflexivity|]. split; [vm_compute; reflexivity|].
  split; [exact Er|]. split; [exact Ea|].
  split; [|split].
  - intros (l' & E & _). rewrite Er in E. discriminate E.
  - intros (l' & E & _). rewrite Ea in E. discriminate E.
  - intros (rs & l' & E & _). cbn [run exec] in E. rewrite Er in E.
    discriminate E.
Qed.

Lemma stale_iterator_refuses_witness :
  wf empty /\ self_ it_empty <= count_ empty /\
  getListIterator true 0 empty = Ok (Some it_empty) /\
  exec (OAdd (Some 1%positive) 10) empty = Ok (RBool true, list_10) /\
  modifies (OAdd (Some 1%positive) 10) (RBool true) empty list_10 /\
  stale list_10 it_empty /\ refuses list_10 it_empty.
Proof.
  assert (wf empty) as Hwf by (exists []; exact Rep_empty_list).
  assert (self_ it_empty <= count_ empty) as Hle by (simpl; lia).
  assert (exec (OAdd (Some 1%positive) 10) empty = Ok (RBool true, list_10))
    as He by (vm_compute; reflexivity).
  assert (modifies (OAdd (Some 1%positive) 10) (RBool true) empty list_10)
    as Hh by (left; split; reflexivity).
  split; [exact Hwf|]. split; [exact Hle|].
  split; [vm_compute; reflexivity|]. split; [exact He|]. split; [exact Hh|].
  destruct (stale_iterator_refuses empty it_empty (OAdd (Some 1%positive) 10)
              (RBool true) list_10 [] [] list_10 Hwf Hle eq_refl He Hh
              eq_refl eq_refl) as (Hs & Hr & _).
  split; [exact Hs|exact Hr].
Defined.

(** C4. On [[15, 20]], an iterator made at index 1 returns [20] from
    [getNext()]; its cursor is then null and [remove()], which should remove
    the element at index 1, reads the index of the node under the cursor: the
    call has no defined result. *)
Theorem it_remove_after_last_element :
  getListIterator true 1 list_15_20 = Ok (Some it_20) /\
  getNext list_15_20 it_20 = Ok (20, it_20_end) /\
  rindex_ it_20_end = 1 /\
  fresh_it list_15_20 it_20_end /\
  it_remove list_15_20 it_20_end = Undefined.
Proof. repeat split; vm_compute; reflexivity. Qed.

(** C8. On [[15, 20]], for an iterator made at index 2, past the last
    element, [getNextIndex()] is the length, and [getPreviousIndex()], which
    should be 1, has no defined result, as [getPrevious()] and
    [hasPrevious()]. *)
Theorem getPreviousIndex_past_the_end :
  getListIterator true 2 list_15_20 = Ok (Some it_past) /\
  fresh_it list_15_20 it_past /\
  getNextIndex list_15_20 it_past = Ok 2 /\
  getPreviousIndex list_15_20 it_past = Undefined /\
  getPrevious list_15_20 it_past = Undefined /\
  hasPrevious list_15_20 it_past = Undefined.
Proof. repeat split; vm_compute; reflexivity. Qed.

(** C9. On the list [[10]], reached by one [add], the iterator made at index
    0 has a null cursor once [getNext()] has returned the only element; then
    [hasPrevious()] and [remove()] dereference the null cursor. *)
Theorem null_cursor_dereferenced :
  run [OAdd (Some 1%positive) 10] empty = Ok ([RBool true], list_10) /\
  getListIterator true 0 list_10 = Ok (Some it_10_start) /\
  getNext list_10 it_10_start = Ok (10, it_10_end) /\
  curs_ it_10_end = None /\
  deref (heap_ list_10) (curs_ it_10_end) = Undefined /\
  hasPrevious list_10 it_10_end = Undefined /\
  it_remove list_10 it_10_end = Undefined.
Proof. repeat split; vm_compute; reflexivity. Qed.

End Scenarios.
(** ** What a caller of the list can rely on *)

Section ListUse.

Context {T : Type} `{EqDecision T}.
Implicit Types (ns : list (positive * T)) (l : List T) (a b : positive).

Lemma element_at_lookup (illegal : T) (xs : list T) i x :
  xs !! i = Some x -> element_at illegal xs (Z.of_nat i) = x.
Proof.
  intros Hi. unfold element_at. rewrite decide_True by lia.
  by rewrite Nat2Z.id, Hi.
Qed.

Lemma element_at_outside (illegal : T) (xs : list T) index :
  ~ 0 <= index < Z.of_nat (length xs) -> element_at illegal xs index = illegal.
Proof.
  intros Hout. unfold element_at. case_decide; [|done].
  rewrite lookup_ge_None_2; [done|lia].
Qed.

Lemma element_at_delete (illegal : T) (xs : list T) k index :
  (k < length xs)%nat ->
  element_at illegal (delete k xs) index
  = if decide (index < Z.of_nat k) then element_at illegal xs index
    else element_at illegal xs (index + 1).
Proof.
  intros Hk. unfold element_at.
  destruct (decide (0 <= index)) as [H0|H0].
  - case_decide.
    + by rewrite list_lookup_delete_lt by lia.
    + rewrite decide_True by lia.
      rewrite list_lookup_delete_ge by lia.
      by replace (Z.to_nat (index + 1)) with (S (Z.to_nat index)) by lia.
  - by rewrite decide_True by lia.
Qed.

Lemma element_at_insert_at (illegal : T) (xs : list T) k y index :
  (k <= length xs)%nat ->
  element_at illegal (insert_at k y xs) index
  = if decide (index < Z.of_nat k) then element_at illegal xs index
    else if decide (index = Z.of_nat k) then y
    else element_at illegal xs (index - 1).
Proof.
  intros Hk. unfold element_at.
  destruct (decide (0 <= index)) as [H0|H0].
  - rewrite (lookup_insert_at _ _ _ _ Hk).
    destruct (decide (index < Z.of_nat k)).
    + by rewrite decide_True by lia.
    + rewrite decide_False by lia.
      destruct (decide (index = Z.of_nat k)).
      * by rewrite decide_True by lia.
      * rewrite decide_False by lia. rewrite decide_True by lia.
        by replace (Z.to_nat (index - 1)) with (pred (Z.to_nat index)) by lia.
  - by rewrite decide_True by lia.
Qed.

Lemma delete_insert_at {A} (k : nat) (y : A) (xs : list A) :
  (k <= length xs)%nat -> delete k (insert_at k y xs) = xs.
Proof.
  intros Hk. unfold insert_at.
  rewrite <- (take_drop k xs) at 3.
  assert (length (take k xs) = k) as Hl by (rewrite length_take; lia).
  rewrite <- Hl at 1. clear Hl.
  induction (take k xs) as [|z zs IH]; [done|]. simpl. by rewrite IH.
Qed.

Lemma elements_delete k ns : elements (delete k ns) = delete k (elements ns).
Proof. unfold elements. by rewrite list_fmap_delete. Qed.

Lemma elements_insert_at k a (x : T) ns :
  elements (insert_at k (a, x) ns) = insert_at k x (elements ns).
Proof. unfold elements. by rewrite fmap_insert_at. Qed.

Lemma length_elements ns : length (elements ns) = length ns.
Proof. unfold elements. by rewrite length_fmap. Qed.

(** The state after a successful removal is the ring without the node. *)
Lemma Rep_delete l ns k c :
  Rep l ns -> (k < length ns)%nat -> 0 <= c <= INT32_MAX ->
  Rep (ring_list (constructed_ l) (illegal_ l) c (delete k ns)) (delete k ns).
Proof.
  intros HR Hk Hc. apply Rep_ring_list; [|  | |done].
  - apply NoDup_delete_ring, HR.
  - pose proof (rep_size _ _ HR).
    rewrite length_delete by (apply lookup_lt_is_Some_2; lia). lia.
  - intros Hf. rewrite (rep_constructed _ _ HR Hf) in Hk. simpl in Hk. lia.
Qed.

(** X1. [clear()] leaves an empty list and no node behind: the length is
    0, every [get] answers the illegal value, which is kept, and the number
    of changes has grown by the number of elements removed. *)
Theorem clear_frees_every_node l ns :
  Rep l ns -> count_ l + Z.of_nat (length ns) <= INT32_MAX ->
  exists l', clear l = Ok l' /\
    heap_ l' = ∅ /\ last_ l' = None /\
    getLength l' = Ok 0 /\ isEmpty l' = true /\
    (forall i, get l' i = Ok (illegal_ l)) /\
    count_ l' = count_ l + Z.of_nat (length ns) /\
    wf l'.
Proof.
  intros HR Hc. rewrite (clear_rep _ _ HR), decide_True by done.
  eexists. split; [reflexivity|].
  assert (Rep (ring_list (constructed_ l) (illegal_ l)
                 (count_ l + Z.of_nat (length ns)) []) []) as HR'.
  { apply Rep_ring_list; try done; [constructor|].
    pose proof (rep_count _ _ HR). lia. }
  split_and!; try done.
  - intros i. rewrite (get_rep _ _ _ HR'). unfold element_at.
    by case_decide.
  - by exists [].
Qed.

(** X2. [remove(index)] returns [false] and changes nothing when [index] is
    outside [[0, getLength())]; inside, it returns [true], the length drops
    by one, the elements before [index] stay where they are and those after
    it move one position down. *)
Theorem remove_shifts_down l ns index :
  Rep l ns -> count_ l < INT32_MAX ->
  (~ 0 <= index < Z.of_nat (length ns) -> remove index l = Ok (false, l)) /\
  (0 <= index < Z.of_nat (length ns) ->
   exists l', remove index l = Ok (true, l') /\
     wf l' /\
     getLength l' = Ok (Z.of_nat (length ns) - 1) /\
     (forall j, j < index -> get l' j = get l j) /\
     (forall j, index <= j -> get l' j = get l (j + 1))).
Proof.
  intros HR Hc. rewrite (remove_rep _ _ _ HR).
  pose proof (rep_count _ _ HR) as Hc0. split.
  - intros Hout. by rewrite decide_False.
  - intros Hin. rewrite decide_True by done.
    rewrite (incr32_lt (count_ l)) by lia.
    eexists. split; [reflexivity|].
    assert (Z.to_nat index < length ns)%nat as Hk by lia.
    pose proof (Rep_delete l ns _ (count_ l + 1) HR Hk ltac:(lia)) as HR'.
    split; [by eexists|]. split.
    { rewrite (getLength_ring _ _ (Rep_Ring _ _ HR')).
      rewrite length_delete by (apply lookup_lt_is_Some_2; lia).
      f_equal. lia. }
    split; intros j Hj; rewrite (get_rep _ _ _ HR'), (get_rep _ _ _ HR);
      f_equal; rewrite elements_delete, element_at_delete
        by (rewrite length_elements; lia); cbn [illegal_ ring_list].
    + by rewrite decide_True by lia.
    + by rewrite decide_False by lia.
Qed.

(** The state after a successful insertion is the ring with the new node. *)
Lemma Rep_insert_at l ns k a x c :
  Rep l ns -> alloc_ok l (Some a) -> constructed_ l = true ->
  (k <= length ns)%nat -> 0 <= c <= INT32_MAX ->
  Rep (ring_list (constructed_ l) (illegal_ l) c (insert_at k (a, x) ns))
      (insert_at k (a, x) ns).
Proof.
  intros HR [Hf Hs] Hc Hk Hcc. apply Rep_ring_list; [| | |done].
  - rewrite fmap_insert_at. apply NoDup_insert_at; [apply HR|].
    by apply (Rep_fresh l).
  - rewrite length_insert_at. rewrite (Rep_size _ _ HR) in Hs. lia.
  - by rewrite Hc.
Qed.

(** X3. [add(index, element)] followed by [remove(index)] gives the list
    back: between the two calls [get(index)] is the element, and afterwards
    the nodes, their links and the tail are what they were, the number of
    changes being two more. *)
Theorem add_at_then_remove l ns a index x :
  Rep l ns -> alloc_ok l (Some a) -> constructed_ l = true ->
  0 <= index <= Z.of_nat (length ns) -> count_ l + 2 <= INT32_MAX ->
  exists l1 l2,
    add_at (Some a) index x l = Ok (true, l1) /\
    get l1 index = Ok x /\
    remove index l1 = Ok (true, l2) /\
    heap_ l2 = heap_ l /\ last_ l2 = last_ l /\ illegal_ l2 = illegal_ l /\
    constructed_ l2 = constructed_ l /\ count_ l2 = count_ l + 2.
Proof.
  intros HR Ha Hc Hin Hcnt. pose proof (rep_count _ _ HR) as Hc0.
  rewrite (add_at_rep _ _ _ _ _ HR Ha), decide_True by done.
  rewrite (incr32_lt (count_ l)) by lia.
  cbn [mbind outcome_bind].
  assert (Z.to_nat index <= length ns)%nat as Hk by lia.
  pose proof (Rep_insert_at l ns _ a x (count_ l + 1) HR Ha Hc Hk
                ltac:(lia)) as HR1.
  set (ns1 := insert_at (Z.to_nat index) (a, x) ns) in *.
  set (l1 := ring_list (constructed_ l) (illegal_ l) (count_ l + 1) ns1) in *.
  assert (length ns1 = S (length ns)) as Hlen by apply length_insert_at.
  exists l1. rewrite (remove_rep _ _ _ HR1), decide_True by lia.
  assert (count_ l1 = count_ l + 1) as -> by done.
  rewrite (incr32_lt (count_ l + 1)) by lia.
  cbn [mbind outcome_bind]. eexists. split; [done|]. split.
  { rewrite (get_rep _ _ _ HR1). f_equal. unfold ns1.
    rewrite elements_insert_at, element_at_insert_at
      by (rewrite length_elements; lia).
    rewrite decide_False by lia. by rewrite decide_True by lia. }
  split; [reflexivity|]. unfold ns1. rewrite (delete_insert_at _ _ _ Hk).
  split_and!; try done.
  - symmetry. apply HR.
  - symmetry. apply HR.
  - cbn. lia.
Qed.

(** X4. When [add(index, element)] returns [true], the length is one more,
    [get(index)] is the element, the elements before [index] stay where they
    are and those from [index] on are found one position up. *)
Theorem get_after_add_at l ns p index x l' :
  Rep l ns -> alloc_ok l p -> add_at p index x l = Ok (true, l') ->
  getLength l' = Ok (Z.of_nat (length ns) + 1) /\
  get l' index = Ok x /\
  (forall j, j < index -> get l' j = get l j) /\
  (forall j, index < j -> get l' j = get l (j - 1)).
Proof.
  intros HR Ha Hadd. pose proof (rep_count _ _ HR) as Hc0.
  rewrite (add_at_rep _ _ _ _ _ HR Ha) in Hadd.
  case_decide as Hin; [|done]. destruct Hin as [Hc Hin].
  destruct p as [a|]; [|done].
  destruct (incr32 (count_ l)) as [c|] eqn:Hi; [|done].
  apply incr32_Ok in Hi as [Hlt ->]; [|lia].
  cbn [mbind outcome_bind] in Hadd. injection Hadd as <-.
  assert (Z.to_nat index <= length ns)%nat as Hk by lia.
  pose proof (Rep_insert_at l ns _ a x (count_ l + 1) HR Ha Hc Hk
                ltac:(lia)) as HR1.
  split.
  { rewrite (getLength_ring _ _ (Rep_Ring _ _ HR1)), length_insert_at.
    f_equal. lia. }
  split_and!; [|intros j Hj..];
    rewrite (get_rep _ _ _ HR1), ?(get_rep _ _ _ HR); f_equal;
    rewrite elements_insert_at, element_at_insert_at
      by (rewrite length_elements; lia); cbn [illegal_ ring_list].
  - rewrite decide_False by lia. by rewrite decide_True by lia.
  - by rewrite decide_True by lia.
  - rewrite decide_False by lia. by rewrite decide_False by lia.
Qed.

(** X5. [getIndexOf(element)] is [-1] exactly when no position holds the
    element; otherwise it is the least index at which [get] returns it. *)
Theorem getIndexOf_least l ns x :
  Rep l ns ->
  exists i, getIndexOf l x = Ok i /\
    (x ∉ elements ns -> i = -1) /\
    (x ∈ elements ns ->
       0 <= i < Z.of_nat (length ns) /\ get l i = Ok x /\
       forall j, 0 <= j < i -> get l j <> Ok x).
Proof.
  intros HR. rewrite (getIndexOf_rep _ _ _ HR).
  destruct (find_node x ns) as [[k [a y]]|] eqn:Hf.
  - apply find_node_Some in Hf as (Hk & -> & Hmin).
    exists (Z.of_nat k). split; [done|]. split.
    { intros Hn. exfalso. apply Hn. unfold elements.
      apply list_elem_of_fmap. exists (a, x). split; [done|].
      by eapply list_elem_of_lookup_2. }
    intros _. pose proof (lookup_lt_Some _ _ _ Hk). split; [lia|]. split.
    + rewrite (get_rep _ _ _ HR). f_equal. apply element_at_lookup.
      unfold elements. by rewrite list_lookup_fmap, Hk.
    + intros j Hj. rewrite (get_rep _ _ _ HR). intros [= He].
      apply (Hmin (Z.to_nat j)); [lia|].
      unfold element_at in He. rewrite decide_True in He by lia.
      destruct (elements ns !! Z.to_nat j) as [z|] eqn:Hz.
      * simpl in He. by subst.
      * apply lookup_ge_None in Hz. rewrite length_elements in Hz. lia.
  - apply find_node_None in Hf. exists (-1). split; [done|].
    split; [done|]. intros Hin. by destruct Hf.
Qed.

(** X6. In every state the list can reach, the nodes alive are the elements
    of the list, each once: [getLength()] is the number of nodes allocated
    and not freed, it is between 0 and the largest [int32], [isEmpty()] and
    [isIndex(i)] agree with it, and a list that is not constructed never
    holds an element. *)
Theorem reachable_nodes_are_the_elements l :
  reachable l ->
  exists n, getLength l = Ok n /\
    n = Z.of_nat (size (heap_ l)) /\ 0 <= n <= INT32_MAX /\
    (isEmpty l = true <-> n = 0) /\
    (forall i, isIndex l i = Ok (bool_decide (0 <= i < n))) /\
    (constructed_ l = false -> n = 0).
Proof.
  intros Hr. destruct (reachable_wf _ Hr) as [ns HR].
  exists (Z.of_nat (length ns)).
  split; [apply getLength_ring, Rep_Ring, HR|].
  split; [by rewrite (Rep_size _ _ HR)|].
  split; [pose proof (rep_size _ _ HR); lia|]. split.
  { unfold isEmpty. rewrite (rep_last _ _ HR).
    destruct ns as [|n0 ns] using rev_ind; [done|].
    rewrite fmap_app, length_app. simpl. rewrite last_snoc.
    split; [done|lia]. }
  split; [intros i; apply isIndex_ring, Rep_Ring, HR|].
  intros Hc. by rewrite (rep_constructed _ _ HR Hc).
Qed.

(** X7. On a constructed list [setIllegal(value)] replaces the illegal value
    and nothing else: [getIllegal()] is [value], [isIllegal(w)] holds exactly
    for [w = value], the elements and the number of changes are kept, every
    [get] outside the bounds answers the new value, and so does [getNext()]
    of an iterator that has no next element, also when the value was set
    through the iterator. On a list that is not constructed [setIllegal]
    does nothing and [isIllegal] is false for every value, the illegal one
    included. *)
Theorem setIllegal_replaces_the_error_value l ns v :
  Rep l ns ->
  (constructed_ l = true ->
     getIllegal (setIllegal v l) = v /\
     (forall w, isIllegal (setIllegal v l) w = bool_decide (v = w)) /\
     Rep (setIllegal v l) ns /\ count_ (setIllegal v l) = count_ l /\
     (forall i, 0 <= i < Z.of_nat (length ns) ->
        get (setIllegal v l) i = get l i) /\
     (forall i, ~ 0 <= i < Z.of_nat (length ns) ->
        get (setIllegal v l) i = Ok v) /\
     (forall it, hasNext l it = false ->
        getNext (it_setIllegal v l it) it = Ok (v, it) /\
        it_getIllegal (it_setIllegal v l it) it = v)) /\
  (constructed_ l = false ->
     setIllegal v l = l /\ forall w, isIllegal l w = false).
Proof.
  intros HR. pose proof (Rep_setIllegal _ _ v HR) as HR'. split.
  - intros Hc.
    assert (setIllegal v l
            = mkList (constructed_ l) v (last_ l) (count_ l) (heap_ l)) as E
      by (unfold setIllegal, isConstructed; by rewrite Hc).
    split; [by rewrite E|]. split.
    { intros w. rewrite E. unfold isIllegal, isConstructed. cbn.
      by rewrite Hc. }
    split; [done|]. split; [by rewrite E|]. split.
    { intros i Hi. rewrite (get_rep _ _ _ HR'), (get_rep _ _ _ HR).
      unfold element_at. rewrite !decide_True by lia.
      destruct (elements ns !! Z.to_nat i) eqn:Hl; [done|].
      apply lookup_ge_None in Hl. rewrite length_elements in Hl. lia. }
    split.
    { intros i Hi. rewrite (get_rep _ _ _ HR').
      rewrite element_at_outside by (by rewrite length_elements).
      by rewrite E. }
    intros it Hn. unfold it_setIllegal, it_getIllegal, getIllegal.
    split; [|by rewrite E].
    unfold getNext.
    assert (hasNext (setIllegal v l) it = hasNext l it) as ->
      by (by rewrite E).
    rewrite Hn. by rewrite E.
  - intros Hc. unfold setIllegal, isIllegal, isConstructed. by rewrite Hc.
Qed.

(** X8. At the two ends: on an empty list [removeFirst()], [removeLast()]
    and [remove()] return [false] and change nothing, and [getFirst()],
    [getLast()] and [peek()] answer the illegal value; on a list that begins
    with [x], [getFirst()] and [peek()] are [x] and [removeFirst()] and
    [remove()] leave the rest; on a list that ends with [x], [getLast()] is
    [x] and [removeLast()] leaves what was before it. *)
Theorem remove_at_the_ends l ns :
  Rep l ns -> count_ l < INT32_MAX ->
  (ns = [] ->
     removeFirst l = Ok (false, l) /\ removeLast l = Ok (false, l) /\
     remove_head l = Ok (false, l) /\ getFirst l = Ok (illegal_ l) /\
     getLast l = Ok (illegal_ l) /\ peek l = Ok (illegal_ l)) /\
  (forall a x ns', ns = (a, x) :: ns' ->
     getFirst l = Ok x /\ peek l = Ok x /\
     exists l', removeFirst l = Ok (true, l') /\
       remove_head l = Ok (true, l') /\ Rep l' ns') /\
  (forall a x ns', ns = ns' ++ [(a, x)] ->
     getLast l = Ok x /\
     exists l', removeLast l = Ok (true, l') /\ Rep l' ns').
Proof.
  intros HR Hc. pose proof (rep_count _ _ HR) as Hc0. split_and!.
  - intros ->. unfold remove_head, peek, getFirst.
    rewrite (removeFirst_rep _ _ HR), (removeLast_rep _ _ HR),
      (getLast_rep _ _ HR), (get_rep _ _ _ HR).
    unfold removeFirst in *. rewrite (remove_rep _ _ _ HR). by cbn.
  - intros a x ns' ->. unfold remove_head, peek, getFirst, removeFirst.
    rewrite (get_rep _ _ _ HR), (remove_rep _ _ _ HR).
    rewrite decide_True by (simpl; lia).
    rewrite (incr32_lt (count_ l)) by lia.
    split; [done|]. split; [done|]. eexists. split; [done|].
    split; [done|].
    apply (Rep_delete l _ O (count_ l + 1) HR); [simpl; lia|lia].
  - intros a x ns' ->. rewrite (getLast_rep _ _ HR), (removeLast_rep _ _ HR).
    rewrite decide_False by (by destruct ns').
    rewrite (incr32_lt (count_ l)) by lia. split.
    + f_equal. rewrite length_app. simpl.
      replace (Z.of_nat (length ns' + 1) - 1) with (Z.of_nat (length ns'))
        by lia.
      apply element_at_lookup. unfold elements.
      rewrite fmap_app. rewrite lookup_app_r by (by rewrite length_fmap).
      by rewrite length_fmap, Nat.sub_diag.
    + pose proof (Rep_delete l _ (pred (length (ns' ++ [(a, x)])))
                    (count_ l + 1) HR) as HRd.
      assert (delete (pred (length (ns' ++ [(a, x)]))) (ns' ++ [(a, x)])
              = ns') as E.
      { rewrite length_app. simpl.
        replace (pred (length ns' + 1)) with (length ns') by lia.
        rewrite delete_middle. by rewrite app_nil_r. }
      rewrite E in *. eexists. split; [done|].
      apply HRd; [|lia]. rewrite length_app. simpl. lia.
Qed.

(** Adding the elements of [axs] one after the other appends them. *)
Lemma run_enqueue_all axs l ns :
  Rep l ns -> constructed_ l = true -> NoDup (ns.*1 ++ axs.*1) ->
  Z.of_nat (length ns + length axs) <= INT32_MAX ->
  count_ l + Z.of_nat (length axs) <= INT32_MAX ->
  run (enqueue_all axs) l
  = Ok (replicate (length axs) (RBool true),
        ring_list true (illegal_ l) (count_ l + Z.of_nat (length axs))
          (ns ++ axs)).
Proof.
  revert l ns. induction axs as [|[a x] axs IH]; intros l ns HR Hc Hnd Hl Hn.
  - cbn. rewrite app_nil_r, Z.add_0_r, <- Hc. f_equal. f_equal.
    by apply Rep_eq.
  - pose proof (rep_count _ _ HR) as Hc0. cbn [length] in *.
    assert (a ∉ ns.*1) as Ha.
    { apply NoDup_app in Hnd as (_ & Hd & _). intros Hin.
      apply (Hd _ Hin). left. }
    assert (alloc_ok l (Some a)) as Hal
      by (apply (alloc_ok_ring _ ns); [done..|lia]).
    pose proof (Rep_insert_at l ns (length ns) a x (count_ l + 1) HR Hal Hc
                  ltac:(lia) ltac:(lia)) as HR1.
    rewrite insert_at_length in HR1.
    change (enqueue_all ((a, x) :: axs))
      with (OAdd (Some a) x :: enqueue_all axs).
    cbn [run exec]. unfold ret_bool.
    rewrite (add_rep _ _ _ _ HR Hal), Hc.
    rewrite (incr32_lt (count_ l)) by lia.
    cbn [mbind outcome_bind fst snd]. rewrite Hc in HR1.
    rewrite (IH _ (ns ++ [(a, x)]) HR1); [| done | | |].
    + cbn [mbind outcome_bind fst snd replicate illegal_ count_ ring_list].
      rewrite <- app_assoc. cbn [app].
      by replace (count_ l + 1 + Z.of_nat (length axs))
        with (count_ l + Z.of_nat (S (length axs))) by lia.
    + rewrite fmap_app, <- app_assoc. done.
    + rewrite length_app. simpl. lia.
    + cbn [count_ ring_list]. lia.
Qed.

(** [peek()] and [remove()] in turn return the elements from the head on. *)
Lemma run_dequeue_all ns l :
  Rep l ns -> count_ l + Z.of_nat (length ns) <= INT32_MAX ->
  run (dequeue_all (length ns)) l
  = Ok (dequeued (elements ns),
        ring_list (constructed_ l) (illegal_ l)
          (count_ l + Z.of_nat (length ns)) []).
Proof.
  revert l. induction ns as [|[a x] ns IH]; intros l HR Hn.
  - cbn. rewrite Z.add_0_r. f_equal. f_equal. by apply Rep_eq.
  - pose proof (rep_count _ _ HR) as Hc0. cbn [length] in *.
    pose proof (Rep_delete l _ O (count_ l + 1) HR ltac:(simpl; lia)
                  ltac:(lia)) as HR1.
    cbn [delete list_delete] in HR1.
    cbn [dequeue_all run exec]. unfold peek.
    rewrite (get_rep _ _ _ HR). cbn [mbind outcome_bind fst snd].
    unfold ret_bool, remove_head. rewrite (remove_rep _ _ _ HR).
    rewrite decide_True by (simpl; lia).
    rewrite (incr32_lt (count_ l)) by lia.
    cbn [mbind outcome_bind fst snd Z.to_nat delete list_delete].
    change (delete (Z.to_nat 0) ((a, x) :: ns)) with ns.
    rewrite (IH _ HR1) by (cbn [count_ ring_list]; lia).
    cbn [mbind outcome_bind fst snd illegal_ count_ constructed_ ring_list].
    by replace (count_ l + 1 + Z.of_nat (length ns))
      with (count_ l + Z.of_nat (S (length ns))) by lia.
Qed.

(** X9. The list as a queue is first in, first out: after [add(x)] for each
    [x] of a sequence on a new list, as many rounds of [peek()] and
    [remove()] return the elements in the order they were added, every
    [remove()] returning [true], and leave the list empty with no node
    alive. *)
Theorem queue_first_in_first_out (illegal : T) (axs : list (positive * T)) :
  NoDup axs.*1 -> 2 * Z.of_nat (length axs) <= INT32_MAX ->
  exists l1 l2,
    run (enqueue_all axs) (List_new true illegal)
    = Ok (replicate (length axs) (RBool true), l1) /\
    run (dequeue_all (length axs)) l1 = Ok (dequeued axs.*2, l2) /\
    isEmpty l2 = true /\ heap_ l2 = ∅.
Proof.
  intros Hnd Hlen.
  pose proof (run_enqueue_all axs (List_new true illegal) []
                (Rep_empty true illegal) eq_refl) as He.
  cbn [app fmap list_fmap length illegal_ count_ List_new Nat.add] in He.
  rewrite He; [|done|lia|lia]. clear He.
  eexists _, _. split; [reflexivity|].
  assert (Rep (ring_list true illegal (0 + Z.of_nat (length axs)) axs) axs)
    as HR by (apply Rep_ring_list; [done|lia|done|lia]).
  rewrite (run_dequeue_all _ _ HR) by (cbn [count_ ring_list]; lia).
  split; [reflexivity|]. done.
Qed.

End ListUse.
(** ** Invariants of the states a list can reach *)

Section ListInvariants.

Context {T : Type} `{EqDecision T}.
Implicit Types (ns : list (positive * T)) (l : List T) (a b : positive).

(** X10. In every state the list can reach the nodes form one well-linked
    ring, numbered in order: for a node [n] at address [a], its index is
    between 0 and the number of nodes, [getNodeByIndex] finds [a] at that
    index, the node after it points back to it and has the next index, or
    index 0 when [n] is the tail, the node before it points forward to it,
    and [last_] is the node with the largest index. *)
Theorem reachable_ring_is_well_linked l a (n : Node T) :
  reachable l -> heap_ l !! a = Some n ->
  0 <= index_ n < Z.of_nat (size (heap_ l)) /\
  getNodeByIndex l (index_ n) = Ok (Some a) /\
  (exists m, heap_ l !! next_ n = Some m /\ prev_ m = a /\
     index_ m = if decide (last_ l = Some a) then 0 else index_ n + 1) /\
  (exists m, heap_ l !! prev_ n = Some m /\ next_ m = a) /\
  (last_ l = Some a <-> index_ n = Z.of_nat (size (heap_ l)) - 1).
Proof.
  intros Hr Ha. destruct (reachable_wf _ Hr) as [ns HR].
  pose proof (rep_nodup _ _ HR) as Hnd.
  rewrite (Rep_size _ _ HR). rewrite (rep_heap _ _ HR) in Ha.
  destruct (ring_lookup_Some _ _ _ Ha) as (i & x & Hi & ->).
  pose proof (lookup_lt_Some _ _ _ Hi) as Hlt.
  cbn [index_ next_ prev_ ring_cell].
  assert (last_ l = Some a <-> S i = length ns) as Hlast.
  { rewrite (rep_last _ _ HR), last_ring. split.
    - intros Hl.
      destruct (ns !! pred (length ns)) as [[a' y]|] eqn:Hp; [|done].
      injection Hl as ->.
      pose proof (ring_addr_inj _ _ _ _ _ _ Hnd Hi Hp). lia.
    - intros Hs. replace (pred (length ns)) with i by lia. by rewrite Hi. }
  split; [lia|]. split.
  { rewrite (getNodeByIndex_ring _ _ _ (Rep_Ring _ _ HR)).
    rewrite decide_True by lia.
    by rewrite Nat2Z.id, list_lookup_fmap, Hi. }
  split.
  { destruct (lookup_lt_is_Some_2 ns (succ_pos (length ns) i)) as [[b y] Hb].
    { unfold succ_pos. case_decide; lia. }
    rewrite (ring_next_eq _ _ _ _ Hb), (rep_heap _ _ HR).
    rewrite (ring_lookup _ _ _ _ Hnd Hb). eexists. split; [done|].
    cbn [index_ prev_ ring_cell]. split.
    - apply (ring_prev_eq _ _ _ x).
      replace (pred_pos (length ns) (succ_pos (length ns) i)) with i; [done|].
      unfold pred_pos, succ_pos. repeat case_decide; lia.
    - unfold succ_pos. destruct (decide (S i = length ns)) as [Hs|Hs].
      + by rewrite decide_True by (by apply Hlast).
      + rewrite decide_False by (by rewrite Hlast). lia. }
  split.
  { destruct (lookup_lt_is_Some_2 ns (pred_pos (length ns) i)) as [[b y] Hb].
    { unfold pred_pos. case_decide; lia. }
    rewrite (ring_prev_eq _ _ _ _ Hb), (rep_heap _ _ HR).
    rewrite (ring_lookup _ _ _ _ Hnd Hb). eexists. split; [done|].
    cbn [next_ ring_cell]. apply (ring_next_eq _ _ _ x).
    replace (succ_pos (length ns) (pred_pos (length ns) i)) with i; [done|].
    unfold pred_pos, succ_pos. repeat case_decide; lia. }
  rewrite Hlast. lia.
Qed.

(** X11. No call on the list has undefined behaviour: in every state the
    list can reach, each of its public operations returns, whatever its
    arguments, as long as the allocator answers [new Node] with nothing or
    with an unused address and the counter of changes has room for the
    changes of the call. *)
Theorem list_calls_are_defined l (o : Op T) :
  reachable l -> op_alloc_okb o l = true ->
  count_ l + Z.of_nat (size (heap_ l)) < INT32_MAX ->
  is_Ok (exec o l).
Proof.
  intros Hr Ha Hc. destruct (reachable_wf _ Hr) as [ns HR].
  rewrite (Rep_size _ _ HR) in Hc. pose proof (rep_count _ _ HR) as Hc0.
  destruct (is_add o || is_remove o) eqn:Hm.
  - rewrite (exec_mutator _ _ _ HR Ha Hm).
    destruct (next_ring o (constructed_ l) ns); [|by eexists].
    rewrite (incr32_lt (count_ l)) by lia. by eexists.
  - destruct (is_read o) eqn:Hread.
    + destruct (exec_read _ _ _ HR Hread) as [r ->]. by eexists.
    + destruct o; try discriminate; cbn [exec].
      * rewrite (clear_rep _ _ HR), decide_True by lia. by eexists.
      * by eexists.
Qed.

End ListInvariants.
(** ** What a caller of an iterator can rely on *)

Section IteratorUse.

Context {T : Type} `{EqDecision T}.
Implicit Types (ns : list (positive * T)) (l : List T) (it : Iterator).

(** X12. [getListIterator(index)] always returns: a null pointer exactly when
    the list is not constructed, the iterator could not be allocated or
    [index] is outside [[0, getLength()]]; otherwise an iterator that has
    seen every change, stands before the element at [index], has a next
    element exactly when [index] is below the length, and has nothing to
    remove yet. *)
Theorem getListIterator_null_exactly l ns allocated index :
  Rep l ns ->
  is_Ok (getListIterator allocated index l) /\
  (getListIterator allocated index l = Ok None <->
     constructed_ l = false \/ allocated = false \/
     index < 0 \/ Z.of_nat (length ns) < index) /\
  (forall it, getListIterator allocated index l = Ok (Some it) ->
     fresh_it l it /\ getNextIndex l it = Ok index /\
     hasNext l it = bool_decide (index < Z.of_nat (length ns)) /\
     it_remove l it = Ok (false, l, it)).
Proof.
  intros HR. split_and!.
  - rewrite (getListIterator_rep _ _ _ _ HR). case_decide; by eexists.
  - rewrite (getListIterator_rep _ _ _ _ HR). case_decide as Hd.
    + split; [done|]. destruct Hd as (Hc & Ha & Hi).
      intros [H|[H|H]]; [congruence|congruence|lia].
    + split; [|done]. intros _.
      destruct (constructed_ l); [|by left].
      destruct allocated; [|by right; left].
      right; right. destruct (decide (index < 0)); [by left|right].
      destruct (decide (Z.of_nat (length ns) < index)); [done|].
      exfalso. apply Hd. split_and!; [done|done|lia|lia].
  - intros it Hit.
    pose proof (getListIterator_Cursor _ _ _ _ _ HR Hit) as HC.
    rewrite (getListIterator_rep _ _ _ _ HR) in Hit.
    case_decide as Hd; [|done]. destruct Hd as (Hc & Ha & Hi).
    injection Hit as <-. split; [done|]. split.
    { rewrite (getNextIndex_Cursor _ _ _ _ HR HC). f_equal. lia. }
    split.
    { rewrite (hasNext_Cursor _ _ _ _ HC). apply bool_decide_ext. lia. }
    by apply it_remove_nothing_returned.
Qed.

(** From position [k], the loop over [getNext()] returns the elements from
    [k] on and stops at the end. *)
Lemma next_all_Cursor l ns n k it :
  Rep l ns -> Cursor l ns it k -> (length ns - k <= n)%nat ->
  exists it', next_all n l it = Ok (drop k (elements ns), it') /\
              Cursor l ns it' (length ns).
Proof.
  intros HR. revert k it. induction n as [|n IH]; intros k it HC Hn.
  - pose proof (cur_pos _ _ _ _ HC).
    assert (k = length ns) as -> by lia. exists it. split; [|done].
    cbn. by rewrite drop_ge by (rewrite length_elements; lia).
  - cbn [next_all]. rewrite (hasNext_Cursor _ _ _ _ HC).
    case_bool_decide as Hk.
    + destruct (lookup_lt_is_Some_2 ns k Hk) as [[a x] Hax].
      destruct (getNext_Cursor _ _ _ _ _ _ HR HC Hax) as (it1 & -> & HC1 & _).
      cbn [mbind outcome_bind fst snd].
      destruct (IH (S k) it1 HC1 ltac:(lia)) as (it' & -> & HC').
      exists it'. split; [|done]. cbn [mbind outcome_bind fst snd].
      f_equal. f_equal. symmetry. apply drop_S.
      unfold elements. by rewrite list_lookup_fmap, Hax.
    + pose proof (cur_pos _ _ _ _ HC).
      assert (k = length ns) as -> by lia. exists it. split; [|done].
      by rewrite drop_ge by (rewrite length_elements; lia).
Qed.

(** X13. Iterating forward visits every element once, in order: on an
    iterator made at [index], the loop [while(hasNext()) getNext()] returns
    the elements from [index] to the end of the list and terminates within
    [getLength()] rounds; afterwards [hasNext()] is [false], [getNext()]
    answers the illegal value without moving, and [getNextIndex()] is the
    length. *)
Theorem iteration_visits_every_element l ns index it n :
  Rep l ns -> getListIterator true index l = Ok (Some it) ->
  (length ns <= n)%nat ->
  exists it', next_all n l it
              = Ok (drop (Z.to_nat index) (elements ns), it') /\
    hasNext l it' = false /\ getNext l it' = Ok (illegal_ l, it') /\
    getNextIndex l it' = Ok (Z.of_nat (length ns)).
Proof.
  intros HR Hit Hn.
  pose proof (getListIterator_Cursor _ _ _ _ _ HR Hit) as HC.
  destruct (next_all_Cursor l ns n _ it HR HC ltac:(lia)) as (it' & E & HC').
  exists it'. split; [done|].
  assert (hasNext l it' = false) as Hh.
  { rewrite (hasNext_Cursor _ _ _ _ HC'). apply bool_decide_eq_false. lia. }
  split; [done|]. split; [unfold getNext; by rewrite Hh|].
  apply (getNextIndex_Cursor _ _ _ _ HR HC').
Qed.

(** From a position [k] that is not the end, the loop over [getPrevious()]
    returns the elements before [k], the nearest first, and stops at the
    head. *)
Lemma previous_all_Cursor l ns n k it :
  Rep l ns -> Cursor l ns it k -> (k < length ns)%nat -> (k <= n)%nat ->
  exists it', previous_all n l it = Ok (reverse (take k (elements ns)), it') /\
              Cursor l ns it' O.
Proof.
  intros HR. revert k it. induction n as [|n IH]; intros k it HC Hk Hn.
  - assert (k = O) as -> by lia. by exists it.
  - cbn [previous_all]. rewrite (hasPrevious_Cursor _ _ _ _ HR HC Hk).
    cbn [mbind outcome_bind]. destruct k as [|k].
    + rewrite bool_decide_eq_false_2 by lia. by exists it.
    + rewrite bool_decide_eq_true_2 by lia.
      destruct (lookup_lt_is_Some_2 ns k ltac:(lia)) as [[pv xp] Hp].
      destruct (getPrevious_Cursor _ _ _ _ _ _ HR HC Hk Hp)
        as (it1 & -> & HC1 & _).
      cbn [mbind outcome_bind fst snd].
      destruct (IH k it1 HC1 ltac:(lia) ltac:(lia)) as (it' & -> & HC').
      exists it'. split; [|done]. cbn [mbind outcome_bind fst snd].
      f_equal. f_equal.
      rewrite (take_S_r _ _ xp)
        by (unfold elements; by rewrite list_lookup_fmap, Hp).
      by rewrite reverse_snoc.
Qed.

(** X14. Iterating backward from an iterator made at an [index] below the
    length: the loop [while(hasPrevious()) getPrevious()] returns the
    elements before [index], the nearest first, and terminates within
    [getLength()] rounds; afterwards [hasPrevious()] is [false],
    [getPreviousIndex()] is [-1] and [getNextIndex()] is 0. *)
Theorem iteration_backwards_to_the_head l ns index it n :
  Rep l ns -> getListIterator true index l = Ok (Some it) ->
  index < Z.of_nat (length ns) -> (length ns <= n)%nat ->
  exists it', previous_all n l it
              = Ok (reverse (take (Z.to_nat index) (elements ns)), it') /\
    hasPrevious l it' = Ok false /\ getPreviousIndex l it' = Ok (-1) /\
    getPrevious l it' = Ok (illegal_ l, it') /\ getNextIndex l it' = Ok 0.
Proof.
  intros HR Hit Hi Hn.
  pose proof (getListIterator_Cursor _ _ _ _ _ HR Hit) as HC.
  assert (0 <= index) as H0.
  { rewrite (getListIterator_rep _ _ _ _ HR) in Hit.
    case_decide as Hd; [lia|done]. }
  destruct (previous_all_Cursor l ns n _ it HR HC ltac:(lia) ltac:(lia))
    as (it' & E & HC').
  exists it'. split; [done|].
  assert (hasPrevious l it' = Ok false) as Hh.
  { rewrite (hasPrevious_Cursor _ _ _ _ HR HC') by lia.
    by rewrite bool_decide_eq_false_2 by lia. }
  split; [done|]. split.
  { by rewrite (getPreviousIndex_Cursor _ _ _ _ HR HC') by lia. }
  split; [unfold getPrevious; by rewrite Hh|].
  apply (getNextIndex_Cursor _ _ _ _ HR HC').
Qed.

(** X15. Alternating [getNext()] and [getPrevious()] returns the same
    element: around an element [x] at a position [k] that is not the last
    one, an iterator before [x] gets [x] from [getNext()] and again from
    [getPrevious()], an iterator after [x] gets [x] from [getPrevious()] and
    again from [getNext()], and both are back where they were, with [k] as
    the index to remove. *)
Theorem getNext_getPrevious_same_element l ns k a x :
  Rep l ns -> ns !! k = Some (a, x) -> (S k < length ns)%nat ->
  (forall it, Cursor l ns it k ->
     exists it1 it2, getNext l it = Ok (x, it1) /\
       getPrevious l it1 = Ok (x, it2) /\
       curs_ it2 = curs_ it /\ rindex_ it2 = Z.of_nat k) /\
  (forall it, Cursor l ns it (S k) ->
     exists it1 it2, getPrevious l it = Ok (x, it1) /\
       getNext l it1 = Ok (x, it2) /\
       curs_ it2 = curs_ it /\ rindex_ it2 = Z.of_nat k).
Proof.
  intros HR Hk Hlen. split; intros it HC.
  - destruct (getNext_Cursor _ _ _ _ _ _ HR HC Hk) as (it1 & E1 & HC1 & _).
    destruct (getPrevious_Cursor _ _ _ _ _ _ HR HC1 Hlen Hk)
      as (it2 & E2 & HC2 & Hr).
    exists it1, it2. split; [done|]. split; [done|]. split; [|done].
    by rewrite (cur_node _ _ _ _ HC2), (cur_node _ _ _ _ HC).
  - destruct (getPrevious_Cursor _ _ _ _ _ _ HR HC Hlen Hk)
      as (it1 & E1 & HC1 & _).
    destruct (getNext_Cursor _ _ _ _ _ _ HR HC1 Hk) as (it2 & E2 & HC2 & Hr).
    exists it1, it2. split; [done|]. split; [done|]. split; [|done].
    by rewrite (cur_node _ _ _ _ HC2), (cur_node _ _ _ _ HC).
Qed.

(** X16. [add(element)] of an iterator puts the element just before the
    cursor: the list is the old one with the element at the position of the
    cursor, [getNextIndex()] is one more, and [remove()] right after it
    returns [false] and changes nothing. When the cursor was on a node,
    [getNext()] still returns the element that was next and [getPrevious()]
    returns the new element. When the cursor was past the last element, the
    element is added at the end and the cursor stays null: [hasNext()] is
    [false], and [hasPrevious()], [getPrevious()] and [getPreviousIndex()]
    read the node of the null cursor and have no defined result. *)
Theorem it_add_before_the_cursor l ns it k a x :
  Rep l ns -> Cursor l ns it k -> alloc_ok l (Some a) ->
  constructed_ l = true -> count_ l < INT32_MAX ->
  exists l' it',
    it_add (Some a) x l it = Ok (true, l', it') /\
    Rep l' (insert_at k (a, x) ns) /\
    getNextIndex l' it' = Ok (Z.of_nat k + 1) /\
    it_remove l' it' = Ok (false, l', it') /\
    (forall b y, ns !! k = Some (b, y) ->
       (exists it'', getNext l' it' = Ok (y, it'')) /\
       (exists it'', getPrevious l' it' = Ok (x, it''))) /\
    (k = length ns ->
       curs_ it' = None /\
       hasNext l' it' = false /\
       hasPrevious l' it' = Undefined /\
       getPrevious l' it' = Undefined /\
       getPreviousIndex l' it' = Undefined).
Proof.
  intros HR HC Ha Hc Hcnt.
  destruct (it_add_Cursor _ _ _ _ _ x HR HC Ha Hc Hcnt)
    as (l' & it' & E & HR' & HC' & Hr & _).
  pose proof (cur_pos _ _ _ _ HC) as Hk.
  exists l', it'. split; [done|]. split; [done|]. split.
  { rewrite (getNextIndex_Cursor _ _ _ _ HR' HC'). f_equal. lia. }
  split; [by apply it_remove_nothing_returned|].
  split; [intros b y Hb; pose proof (lookup_lt_Some _ _ _ Hb) as Hlt;
          split|].
  - assert (insert_at k (a, x) ns !! S k = Some (b, y)) as Hn.
    { rewrite (lookup_insert_at _ _ _ _ Hk).
      rewrite decide_False by lia. by rewrite decide_False by lia. }
    destruct (getNext_Cursor _ _ _ _ _ _ HR' HC' Hn) as (it'' & E' & _).
    by exists it''.
  - assert (insert_at k (a, x) ns !! k = Some (a, x)) as Hp.
    { rewrite (lookup_insert_at _ _ _ _ Hk).
      rewrite decide_False by lia. by rewrite decide_True by lia. }
    destruct (getPrevious_Cursor _ _ _ _ _ _ HR' HC'
                ltac:(rewrite length_insert_at; lia) Hp) as (it'' & E' & _).
    by exists it''.
  - intros ->.
    assert (insert_at (length ns) (a, x) ns <> []) as Hne.
    { intros E0. apply (f_equal length) in E0.
      rewrite length_insert_at in E0. discriminate E0. }
    assert (hasPrevious l' it' = Undefined) as Hp.
    { rewrite (hasPrevious_cases _ _ _ _ HR' HC').
      rewrite decide_False by (rewrite length_insert_at; lia).
      by rewrite decide_False. }
    split.
    { rewrite (cur_node _ _ _ _ HC'). apply lookup_ge_None_2.
      rewrite length_fmap, length_insert_at. lia. }
    split.
    { rewrite (hasNext_Cursor _ _ _ _ HC').
      apply bool_decide_eq_false_2. rewrite length_insert_at. lia. }
    split; [done|].
    split; [unfold getPrevious | unfold getPreviousIndex]; by rewrite Hp.
Qed.

(** X17. [remove()] of an iterator removes the element that the last move
    returned, provided the cursor is on a node afterwards: after [getNext()]
    has returned the element at a position that is not the last one, and
    after [getPrevious()] has returned it, [remove()] returns [true], the
    list is the old one without that element, the iterator stands before
    the element that followed it, which [getNext()] returns, and a second
    [remove()] returns [false]. *)
Theorem it_remove_last_returned l ns k a x b y :
  Rep l ns -> ns !! k = Some (a, x) -> ns !! S k = Some (b, y) ->
  count_ l < INT32_MAX ->
  forall it it1,
    (Cursor l ns it k /\ getNext l it = Ok (x, it1)) \/
    (Cursor l ns it (S k) /\ getPrevious l it = Ok (x, it1)) ->
  exists l' it2 it3,
    it_remove l it1 = Ok (true, l', it2) /\
    Rep l' (delete k ns) /\
    it_remove l' it2 = Ok (false, l', it2) /\
    getNextIndex l' it2 = Ok (Z.of_nat k) /\
    getNext l' it2 = Ok (y, it3).
Proof.
  intros HR Hk HSk Hcnt it it1 Hmove.
  pose proof (lookup_lt_Some _ _ _ Hk) as Hlt.
  pose proof (lookup_lt_Some _ _ _ HSk) as HSlt.
  assert (exists k1, Cursor l ns it1 k1 /\ rindex_ it1 = Z.of_nat k /\
                     (k1 = S k \/ k1 = k)) as (k1 & HC1 & Hr1 & Hk1).
  { destruct Hmove as [[HC E]|[HC E]].
    - destruct (getNext_Cursor _ _ _ _ _ _ HR HC Hk) as (i1 & E1 & HC1 & Hr).
      rewrite E in E1. injection E1 as <-. exists (S k). eauto.
    - destruct (getPrevious_Cursor _ _ _ _ _ _ HR HC HSlt Hk)
        as (i1 & E1 & HC1 & Hr).
      rewrite E in E1. injection E1 as <-. exists k. eauto. }
  destruct (it_remove_Cursor _ _ _ k1 k HR HC1 ltac:(lia) Hr1 Hlt Hcnt)
    as (l' & it2 & E2 & HR' & HC2 & Hr2 & _).
  assert ((if decide (k < k1)%nat then pred k1 else k1) = k) as Hpos.
  { destruct Hk1 as [-> | ->].
    - by rewrite decide_True by lia.
    - by rewrite decide_False by lia. }
  rewrite Hpos in HC2.
  assert (delete k ns !! k = Some (b, y)) as Hd
    by (by rewrite list_lookup_delete_ge by lia).
  destruct (getNext_Cursor _ _ _ _ _ _ HR' HC2 Hd) as (it3 & E3 & _).
  exists l', it2, it3. split; [done|]. split; [done|].
  split; [by apply it_remove_nothing_returned|]. split; [|done].
  apply (getNextIndex_Cursor _ _ _ _ HR' HC2).
Qed.

(** X18. A change made through one iterator is seen by that iterator and by
    no other: when [add(element)] or [remove()] of an iterator returns
    [true], the iterator itself goes on with the changed list, and every
    other iterator of the list, whatever its position, refuses to work from
    then on. *)
Theorem change_through_iterator_stales_the_others l ns it other :
  Rep l ns -> self_ other <= count_ l ->
  (forall p x l' it', alloc_ok l p ->
     it_add p x l it = Ok (true, l', it') ->
     fresh_it l' it' /\ stale l' other /\ refuses l' other) /\
  (forall l' it',
     it_remove l it = Ok (true, l', it') ->
     fresh_it l' it' /\ stale l' other /\ refuses l' other).
Proof.
  intros HR Ho. split.
  - intros p x l' it' Ha Hadd.
    destruct (it_add_as_exec _ _ _ _ _ _ _ Hadd) as [[? _]|[index He]];
      [done|].
    assert (op_alloc_okb (OAddAt p index x) l = true) as Hal
      by (by apply alloc_okb_spec).
    destruct (count_step _ _ _ _ _ HR Hal He) as [Hm _].
    destruct (Hm eq_refl) as [[_ Hcnt]|[? _]]; [|done].
    assert (fresh_it l' it') as Hf.
    { unfold it_add in Hadd. case_decide as Hs; [done|].
      destruct (getNextIndex l it) as [i|]; [|done].
      cbn [mbind outcome_bind] in Hadd.
      destruct (add_at p i x l) as [[ok l1]|]; [|done].
      cbn [mbind outcome_bind fst snd] in Hadd.
      destruct ok; [|done]. cbn [negb] in Hadd.
      unfold incr32, add32 in Hadd. case_decide; [|done].
      cbn [mbind outcome_bind] in Hadd. injection Hadd as <- <-.
      unfold fresh_it. cbn. lia. }
    split; [done|]. split; [unfold stale; lia|].
    apply mismatch_refuses. lia.
  - intros l' it' Hrem.
    destruct (it_remove_as_exec _ _ _ _ _ Hrem) as [[? _]|He]; [done|].
    destruct (count_step l ns (ORemove (rindex_ it)) _ _ HR eq_refl He)
      as [Hm _].
    destruct (Hm eq_refl) as [[_ Hcnt]|[? _]]; [|done].
    assert (fresh_it l' it') as Hf.
    { unfold it_remove in Hrem. case_decide as Hs; [done|].
      case_decide; [done|].
      destruct (deref (heap_ l) (curs_ it)) as [n|]; [|done].
      cbn [mbind outcome_bind] in Hrem.
      destruct (remove (rindex_ it) l) as [[ok l1]|]; [|done].
      cbn [mbind outcome_bind fst snd] in Hrem.
      destruct ok; [|done]. cbn [negb] in Hrem.
      destruct (incr32 (self_ it)) as [s|] eqn:Hi; [|done].
      cbn [mbind outcome_bind] in Hrem. injection Hrem as <- <-.
      unfold incr32, add32 in Hi. case_decide; [|done].
      injection Hi as <-. unfold fresh_it. cbn. lia. }
    split; [done|]. split; [unfold stale; lia|].
    apply mismatch_refuses. lia.
Qed.

(** X19. On an empty list every operation of an iterator is defined:
    [hasNext()] and [hasPrevious()] are [false], [getNext()] and
    [getPrevious()] answer the illegal value, the next index is 0 and the
    previous one [-1], [remove()] returns [false]; and [add(element)] makes
    the list of that one element, with the iterator at its end. *)
Theorem iterator_of_an_empty_list l it :
  Rep l [] -> getIterator true l = Ok (Some it) ->
  hasNext l it = false /\ hasPrevious l it = Ok false /\
  getNext l it = Ok (illegal_ l, it) /\
  getPrevious l it = Ok (illegal_ l, it) /\
  getNextIndex l it = Ok 0 /\ getPreviousIndex l it = Ok (-1) /\
  it_remove l it = Ok (false, l, it) /\
  (forall a x, alloc_ok l (Some a) -> count_ l < INT32_MAX ->
     exists l' it', it_add (Some a) x l it = Ok (true, l', it') /\
       Rep l' [(a, x)] /\ get l' 0 = Ok x /\ hasNext l' it' = false).
Proof.
  intros HR Hit. unfold getIterator in Hit.
  pose proof (getListIterator_Cursor _ _ _ _ _ HR Hit) as HC.
  change (Z.to_nat 0) with O in HC.
  assert (constructed_ l = true) as Hc.
  { rewrite (getListIterator_rep _ _ _ _ HR) in Hit.
    case_decide as Hd; [by destruct Hd|done]. }
  assert (rindex_ it = ILLEGAL_INDEX) as Hr.
  { rewrite (getListIterator_rep _ _ _ _ HR) in Hit.
    case_decide as Hd; [|done]. by injection Hit as <-. }
  assert (hasNext l it = false) as Hn
    by (by rewrite (hasNext_Cursor _ _ _ _ HC)).
  assert (hasPrevious l it = Ok false) as Hp
    by (by rewrite (hasPrevious_cases _ _ _ _ HR HC)).
  split; [done|]. split; [done|].
  split; [unfold getNext; by rewrite Hn|].
  split; [unfold getPrevious; by rewrite Hp|].
  split; [apply (getNextIndex_Cursor _ _ _ _ HR HC)|].
  split; [by rewrite (getPreviousIndex_cases _ _ _ _ HR HC)|].
  split; [by apply it_remove_nothing_returned|].
  intros a x Ha Hcnt.
  destruct (it_add_Cursor _ _ _ _ _ x HR HC Ha Hc Hcnt)
    as (l' & it' & E & HR' & HC' & _).
  exists l', it'. split; [done|]. split; [done|].
  split; [by rewrite (get_rep _ _ _ HR')|].
  by rewrite (hasNext_Cursor _ _ _ _ HC').
Qed.

End IteratorUse.
(** ** Buffers *)

Section BufferUse.

Context {T : Type} `{EqDecision T}.
Implicit Types (b src : Buffer.t T) (cells : list T).

Lemma holds_sized b cells : Buffer.holds b cells -> Buffer.sized b.
Proof. intros (_ & Hb & Hl). by exists cells. Qed.

Lemma sized_holds b :
  Buffer.constructed_ b = true -> Buffer.sized b -> exists cells, Buffer.holds b cells.
Proof. intros Hc (cells & Hb & Hl). by exists cells. Qed.

Lemma holds_getBuffer b cells : Buffer.holds b cells -> Buffer.getBuffer b = Some cells.
Proof.
  intros (Hc & Hb & _). unfold Buffer.getBuffer, Buffer.isConstructed.
  rewrite Hc, Hb. by destruct (Buffer.kind_ b).
Qed.

Lemma holds_set_buf b cells cells' :
  Buffer.holds b cells -> length cells' = length cells ->
  Buffer.holds (Buffer.set_buf (Some cells') b) cells'.
Proof. intros (Hc & Hb & Hl) Hlen. split_and!; [done|done|]. cbn. lia. Qed.

Lemma Buffer_subscript_holds b cells i :
  Buffer.holds b cells ->
  Buffer.subscript b i =
    if decide (Buffer.count_ b <= i) then Ok Buffer.AtIllegal
    else if decide (0 <= i) then Ok (Buffer.AtCell (Z.to_nat i))
    else Undefined.
Proof.
  intros Hh. pose proof Hh as (Hc & Hb & Hl). unfold Buffer.subscript.
  rewrite (holds_getBuffer _ _ Hh), Hc. cbn [negb orb].
  rewrite orb_false_r. case_bool_decide; case_decide; try lia; [done|].
  unfold Buffer.cell. repeat case_decide; try done; lia.
Qed.

Lemma Buffer_get_holds b cells i :
  Buffer.holds b cells -> 0 <= i ->
  Buffer.get b i = Ok (element_at (Buffer.illegal_ b) cells i).
Proof.
  intros Hh Hi. pose proof Hh as (Hc & Hb & Hl). unfold Buffer.get.
  rewrite (Buffer_subscript_holds _ _ _ Hh). case_decide.
  - cbn. by rewrite element_at_outside by lia.
  - rewrite decide_True by done. cbn [mbind outcome_bind Buffer.load].
    rewrite Hb. cbn [mbind option_bind]. unfold element_at.
    rewrite decide_True by done.
    destruct (cells !! Z.to_nat i) eqn:Hl'; [done|].
    apply lookup_ge_None in Hl'. lia.
Qed.

Lemma Buffer_set_holds b cells i v :
  Buffer.holds b cells -> 0 <= i < Buffer.count_ b ->
  Buffer.set b i v
  = Ok (Buffer.set_buf (Some (<[Z.to_nat i := v]> cells)) b).
Proof.
  intros Hh Hi. pose proof Hh as (Hc & Hb & Hl). unfold Buffer.set.
  rewrite (Buffer_subscript_holds _ _ _ Hh).
  rewrite decide_False, decide_True by lia.
  cbn [mbind outcome_bind Buffer.store]. by rewrite Hb.
Qed.

(** X20. Writing through [operator[]] at an index inside the buffer and
    reading it back gives the value written; every other index reads as
    before, and the length and the illegal value are kept. *)
Theorem Buffer_write_then_read b i v :
  Buffer.isConstructed b = true -> Buffer.sized b ->
  0 <= i < Buffer.getLength b ->
  exists b', Buffer.set b i v = Ok b' /\
    Buffer.get b' i = Ok v /\
    (forall j, j <> i -> Buffer.get b' j = Buffer.get b j) /\
    Buffer.getLength b' = Buffer.getLength b /\
    Buffer.getIllegal b' = Buffer.getIllegal b /\
    Buffer.isConstructed b' = true /\ Buffer.sized b'.
Proof.
  intros Hc Hs Hi. destruct (sized_holds b Hc Hs) as [cells Hh].
  unfold Buffer.getLength in *.
  pose proof Hh as (_ & Hb & Hl).
  rewrite (Buffer_set_holds _ _ _ _ Hh Hi). eexists. split; [done|].
  pose proof (holds_set_buf b cells (<[Z.to_nat i := v]> cells) Hh
                ltac:(by rewrite length_insert)) as Hh'.
  split.
  { rewrite (Buffer_get_holds _ _ _ Hh') by lia. f_equal.
    unfold element_at. rewrite decide_True by lia.
    by rewrite list_lookup_insert_eq by lia. }
  split.
  { intros j Hj. destruct (decide (0 <= j)).
    - rewrite (Buffer_get_holds _ _ _ Hh'), (Buffer_get_holds _ _ _ Hh)
        by done.
      f_equal. unfold element_at. rewrite !decide_True by done.
      by rewrite list_lookup_insert_ne by lia.
    - unfold Buffer.get.
      rewrite (Buffer_subscript_holds _ _ _ Hh'),
        (Buffer_subscript_holds _ _ _ Hh).
      cbn [Buffer.count_ Buffer.set_buf].
      by rewrite !decide_False by lia. }
  split; [done|]. split; [done|]. split; [done|].
  by apply (holds_sized _ _ Hh').
Qed.


(** The loop of [fill] on an array that has room for it. *)
Lemma fill_loop_cells n i (v : T) cells :
  (i + n <= length cells)%nat ->
  Buffer.fill_loop n (Z.of_nat i) v (Some cells)
  = Ok (Some (take i cells ++ replicate n v ++ drop (i + n) cells)).
Proof.
  revert i cells. induction n as [|n IH]; intros i cells Hn.
  - cbn. by rewrite Nat.add_0_r, take_drop.
  - cbn [Buffer.fill_loop Buffer.cell].
    rewrite decide_True by lia. cbn [mbind outcome_bind fmap option_fmap
                                       option_map].
    replace (Z.of_nat i + 1) with (Z.of_nat (S i)) by lia.
    rewrite Nat2Z.id, IH by (rewrite length_insert; lia).
    f_equal. f_equal.
    rewrite (take_S_r _ _ v) by (apply list_lookup_insert_eq; lia).
    rewrite take_insert_ge by lia. rewrite drop_insert_lt by lia.
    rewrite <- app_assoc. cbn. by rewrite Nat.add_succ_r.
Qed.

Lemma element_at_fill (illegal v : T) cells i n j :
  (i + n <= length cells)%nat -> 0 <= j ->
  element_at illegal (take i cells ++ replicate n v ++ drop (i + n) cells) j
  = if decide (Z.of_nat i <= j < Z.of_nat (i + n)) then v
    else element_at illegal cells j.
Proof.
  intros Hn Hj. unfold element_at. destruct (decide (0 <= j)); [|lia].
  assert (length (take i cells) = i) as Hl by (rewrite length_take; lia).
  case_decide as Hr.
  - rewrite lookup_app_r by lia. rewrite Hl.
    rewrite lookup_app_l by (rewrite length_replicate; lia).
    by rewrite lookup_replicate_2 by lia.
  - destruct (decide (j < Z.of_nat i)).
    + rewrite lookup_app_l by lia. by rewrite lookup_take_lt by lia.
    + rewrite lookup_app_r by lia. rewrite Hl.
      rewrite lookup_app_r by (rewrite length_replicate; lia).
      rewrite length_replicate, lookup_drop. do 2 f_equal. lia.
Qed.

(** X22. On a constructed buffer, [fill(value, index, count)] with [index]
    not negative and [index + count] not above the largest [int32] writes
    [value] to the cells from [index] up to, and not including,
    [index + count] or the length of the buffer, whichever is less, and to
    no other cell; a [count] that is not positive changes nothing. An
    [index] from the length on changes nothing, whatever [count] is. With
    [index] below the length and [index + count] above the largest [int32]
    the sum overflows and the call has no defined result. [fill(value)]
    writes every cell. *)
Theorem Buffer_fill_at_range b v index count :
  Buffer.isConstructed b = true -> Buffer.sized b ->
  Buffer.getLength b <= INT32_MAX ->
  0 <= index -> INT32_MIN <= count ->
  (index + count <= INT32_MAX ->
   exists b', Buffer.fill_at v index count b = Ok b' /\
     Buffer.isConstructed b' = true /\ Buffer.sized b' /\
     Buffer.getLength b' = Buffer.getLength b /\
     Buffer.getIllegal b' = Buffer.getIllegal b /\
     forall j, 0 <= j < Buffer.getLength b ->
       Buffer.get b' j
       = if decide (index <= j < index + count) then Ok v
         else Buffer.get b j) /\
  (Buffer.getLength b <= index -> Buffer.fill_at v index count b = Ok b) /\
  (index < Buffer.getLength b -> INT32_MAX < index + count ->
   Buffer.fill_at v index count b = Undefined) /\
  (exists b', Buffer.fill v b = Ok b' /\
     Buffer.cells b' = replicate (length (Buffer.cells b)) v).
Proof.
  intros Hc Hs Hb32 Hi Hcnt.
  destruct (sized_holds b Hc Hs) as [cells Hh].
  unfold Buffer.getLength, Buffer.getIllegal, Buffer.isConstructed in *.
  pose proof Hh as (_ & Hb & Hl). split; [|split; [|split]].
  - intros Hsum. unfold Buffer.fill_at. rewrite Hc. cbn [negb].
    case_decide as Hge.
    { exists b. split; [done|]. split; [done|]. split; [done|].
      split; [done|]. split; [done|]. intros j Hj.
      by rewrite decide_False by lia. }
    rewrite add32_ok by (unfold INT32_MIN in *; lia).
    cbn [mbind outcome_bind]. rewrite (holds_getBuffer _ _ Hh).
    set (max := if decide (index + count <= Buffer.count_ b)
                then index + count else Buffer.count_ b).
    assert (max <= Buffer.count_ b) as Hmax
      by (unfold max; case_decide; lia).
    pose proof (fill_loop_cells (Z.to_nat (max - index)) (Z.to_nat index)
                  v cells) as Hf.
    rewrite Z2Nat.id in Hf by lia. rewrite Hf by lia. clear Hf.
    cbn [mbind outcome_bind].
    eexists. split; [done|].
    match goal with |- context [Buffer.set_buf (Some ?c) b] =>
      set (cells' := c) end.
    assert (length cells' = length cells) as Hlen.
    { unfold cells'. rewrite !length_app, length_take, length_replicate,
        length_drop. lia. }
    pose proof (holds_set_buf b cells cells' Hh Hlen) as Hh'.
    split; [done|]. split; [by apply (holds_sized _ _ Hh')|].
    split; [done|]. split; [done|]. intros j Hj.
    rewrite (Buffer_get_holds _ _ _ Hh'), (Buffer_get_holds _ _ _ Hh)
      by lia.
    unfold cells'. rewrite element_at_fill by lia.
    cbn [Buffer.illegal_ Buffer.set_buf].
    unfold max. repeat case_decide; try done; lia.
  - intros Hge. unfold Buffer.fill_at. rewrite Hc. cbn [negb].
    by rewrite decide_True by lia.
  - intros Hlt Hover. unfold Buffer.fill_at. rewrite Hc. cbn [negb].
    rewrite decide_False by lia. unfold add32.
    by rewrite decide_False by lia.
  - unfold Buffer.fill, Buffer.fill_at. rewrite Hc. cbn [negb].
    case_decide as Hge.
    { exists b. split; [done|]. unfold Buffer.cells. rewrite Hb. cbn.
      destruct cells; [done|]. simpl in Hl. lia. }
    pose proof (Nat2Z.is_nonneg (length cells)).
    rewrite add32_ok by (unfold INT32_MIN in *; lia).
    cbn [mbind outcome_bind]. rewrite (holds_getBuffer _ _ Hh).
    rewrite decide_True by lia.
    rewrite (fill_loop_cells _ O) by lia. cbn [mbind outcome_bind].
    eexists. split; [done|]. unfold Buffer.cells.
    cbn [Buffer.buf_ Buffer.set_buf default take app]. rewrite Hb.
    cbn [default id take app Nat.add].
    replace (0 + Buffer.count_ b - 0) with (Z.of_nat (length cells)) by lia.
    rewrite Nat2Z.id, drop_ge by lia. by rewrite app_nil_r.
Qed.

Lemma splice_step {A} (c : list A) i n x (t : list A) :
  (i < length c)%nat ->
  take (S i) (<[i := x]> c) ++ t ++ drop (S i + n) (<[i := x]> c)
  = take i c ++ (x :: t) ++ drop (i + S n) c.
Proof.
  intros Hi. rewrite (take_S_r _ _ x) by (apply list_lookup_insert_eq; lia).
  rewrite take_insert_ge by lia. rewrite drop_insert_lt by lia.
  rewrite <- app_assoc. cbn. by rewrite Nat.add_succ_r.
Qed.

(** The loop of [copy] on two arrays that are long enough. *)
Lemma copy_loop_cells n i cells1 cells2 :
  (i + n <= length cells1)%nat -> (i + n <= length cells2)%nat ->
  Buffer.copy_loop n (Z.of_nat i) (Some cells1) (Some cells2)
  = Ok (Some (take i cells1 ++ take n (drop i cells2)
              ++ drop (i + n) cells1)).
Proof.
  revert i cells1. induction n as [|n IH]; intros i cells1 H1 H2.
  - cbn [Buffer.copy_loop]. rewrite Nat.add_0_r.
    change (take 0 (drop i cells2)) with (@nil T). cbn [app].
    by rewrite take_drop.
  - cbn [Buffer.copy_loop Buffer.cell].
    rewrite (decide_True (P := 0 <= Z.of_nat i < Z.of_nat (length cells2)))
      by lia.
    cbn [mbind outcome_bind option_bind]. rewrite Nat2Z.id.
    destruct (lookup_lt_is_Some_2 cells2 i ltac:(lia)) as [x Hx].
    rewrite Hx. rewrite decide_True by lia.
    cbn [mbind outcome_bind fmap option_fmap option_map].
    replace (Z.of_nat i + 1) with (Z.of_nat (S i)) by lia.
    rewrite IH by (rewrite ?length_insert; lia).
    f_equal. f_equal. rewrite splice_step by lia.
    by rewrite (drop_S _ _ _ Hx).
Qed.

(** The loop of [copy] on two arrays inside one array: the cells outside the
    target are kept; a target that does not start after the source receives
    the cells the source had; a target that does not start before the
    source ends up equal to the cells the source has after the loop. *)
Lemma copy_shared_loop_spec n i off1 off2 (arr : list T) :
  (off1 + i + n <= length arr)%nat -> (off2 + i + n <= length arr)%nat ->
  exists arr',
    Buffer.copy_shared_loop n i off1 off2 arr = Ok arr' /\
    length arr' = length arr /\
    (forall k, (k < off1 + i \/ off1 + i + n <= k)%nat ->
       arr' !! k = arr !! k) /\
    ((off1 <= off2)%nat -> forall j, (i <= j < i + n)%nat ->
       arr' !! (off1 + j)%nat = arr !! (off2 + j)%nat) /\
    ((off2 <= off1)%nat -> forall j, (i <= j < i + n)%nat ->
       arr' !! (off1 + j)%nat = arr' !! (off2 + j)%nat).
Proof.
  revert i arr. induction n as [|n IH]; intros i arr H1 H2.
  - exists arr. cbn [Buffer.copy_shared_loop].
    split; [done|]. split; [done|]. split; [done|].
    split; intros _ j Hj; lia.
  - cbn [Buffer.copy_shared_loop].
    destruct (lookup_lt_is_Some_2 arr (off2 + i) ltac:(lia)) as [x Hx].
    rewrite Hx. rewrite decide_True by lia.
    destruct (IH (S i) (<[(off1 + i)%nat := x]> arr)
                ltac:(rewrite length_insert; lia)
                ltac:(rewrite length_insert; lia))
      as (arr' & E & Hlen & Hout & Hlow & Hhigh).
    rewrite length_insert in Hlen.
    exists arr'. split; [done|]. split; [done|].
    assert (arr' !! (off1 + i)%nat = Some x) as Hi.
    { rewrite Hout by lia. apply list_lookup_insert_eq. lia. }
    split; [|split].
    + intros k Hk. rewrite Hout by lia.
      apply list_lookup_insert_ne. lia.
    + intros Hle j Hj. destruct (decide (j = i)) as [->|Hne].
      * by rewrite Hi, Hx.
      * rewrite Hlow by lia. apply list_lookup_insert_ne. lia.
    + intros Hle j Hj. destruct (decide (j = i)) as [->|Hne].
      * rewrite Hi. rewrite Hout by lia.
        destruct (decide (off1 = off2)) as [->|Hoff].
        -- symmetry. apply list_lookup_insert_eq. lia.
        -- rewrite list_lookup_insert_ne by lia. done.
      * apply Hhigh; [done|lia].
Qed.

(** A target that starts [d] cells after the source and overlaps it holds,
    after the loop, the first [d] cells of the source again and again. *)
Lemma copy_shared_repeats (arr arr' : list T) off2 d n :
  (0 < d)%nat ->
  (forall k, (k < off2 + d)%nat -> arr' !! k = arr !! k) ->
  (forall j, (j < n)%nat ->
     arr' !! (off2 + d + j)%nat = arr' !! (off2 + j)%nat) ->
  forall j, (j < n)%nat ->
    arr' !! (off2 + d + j)%nat = arr !! (off2 + j mod d)%nat.
Proof.
  intros Hd Hout Hsame j. induction j as [j IH] using lt_wf_ind. intros Hj.
  rewrite Hsame by done. destruct (decide (j < d)%nat) as [Hlt|Hge].
  - rewrite Nat.mod_small by done. apply Hout. lia.
  - replace (off2 + j)%nat with (off2 + d + (j - d))%nat by lia.
    rewrite IH by lia. f_equal. f_equal.
    replace j with ((j - d) + 1 * d)%nat at 2 by lia.
    by rewrite Nat.Div0.mod_add.
Qed.

(** X23. [operator=] of a buffer copies cell by cell, from the first one on,
    as many cells as both buffers have. A target that is not constructed is
    left alone. Between buffers that own their arrays the first cells of
    the target become those of the source, the cells of the target beyond
    the length of the source stay, and so do its length and its illegal
    value; the same comes out of the loop on two separate arrays inside one
    array. From a dynamic source that is not constructed, whose array
    pointer reads as null, the copy of even one cell has no defined result.
    Between two buffers over arrays of the caller that lie in one array,
    the cells outside the target are kept; a target that does not start
    after the source, or starts where the cells copied end, receives the
    cells the source had; a target that starts [d] cells after the source,
    with [d] less than the number of cells copied, receives the first [d]
    cells of the source again and again, each round reading what the rounds
    before have written. *)
Theorem Buffer_copy_prefix src b :
  (Buffer.isConstructed b = false -> Buffer.copy src b = Ok b) /\
  (Buffer.isConstructed b = true -> Buffer.sized b -> Buffer.sized src ->
   Buffer.kind_ src = Buffer.Static \/ Buffer.isConstructed src = true ->
   exists b', Buffer.copy src b = Ok b' /\
     Buffer.cells b'
     = take (length (Buffer.cells b)) (Buffer.cells src)
       ++ drop (length (Buffer.cells src)) (Buffer.cells b) /\
     Buffer.getLength b' = Buffer.getLength b /\
     Buffer.getIllegal b' = Buffer.getIllegal b /\ Buffer.sized b' /\
     Buffer.copy_shared (Buffer.getLength b) (Buffer.getLength src)
       0 (length (Buffer.cells b)) (Buffer.cells b ++ Buffer.cells src)
     = Ok (Buffer.cells b' ++ Buffer.cells src)) /\
  (Buffer.isConstructed b = true ->
   Buffer.kind_ src = Buffer.Dynamic -> Buffer.isConstructed src = false ->
   0 < Buffer.getLength b -> 0 < Buffer.getLength src ->
   Buffer.copy src b = Undefined) /\
  (forall (arr : list T) (off1 off2 : nat) (size1 size2 : Z),
     0 <= size1 -> 0 <= size2 ->
     Z.of_nat off1 + size1 <= Z.of_nat (length arr) ->
     Z.of_nat off2 + size2 <= Z.of_nat (length arr) ->
     exists arr',
       Buffer.copy_shared size1 size2 off1 off2 arr = Ok arr' /\
       length arr' = length arr /\
       (forall k, (k < off1)%nat \/
                  Z.of_nat off1 + Z.min size1 size2 <= Z.of_nat k ->
          arr' !! k = arr !! k) /\
       (forall j, Z.of_nat j < Z.min size1 size2 ->
          (off1 <= off2)%nat \/
          Z.of_nat off2 + Z.min size1 size2 <= Z.of_nat off1 ->
          arr' !! (off1 + j)%nat = arr !! (off2 + j)%nat) /\
       (forall d j, off1 = (off2 + d)%nat -> (0 < d)%nat ->
          Z.of_nat j < Z.min size1 size2 ->
          arr' !! (off1 + j)%nat = arr !! (off2 + j mod d)%nat)).
Proof.
  unfold Buffer.isConstructed, Buffer.getLength, Buffer.getIllegal.
  assert (forall (arr : list T) (off1 off2 : nat) (size1 size2 : Z),
     0 <= size1 -> 0 <= size2 ->
     Z.of_nat off1 + size1 <= Z.of_nat (length arr) ->
     Z.of_nat off2 + size2 <= Z.of_nat (length arr) ->
     exists arr',
       Buffer.copy_shared size1 size2 off1 off2 arr = Ok arr' /\
       length arr' = length arr /\
       (forall k, (k < off1)%nat \/
                  Z.of_nat off1 + Z.min size1 size2 <= Z.of_nat k ->
          arr' !! k = arr !! k) /\
       (forall j, Z.of_nat j < Z.min size1 size2 ->
          (off1 <= off2)%nat \/
          Z.of_nat off2 + Z.min size1 size2 <= Z.of_nat off1 ->
          arr' !! (off1 + j)%nat = arr !! (off2 + j)%nat) /\
       (forall d j, off1 = (off2 + d)%nat -> (0 < d)%nat ->
          Z.of_nat j < Z.min size1 size2 ->
          arr' !! (off1 + j)%nat = arr !! (off2 + j mod d)%nat)) as Hshared.
  { intros arr off1 off2 size1 size2 H1 H2 Hb1 Hb2. unfold Buffer.copy_shared.
    set (size := if decide (size1 < size2) then size1 else size2).
    assert (size = Z.min size1 size2) as Hsize
      by (unfold size; case_decide; lia).
    clearbody size. rewrite <- Hsize.
    destruct (copy_shared_loop_spec (Z.to_nat size) 0 off1 off2 arr
                ltac:(lia) ltac:(lia))
      as (arr' & E & Hlen & Hout & Hlow & Hhigh).
    exists arr'. split; [done|]. split; [done|]. split; [|split].
    - intros k Hk. apply Hout. lia.
    - intros j Hj [Hle|Hapart]; [apply Hlow; lia|].
      rewrite Hhigh by lia. apply Hout. lia.
    - intros d j -> Hd Hj.
      apply (copy_shared_repeats arr arr' off2 d (Z.to_nat size));
        [done| | |lia].
      + intros k Hk. apply Hout. lia.
      + intros j' Hj'. apply Hhigh; lia. }
  split; [|split; [|split]].
  - intros Hc. unfold Buffer.copy. by rewrite Hc.
  - intros Hc Hs (cells2 & Hb2 & Hl2) Hsrc.
    destruct (sized_holds b Hc Hs) as [cells1 Hh].
    pose proof Hh as (_ & Hb1 & Hl1).
    unfold Buffer.copy. rewrite Hc. cbn [negb].
    rewrite (holds_getBuffer _ _ Hh).
    assert (Buffer.getBuffer src = Some cells2) as ->.
    { unfold Buffer.getBuffer, Buffer.isConstructed.
      destruct Hsrc as [-> | ->]; [done|]. by destruct (Buffer.kind_ src). }
    unfold Buffer.getLength.
    set (size := if decide (Buffer.count_ b < Buffer.count_ src)
                 then Buffer.count_ b else Buffer.count_ src).
    assert (size <= Buffer.count_ b /\ size <= Buffer.count_ src) as Hsz
      by (unfold size; case_decide; lia).
    rewrite (copy_loop_cells _ O) by lia. cbn [mbind outcome_bind].
    eexists. split; [done|].
    match goal with |- context [Buffer.set_buf (Some ?c) b] =>
      set (cells' := c) end.
    assert (length cells' = length cells1) as Hlen.
    { unfold cells'. rewrite !length_app, !length_take, !length_drop. lia. }
    assert (cells' = take (length cells1) cells2
                     ++ drop (length cells2) cells1) as Hcells.
    { unfold cells'.
      change (take 0 cells1) with (@nil T).
      change (drop 0 cells2) with cells2. cbn [app Nat.add].
      unfold size. case_decide.
      - replace (Z.to_nat (Buffer.count_ b)) with (length cells1) by lia.
        by rewrite (drop_ge cells1), (drop_ge cells1) by lia.
      - replace (Z.to_nat (Buffer.count_ src)) with (length cells2) by lia.
        by rewrite (take_ge cells2), (take_ge cells2) by lia. }
    split.
    { unfold Buffer.cells. cbn [Buffer.buf_ Buffer.set_buf].
      rewrite Hb1, Hb2. cbn [default id]. exact Hcells. }
    split; [done|]. split; [done|]. split.
    { apply (holds_sized _ cells'). by apply (holds_set_buf b cells1). }
    unfold Buffer.cells. cbn [Buffer.buf_ Buffer.set_buf].
    rewrite Hb1, Hb2. cbn [default id].
    destruct (Hshared (cells1 ++ cells2) O (length cells1)
                (Buffer.count_ b) (Buffer.count_ src))
      as (arr' & E & Hlen' & Hout & Hlow & _);
      [lia|lia|rewrite length_app; lia|rewrite length_app; lia|].
    rewrite E. f_equal. apply list_eq. intros k.
    assert (Z.min (Buffer.count_ b) (Buffer.count_ src) = size) as Hmin
      by (unfold size; case_decide; lia).
    rewrite Hmin in Hout, Hlow.
    destruct (decide (Z.of_nat k < size)) as [Hk|Hk].
    + pose proof (Hlow k Hk ltac:(left; lia)) as Hv. cbn [Nat.add] in Hv.
      rewrite Hv, lookup_app_r by lia.
      replace (length cells1 + k - length cells1)%nat with k by lia.
      rewrite lookup_app_l by lia. unfold cells'.
      change (take 0 cells1) with (@nil T).
      change (drop 0 cells2) with cells2. cbn [app Nat.add].
      rewrite lookup_app_l by (rewrite length_take; lia).
      by rewrite lookup_take_lt by lia.
    + rewrite Hout by (right; lia).
      destruct (decide (k < length cells1)%nat) as [Hk1|Hk1].
      * rewrite !lookup_app_l by lia. unfold cells'.
        change (take 0 cells1) with (@nil T).
        change (drop 0 cells2) with cells2. cbn [app Nat.add].
        rewrite lookup_app_r by (rewrite length_take; lia).
        rewrite length_take, lookup_drop. f_equal. lia.
      * rewrite !lookup_app_r by lia. by rewrite Hlen.
  - intros Hc Hk Hcs H1 H2. unfold Buffer.copy. rewrite Hc. cbn [negb].
    assert (Buffer.getBuffer src = None) as ->.
    { unfold Buffer.getBuffer, Buffer.isConstructed. by rewrite Hk, Hcs. }
    unfold Buffer.getLength.
    match goal with |- context [Buffer.copy_loop (Z.to_nat ?d)] =>
      destruct (Z.to_nat d) as [|n] eqn:Hd end.
    { case_decide; lia. }
    done.
  - exact Hshared.
Qed.

End BufferUse.
(** ** The list as an array *)

Section ArrayUse.

Context {T : Type} `{EqDecision T}.
Implicit Types (ns : list (positive * T)) (l : List T) (b : Buffer.t T).

(** The loop of [array] from the node at position [i]: the cells from [i]
    on receive the elements from [i] on. *)
Lemma array_loop_ring l ns k i a b cells :
  Ring l ns -> (i + k <= length ns)%nat ->
  (k <> O -> exists x, ns !! i = Some (a, x)) ->
  Buffer.holds b cells -> length cells = length ns ->
  array_loop (heap_ l) k (Z.of_nat i) a b
  = Ok (Buffer.set_buf
          (Some (take i cells ++ take k (drop i (elements ns))
                 ++ drop (i + k) cells)) b).
Proof.
  intros HR. revert i a b cells.
  induction k as [|k IH]; intros i a b cells Hk Ha Hh Hlen.
  - cbn [array_loop]. rewrite Nat.add_0_r.
    change (take 0 (drop i (elements ns))) with (@nil T). cbn [app].
    rewrite take_drop. destruct Hh as (_ & Hb & _). destruct b.
    cbn in *. by subst.
  - destruct (Ha ltac:(done)) as [x Hx]. cbn [array_loop].
    rewrite (Ring_deref _ _ _ _ _ HR Hx).
    cbn [mbind outcome_bind element_ next_ ring_cell].
    pose proof Hh as (_ & _ & Hl).
    rewrite (Buffer_set_holds _ _ _ _ Hh) by lia.
    cbn [mbind outcome_bind]. rewrite Nat2Z.id.
    replace (Z.of_nat i + 1) with (Z.of_nat (S i)) by lia.
    rewrite (IH (S i) _ _ (<[i := x]> cells)).
    + unfold Buffer.set_buf.
      cbn [Buffer.kind_ Buffer.constructed_ Buffer.count_ Buffer.illegal_
           Buffer.buf_].
      rewrite splice_step by lia.
      rewrite (drop_S (elements ns) x i); [done|].
      unfold elements. by rewrite list_lookup_fmap, Hx.
    + lia.
    + intros Hk0.
      destruct (lookup_lt_is_Some_2 ns (S i) ltac:(lia)) as [[a' y] Hy].
      exists y. rewrite Hy. do 2 f_equal. symmetry.
      apply (ring_next_eq ns i a' y). unfold succ_pos.
      by rewrite decide_False by lia.
    + apply (holds_set_buf b cells); [done|by rewrite length_insert].
    + by rewrite length_insert.
Qed.

(** [array()] on a ring. *)
Lemma array_rep l ns (misra allocated : bool) mem :
  Rep l ns ->
  (forall cells, mem = Some cells -> length cells = length ns) ->
  array misra allocated mem l =
    if decide (misra = true /\ constructed_ l = true /\ ns <> [] /\
               allocated = true /\ mem <> None)
    then Ok (Some (Buffer.mk Buffer.Dynamic true (Z.of_nat (length ns))
                     (illegal_ l) (Some (elements ns))))
    else Ok None.
Proof.
  intros HR Hmem. unfold array, isConstructed.
  destruct misra; [|by rewrite decide_False by (by intros [? _])].
  destruct (constructed_ l) eqn:Hc;
    [|by rewrite decide_False by (by intros (_ & ? & _))].
  cbn [negb]. rewrite (getLength_ring _ _ (Rep_Ring _ _ HR)).
  cbn [mbind outcome_bind]. case_decide as Hn0.
  { rewrite decide_False; [done|]. intros (_ & _ & Hn & _).
    by destruct ns. }
  destruct allocated;
    [|by rewrite decide_False by (by intros (_ & _ & _ & ? & _))].
  destruct mem as [cells|];
    [|by rewrite decide_False by (by intros (_ & _ & _ & _ & ?))].
  cbn [negb orb Buffer.new_dynamic Buffer.construct Buffer.isConstructed
       Buffer.constructed_ fst snd].
  rewrite decide_True by (split_and!; try done; by intros ->).
  pose proof (Hmem _ eq_refl) as Hlen.
  destruct (lookup_lt_is_Some_2 ns (pred (length ns)) ltac:(lia))
    as [[lst xl] Hlst].
  assert (last_ l = Some lst) as Hl
    by (by rewrite (rep_last _ _ HR), last_ring, Hlst).
  destruct (lookup_lt_is_Some_2 ns O ltac:(lia)) as [[hd xh] Hhd].
  rewrite Hl, (Ring_deref _ _ _ _ _ (Rep_Ring _ _ HR) Hlst).
  cbn [mbind outcome_bind next_ ring_cell].
  assert (ring_next ns.*1 (pred (length ns)) = hd) as ->.
  { apply (ring_next_eq ns _ hd xh). unfold succ_pos.
    by rewrite decide_True by lia. }
  rewrite Nat2Z.id.
  rewrite (array_loop_ring l ns (length ns) O hd _ cells
             (Rep_Ring _ _ HR)); [| lia | by eauto | | done].
  - cbn [mbind outcome_bind]. unfold Buffer.set_buf.
    cbn [Buffer.kind_ Buffer.constructed_ Buffer.count_ Buffer.illegal_
         Buffer.buf_ Nat.add].
    change (take 0 cells) with (@nil T).
    change (drop 0 (elements ns)) with (elements ns). cbn [app].
    rewrite drop_ge by lia.
    by rewrite app_nil_r, take_ge by (by rewrite length_elements).
  - split_and!; [done|done|]. cbn. lia.
Qed.

(** X25. With [EOOS_NO_STRICT_MISRA_RULES] defined, [array()] of a list
    that has elements, when the buffer and its array of [getLength()] cells
    could be allocated, is a constructed buffer of the length of the list
    that holds the elements in the order of the list, whatever the new
    array held before: at every index that is not negative the buffer reads
    what [get] of the list returns, the illegal value of the list past the
    end. *)
Theorem array_reads_as_get l ns cells :
  Rep l ns -> constructed_ l = true -> ns <> [] ->
  length cells = length ns ->
  exists b, array true true (Some cells) l = Ok (Some b) /\
    Buffer.isConstructed b = true /\
    Buffer.getLength b = Z.of_nat (length ns) /\
    Buffer.getIllegal b = illegal_ l /\
    Buffer.cells b = elements ns /\
    forall i, 0 <= i -> Buffer.get b i = get l i.
Proof.
  intros HR Hc Hn Hlen.
  rewrite (array_rep _ _ _ _ _ HR)
    by (by intros ? [= <-]).
  rewrite decide_True by done. eexists. split; [done|].
  split; [done|]. split; [done|]. split; [done|]. split; [done|].
  intros i Hi. rewrite (get_rep _ _ _ HR).
  rewrite (Buffer_get_holds _ (elements ns)); [done| |done].
  split_and!; [done|done|]. cbn. by rewrite length_elements.
Qed.

(** X26. [array()] always returns, given that an array the allocator
    gives has the cells asked for: it returns a null pointer exactly when
    [EOOS_NO_STRICT_MISRA_RULES] is not defined, the list is not
    constructed or has no element, or the buffer or its array could not be
    allocated. *)
Theorem array_null_exactly l ns (misra allocated : bool) mem :
  Rep l ns ->
  (forall cells, mem = Some cells -> length cells = length ns) ->
  is_Ok (array misra allocated mem l) /\
  (array misra allocated mem l = Ok None <->
     misra = false \/ constructed_ l = false \/ ns = [] \/
     allocated = false \/ mem = None).
Proof.
  intros HR Hmem. rewrite (array_rep _ _ _ _ _ HR Hmem).
  case_decide as Hd.
  - split; [by eexists|]. split; [done|].
    destruct Hd as (H1 & H2 & H3 & H4 & H5).
    intros [?|[?|[?|[?|?]]]]; congruence.
  - split; [by eexists|]. split; [|done]. intros _.
    destruct misra; [|by left]. destruct (constructed_ l); [|by right; left].
    destruct (decide (ns = [])); [by right; right; left|].
    destruct allocated; [|by right; right; right; left].
    destruct mem; [|by right; right; right; right].
    exfalso. apply Hd. by split_and!.
Qed.

End ArrayUse.
(** ** The context of a dynamic string *)

Section StringContextUse.

Context (sizeof_Type size_bits : Z).

Lemma to_size_t_small z :
  32 <= size_bits -> 0 <= z <= INT32_MAX ->
  StringContext.to_size_t size_bits z = z.
Proof.
  intros Hb Hz. unfold StringContext.to_size_t. apply Z.mod_small.
  assert (2 ^ 32 <= 2 ^ size_bits) by (apply Z.pow_le_mono_r; lia).
  unfold INT32_MAX in Hz. lia.
Qed.

Lemma to_int32_small z :
  0 <= z <= INT32_MAX -> StringContext.to_int32 z = z.
Proof.
  intros Hz. unfold StringContext.to_int32, INT32_MAX in *.
  rewrite Z.mod_small; lia.
Qed.

(** [size & ~0x7] on a [size_t]: the multiple of eight below. *)
Lemma land_lnot_7 z :
  3 <= size_bits -> 0 <= z < 2 ^ size_bits ->
  Z.land z (StringContext.to_size_t size_bits (Z.lnot 7)) = 8 * (z / 8).
Proof.
  intros Hb Hz. unfold StringContext.to_size_t.
  rewrite <- (Z.land_ones (Z.lnot 7)) by lia.
  rewrite (Z.land_comm (Z.lnot 7)), Z.land_assoc.
  rewrite (Z.land_ones z) by lia. rewrite (Z.mod_small z) by lia.
  rewrite <- Z.ldiff_land. change 7 with (Z.ones 3).
  rewrite Z.ldiff_ones_r by lia.
  rewrite Z.shiftl_mul_pow2, Z.shiftr_div_pow2 by lia.
  change (2 ^ 3) with 8. lia.
Qed.

(** X27. The array that [Context::allocate(length)] asks for has room for
    the string: for a [length] that is not negative and whose bytes, a
    terminator and the alignment fit an [int32], the size computed is a
    multiple of eight that holds [length] characters and the terminator
    and less than eight bytes more; when the allocator gives the array,
    [allocate] returns [true], records [length], and the capacity [max] it
    records is at least [length], so that [isFit(length)] holds, while
    [max] characters and a terminator still fit the bytes allocated. *)
Theorem Context_allocate_fits (string : positive) (length : Z) :
  32 <= size_bits -> 1 <= sizeof_Type -> 0 <= length ->
  (length + 1) * sizeof_Type + 7 <= INT32_MAX ->
  exists size c,
    StringContext.calculateSize sizeof_Type size_bits length = size /\
    size mod 8 = 0 /\
    (length + 1) * sizeof_Type <= size < (length + 1) * sizeof_Type + 8 /\
    StringContext.allocate sizeof_Type size_bits (Some string) length
      StringContext.new = (true, c) /\
    StringContext.str c = Some string /\ StringContext.len c = length /\
    length <= StringContext.max c /\
    StringContext.isFit c length = true /\
    (StringContext.max c + 1) * sizeof_Type <= size.
Proof.
  intros Hb Hs Hl Hfit.
  set (s0 := (length + 1) * sizeof_Type) in *.
  assert (0 <= length * sizeof_Type) by nia.
  assert (length <= length * sizeof_Type) by nia.
  assert (s0 = length * sizeof_Type + sizeof_Type) as Hs0
    by (unfold s0; lia).
  assert (2 ^ 32 <= 2 ^ size_bits) as Hpow
    by (apply Z.pow_le_mono_r; lia).
  assert (StringContext.calculateSize sizeof_Type size_bits length
          = if decide (s0 mod 8 = 0) then s0 else 8 * (s0 / 8) + 8) as Hsize.
  { unfold StringContext.calculateSize.
    rewrite (to_size_t_small length) by lia.
    rewrite (to_size_t_small (length * sizeof_Type)) by lia.
    rewrite <- Hs0. rewrite (to_size_t_small s0) by lia.
    change (Z.land s0 7) with (Z.land s0 (Z.ones 3)).
    rewrite (Z.land_ones s0 3) by lia.
    change (2 ^ 3) with 8. destruct (decide (s0 mod 8 = 0)) as [Hz8|Hz8].
    - rewrite decide_False by (intros Hn; by apply Hn).
      apply to_int32_small. lia.
    - rewrite decide_True by done.
      rewrite land_lnot_7 by (unfold INT32_MAX in *; lia).
      pose proof (Z.mod_pos_bound s0 8 ltac:(lia)).
      pose proof (Z.div_mod s0 8 ltac:(lia)).
      rewrite to_size_t_small by lia. apply to_int32_small. lia. }
  set (size := StringContext.calculateSize sizeof_Type size_bits length) in *.
  assert (size mod 8 = 0 /\ s0 <= size < s0 + 8) as [Hm8 Hbound].
  { rewrite Hsize. pose proof (Z.mod_pos_bound s0 8 ltac:(lia)).
    pose proof (Z.div_mod s0 8 ltac:(lia)). case_decide.
    - split; [done|lia].
    - split; [|lia].
      replace (8 * (s0 / 8) + 8) with ((s0 / 8 + 1) * 8) by lia.
      apply Z.mod_mul. lia. }
  assert (StringContext.calculateSize sizeof_Type size_bits length = size)
    as Hcs by done.
  clearbody size s0.
  assert (let m := StringContext.calculateLength sizeof_Type size in
          length <= m /\ (m + 1) * sizeof_Type <= size) as [Hmax Hroom].
  { unfold StringContext.calculateLength.
    assert (0 <= sizeof_Type <= INT32_MAX) as Hsz by lia.
    rewrite (to_int32_small sizeof_Type Hsz). rewrite decide_False by lia.
    rewrite Z.quot_div_nonneg by lia.
    assert (length + 1 <= size / sizeof_Type)
      by (apply Z.div_le_lower_bound; lia).
    pose proof (Z.mul_div_le size sizeof_Type ltac:(lia)).
    cbv zeta. destruct (decide (size / sizeof_Type > 1)); (split; [lia|]).
    - replace (size / sizeof_Type - 1 + 1) with (size / sizeof_Type) by lia.
      lia.
    - lia. }
  exists size, (StringContext.mk (Some string) length
                  (StringContext.calculateLength sizeof_Type size)).
  split; [done|]. split; [done|]. split; [lia|]. split.
  { unfold StringContext.allocate. cbn. by rewrite Hcs. }
  split; [done|]. split; [done|]. split; [done|]. split; [|done].
  unfold StringContext.isFit. cbn [StringContext.max].
  by rewrite decide_False by lia.
Qed.

End StringContextUse.
(** ** The properties above on the example lists, iterators and buffers *)

Module Instances.

Import Examples Samples.

Lemma reachable_list_15_20 : reachable list_15_20.
Proof.
  apply (reachable_run four_calls empty four_true list_15_20).
  - apply reachable_new.
  - vm_compute. reflexivity.
  - vm_compute. reflexivity.
Defined.

Lemma Cursor_it_15 : Cursor list_15_20 ring_15_20 it_15 0.
Proof.
  split; [reflexivity | simpl; lia | reflexivity | left; reflexivity].
Defined.

Lemma Cursor_it_20 : Cursor list_15_20 ring_15_20 it_20 1.
Proof.
  split; [reflexivity | simpl; lia | reflexivity | left; reflexivity].
Defined.

Lemma alloc_ok_7 : alloc_ok list_15_20 (Some 7%positive).
Proof. split; [reflexivity | vm_compute; reflexivity]. Defined.

Lemma sized_buffer_1_2_3 : Buffer.sized buffer_1_2_3.
Proof. exists [1; 2; 3]. split; reflexivity. Defined.

Lemma sized_buffer_7_8 : Buffer.sized buffer_7_8.
Proof. exists [7; 8]. split; reflexivity. Defined.

Lemma clear_frees_every_node_witness :
  Rep list_15_20 ring_15_20 /\
  count_ list_15_20 + Z.of_nat (length ring_15_20) <= INT32_MAX /\
  exists l', clear list_15_20 = Ok l' /\ heap_ l' = ∅ /\
    getLength l' = Ok 0 /\ count_ l' = 6.
Proof.
  assert (count_ list_15_20 + Z.of_nat (length ring_15_20) <= INT32_MAX)
    as Hc by (vm_compute; discriminate).
  split; [exact Scenarios.Rep_list_15_20|]. split; [exact Hc|].
  destruct (clear_frees_every_node list_15_20 ring_15_20
              Scenarios.Rep_list_15_20 Hc)
    as (l' & E & Hh & _ & Hl & _ & _ & Hn & _).
  exists l'. repeat split; assumption.
Defined.

Lemma remove_shifts_down_witness :
  Rep list_15_20 ring_15_20 /\ count_ list_15_20 < INT32_MAX /\
  remove 2 list_15_20 = Ok (false, list_15_20) /\
  exists l', remove 0 list_15_20 = Ok (true, l') /\
    getLength l' = Ok (Z.of_nat (length ring_15_20) - 1) /\
    get l' 0 = get list_15_20 (0 + 1).
Proof.
  assert (count_ list_15_20 < INT32_MAX) as Hc by (vm_compute; reflexivity).
  split; [exact Scenarios.Rep_list_15_20|]. split; [exact Hc|].
  destruct (remove_shifts_down list_15_20 ring_15_20 2
              Scenarios.Rep_list_15_20 Hc) as [Hout _].
  destruct (remove_shifts_down list_15_20 ring_15_20 0
              Scenarios.Rep_list_15_20 Hc) as [_ Hin].
  split; [apply Hout; simpl; lia|].
  destruct Hin as (l' & E & _ & Hl & _ & Hup); [simpl; lia|].
  exists l'. split; [exact E|]. split; [exact Hl|]. apply Hup. lia.
Defined.

Lemma add_at_then_remove_witness :
  Rep list_15_20 ring_15_20 /\ alloc_ok list_15_20 (Some 7%positive) /\
  exists l1 l2,
    add_at (Some 7%positive) 1 17 list_15_20 = Ok (true, l1) /\
    get l1 1 = Ok 17 /\ remove 1 l1 = Ok (true, l2) /\
    heap_ l2 = heap_ list_15_20 /\ last_ l2 = last_ list_15_20.
Proof.
  split; [exact Scenarios.Rep_list_15_20|]. split; [exact alloc_ok_7|].
  destruct (add_at_then_remove list_15_20 ring_15_20 7%positive 1 17
              Scenarios.Rep_list_15_20 alloc_ok_7 eq_refl
              ltac:(simpl; lia) ltac:(vm_compute; discriminate))
    as (l1 & l2 & E1 & Hg & E2 & Hh & Hl & _).
  exists l1, l2. repeat split; assumption.
Defined.

Lemma get_after_add_at_witness :
  Rep list_15_20 ring_15_20 /\ alloc_ok list_15_20 (Some 7%positive) /\
  add_at (Some 7%positive) 1 17 list_15_20 = Ok (true, list_15_17_20) /\
  getLength list_15_17_20 = Ok (Z.of_nat (length ring_15_20) + 1) /\
  get list_15_17_20 1 = Ok 17 /\
  get list_15_17_20 0 = get list_15_20 0 /\
  get list_15_17_20 2 = get list_15_20 (2 - 1).
Proof.
  assert (add_at (Some 7%positive) 1 17 list_15_20
          = Ok (true, list_15_17_20)) as E by (vm_compute; reflexivity).
  split; [exact Scenarios.Rep_list_15_20|]. split; [exact alloc_ok_7|].
  split; [exact E|].
  destruct (get_after_add_at list_15_20 ring_15_20 (Some 7%positive) 1 17
              list_15_17_20 Scenarios.Rep_list_15_20 alloc_ok_7 E)
    as (Hl & Hg & Hlow & Hup).
  split; [exact Hl|]. split; [exact Hg|].
  split; [apply Hlow; lia | apply Hup; lia].
Defined.

Lemma getIndexOf_least_witness :
  Rep list_10_20_10 ring_10_20_10 /\
  exists i, getIndexOf list_10_20_10 10 = Ok i /\
    (10 ∈ elements ring_10_20_10 ->
       0 <= i < Z.of_nat (length ring_10_20_10) /\
       get list_10_20_10 i = Ok 10 /\
       forall j, 0 <= j < i -> get list_10_20_10 j <> Ok 10).
Proof.
  split; [exact Scenarios.Rep_list_10_20_10|].
  destruct (getIndexOf_least list_10_20_10 ring_10_20_10 10
              Scenarios.Rep_list_10_20_10) as (i & E & _ & Hin).
  exists i. split; [exact E | exact Hin].
Defined.

Lemma reachable_nodes_are_the_elements_witness :
  run four_calls empty = Ok (four_true, list_15_20) /\
  reachable list_15_20 /\
  getLength list_15_20 = Ok 2 /\
  size (heap_ list_15_20) = 2%nat /\
  isEmpty list_15_20 = false /\
  isIndex list_15_20 1 = Ok true /\
  isIndex list_15_20 2 = Ok false.
Proof.
  split; [vm_compute; reflexivity|].
  split; [exact reachable_list_15_20|].
  destruct (reachable_nodes_are_the_elements list_15_20 reachable_list_15_20)
    as (n & E & Hs & Hb & He & Hi & _).
  assert (n = 2) as -> by (rewrite Hs; vm_compute; reflexivity).
  split; [exact E|]. split; [vm_compute; reflexivity|].
  split.
  { destruct (isEmpty list_15_20) eqn:Eq; [|reflexivity].
    pose proof (proj1 He eq_refl) as H2. discriminate H2. }
  split; [exact (Hi 1) | exact (Hi 2)].
Defined.

Lemma setIllegal_replaces_the_error_value_witness :
  Rep list_15_20 ring_15_20 /\
  getIllegal (setIllegal 0 list_15_20) = 0 /\
  get (setIllegal 0 list_15_20) 2 = Ok 0 /\
  get (setIllegal 0 list_15_20) 1 = get list_15_20 1.
Proof.
  split; [exact Scenarios.Rep_list_15_20|].
  destruct (setIllegal_replaces_the_error_value list_15_20 ring_15_20 0
              Scenarios.Rep_list_15_20) as [Hc _].
  destruct (Hc eq_refl) as (Hg & _ & _ & _ & Hin & Hout & _).
  split; [exact Hg|]. split; [apply Hout; simpl; lia|].
  apply Hin. simpl. lia.
Defined.

Lemma remove_at_the_ends_witness :
  Rep list_15_20 ring_15_20 /\ count_ list_15_20 < INT32_MAX /\
  getFirst list_15_20 = Ok 15 /\ getLast list_15_20 = Ok 20 /\
  (exists l', removeFirst list_15_20 = Ok (true, l') /\
     Rep l' [(2%positive, 20)]) /\
  (exists l', removeLast list_15_20 = Ok (true, l') /\
     Rep l' [(3%positive, 15)]).
Proof.
  assert (count_ list_15_20 < INT32_MAX) as Hc by (vm_compute; reflexivity).
  split; [exact Scenarios.Rep_list_15_20|]. split; [exact Hc|].
  destruct (remove_at_the_ends list_15_20 ring_15_20
              Scenarios.Rep_list_15_20 Hc) as (_ & Hhead & Hlast).
  destruct (Hhead 3%positive 15 [(2%positive, 20)] eq_refl)
    as (Hf & _ & l1 & E1 & _ & HR1).
  destruct (Hlast 2%positive 20 [(3%positive, 15)] eq_refl)
    as (Hl & l2 & E2 & HR2).
  split; [exact Hf|]. split; [exact Hl|].
  split; [exists l1 | exists l2]; split; assumption.
Defined.

Lemma queue_first_in_first_out_witness :
  NoDup nodes_10_20_30.*1 /\
  2 * Z.of_nat (length nodes_10_20_30) <= INT32_MAX /\
  exists l1 l2,
    run (enqueue_all nodes_10_20_30) empty
    = Ok ([RBool true; RBool true; RBool true], l1) /\
    run (dequeue_all 3) l1
    = Ok ([RElem 10; RBool true; RElem 20; RBool true;
           RElem 30; RBool true], l2) /\
    isEmpty l2 = true /\ heap_ l2 = ∅.
Proof.
  assert (NoDup nodes_10_20_30.*1) as Hnd
    by (apply (bool_decide_unpack _); vm_compute; exact I).
  assert (2 * Z.of_nat (length nodes_10_20_30) <= INT32_MAX) as Hl
    by (vm_compute; discriminate).
  split; [exact Hnd|]. split; [exact Hl|].
  exact (queue_first_in_first_out (-1) nodes_10_20_30 Hnd Hl).
Defined.

Lemma getListIterator_null_exactly_witness :
  Rep list_15_20 ring_15_20 /\
  getListIterator true 3 list_15_20 = Ok None /\
  getListIterator true 1 list_15_20 = Ok (Some it_20) /\
  fresh_it list_15_20 it_20 /\ getNextIndex list_15_20 it_20 = Ok 1 /\
  it_remove list_15_20 it_20 = Ok (false, list_15_20, it_20).
Proof.
  assert (getListIterator true 1 list_15_20 = Ok (Some it_20)) as E
    by reflexivity.
  split; [exact Scenarios.Rep_list_15_20|].
  destruct (getListIterator_null_exactly list_15_20 ring_15_20 true 3
              Scenarios.Rep_list_15_20) as (_ & Hnull & _).
  destruct (getListIterator_null_exactly list_15_20 ring_15_20 true 1
              Scenarios.Rep_list_15_20) as (_ & _ & Hit).
  split; [apply Hnull; right; right; right; simpl; lia|].
  split; [exact E|].
  destruct (Hit it_20 E) as (Hf & Hn & _ & Hr).
  split; [exact Hf|]. split; [exact Hn | exact Hr].
Defined.

Lemma iteration_visits_every_element_witness :
  Rep list_15_20 ring_15_20 /\
  getListIterator true 0 list_15_20 = Ok (Some it_15) /\
  (length ring_15_20 <= 2)%nat /\
  exists it', next_all 2 list_15_20 it_15 = Ok ([15; 20], it') /\
    hasNext list_15_20 it' = false /\
    getNext list_15_20 it' = Ok (illegal_ list_15_20, it') /\
    getNextIndex list_15_20 it' = Ok 2.
Proof.
  assert (getListIterator true 0 list_15_20 = Ok (Some it_15)) as E
    by reflexivity.
  assert (length ring_15_20 <= 2)%nat as Hn by (simpl; lia).
  split; [exact Scenarios.Rep_list_15_20|]. split; [exact E|].
  split; [exact Hn|].
  exact (iteration_visits_every_element list_15_20 ring_15_20 0 it_15 2
           Scenarios.Rep_list_15_20 E Hn).
Defined.

Lemma iteration_backwards_to_the_head_witness :
  Rep list_15_20 ring_15_20 /\
  getListIterator true 1 list_15_20 = Ok (Some it_20) /\
  1 < Z.of_nat (length ring_15_20) /\ (length ring_15_20 <= 2)%nat /\
  exists it', previous_all 2 list_15_20 it_20 = Ok ([15], it') /\
    hasPrevious list_15_20 it' = Ok false /\
    getPreviousIndex list_15_20 it' = Ok (-1) /\
    getPrevious list_15_20 it' = Ok (illegal_ list_15_20, it') /\
    getNextIndex list_15_20 it' = Ok 0.
Proof.
  assert (getListIterator true 1 list_15_20 = Ok (Some it_20)) as E
    by reflexivity.
  assert (1 < Z.of_nat (length ring_15_20)) as Hi by (simpl; lia).
  assert (length ring_15_20 <= 2)%nat as Hn by (simpl; lia).
  split; [exact Scenarios.Rep_list_15_20|]. split; [exact E|].
  split; [exact Hi|]. split; [exact Hn|].
  exact (iteration_backwards_to_the_head list_15_20 ring_15_20 1 it_20 2
           Scenarios.Rep_list_15_20 E Hi Hn).
Defined.

Lemma getNext_getPrevious_same_element_witness :
  Rep list_15_20 ring_15_20 /\
  ring_15_20 !! O = Some (3%positive, 15) /\ (1 < length ring_15_20)%nat /\
  (exists it1 it2, getNext list_15_20 it_15 = Ok (15, it1) /\
     getPrevious list_15_20 it1 = Ok (15, it2) /\
     curs_ it2 = curs_ it_15 /\ rindex_ it2 = 0) /\
  (exists it1 it2, getPrevious list_15_20 it_20 = Ok (15, it1) /\
     getNext list_15_20 it1 = Ok (15, it2) /\
     curs_ it2 = curs_ it_20 /\ rindex_ it2 = 0).
Proof.
  assert (1 < length ring_15_20)%nat as Hn by (simpl; lia).
  split; [exact Scenarios.Rep_list_15_20|]. split; [reflexivity|].
  split; [exact Hn|].
  destruct (getNext_getPrevious_same_element list_15_20 ring_15_20 O
              3%positive 15 Scenarios.Rep_list_15_20 eq_refl Hn)
    as [Hfwd Hbwd].
  split; [exact (Hfwd it_15 Cursor_it_15) | exact (Hbwd it_20 Cursor_it_20)].
Defined.

Lemma it_add_before_the_cursor_witness :
  Rep list_15_20 ring_15_20 /\ Cursor list_15_20 ring_15_20 it_20 1 /\
  alloc_ok list_15_20 (Some 7%positive) /\
  exists l' it',
    it_add (Some 7%positive) 17 list_15_20 it_20 = Ok (true, l', it') /\
    Rep l' ring_15_17_20 /\ getNextIndex l' it' = Ok 2 /\
    it_remove l' it' = Ok (false, l', it') /\
    (exists it'', getNext l' it' = Ok (20, it'')) /\
    (exists it'', getPrevious l' it' = Ok (17, it'')) /\
    Cursor list_15_20 ring_15_20 it_past 2 /\
    exists l2 it2,
      it_add (Some 7%positive) 25 list_15_20 it_past = Ok (true, l2, it2) /\
      Rep l2 (ring_15_20 ++ [(7%positive, 25)]) /\
      getNextIndex l2 it2 = Ok 3 /\
      curs_ it2 = None /\
      hasNext l2 it2 = false /\
      hasPrevious l2 it2 = Undefined /\
      getPrevious l2 it2 = Undefined /\
      getPreviousIndex l2 it2 = Undefined.
Proof.
  assert (Cursor list_15_20 ring_15_20 it_past 2) as Hpast
    by (split; [reflexivity | simpl; lia | reflexivity | left; reflexivity]).
  split; [exact Scenarios.Rep_list_15_20|]. split; [exact Cursor_it_20|].
  split; [exact alloc_ok_7|].
  destruct (it_add_before_the_cursor list_15_20 ring_15_20 it_20 1
              7%positive 17 Scenarios.Rep_list_15_20 Cursor_it_20
              alloc_ok_7 eq_refl ltac:(vm_compute; reflexivity))
    as (l' & it' & E & HR & Hn & Hr & Hmoves & _).
  destruct (Hmoves 2%positive 20 eq_refl) as [Hnext Hprev].
  exists l', it'. split; [exact E|]. split; [exact HR|].
  split; [exact Hn|]. split; [exact Hr|]. split; [exact Hnext|].
  split; [exact Hprev|]. split; [exact Hpast|].
  destruct (it_add_before_the_cursor list_15_20 ring_15_20 it_past 2
              7%positive 25 Scenarios.Rep_list_15_20 Hpast
              alloc_ok_7 eq_refl ltac:(vm_compute; reflexivity))
    as (l2 & it2 & E2 & HR2 & Hn2 & _ & _ & Hend).
  exists l2, it2. split; [exact E2|]. split; [exact HR2|].
  split; [exact Hn2|]. exact (Hend eq_refl).
Defined.

Lemma it_remove_last_returned_witness :
  Rep list_15_20 ring_15_20 /\
  Cursor list_15_20 ring_15_20 it_15 0 /\
  getNext list_15_20 it_15 = Ok (15, it_15_next) /\
  exists l' it2 it3,
    it_remove list_15_20 it_15_next = Ok (true, l', it2) /\
    Rep l' (delete O ring_15_20) /\
    it_remove l' it2 = Ok (false, l', it2) /\
    getNextIndex l' it2 = Ok 0 /\
    getNext l' it2 = Ok (20, it3).
Proof.
  assert (getNext list_15_20 it_15 = Ok (15, it_15_next)) as E
    by reflexivity.
  split; [exact Scenarios.Rep_list_15_20|]. split; [exact Cursor_it_15|].
  split; [exact E|].
  exact (it_remove_last_returned list_15_20 ring_15_20 O 3%positive 15
           2%positive 20 Scenarios.Rep_list_15_20 eq_refl eq_refl
           ltac:(vm_compute; reflexivity) it_15 it_15_next
           (or_introl (conj Cursor_it_15 E))).
Defined.

Lemma change_through_iterator_stales_the_others_witness :
  Rep list_15_20 ring_15_20 /\ self_ it_past <= count_ list_15_20 /\
  it_add (Some 7%positive) 17 list_15_20 it_20
  = Ok (true, list_15_17_20, it_20_added) /\
  fresh_it list_15_17_20 it_20_added /\
  stale list_15_17_20 it_past /\ refuses list_15_17_20 it_past.
Proof.
  assert (self_ it_past <= count_ list_15_20) as Hs
    by (vm_compute; discriminate).
  assert (it_add (Some 7%positive) 17 list_15_20 it_20
          = Ok (true, list_15_17_20, it_20_added)) as E
    by (vm_compute; reflexivity).
  split; [exact Scenarios.Rep_list_15_20|]. split; [exact Hs|].
  split; [exact E|].
  destruct (change_through_iterator_stales_the_others list_15_20
              ring_15_20 it_20 it_past Scenarios.Rep_list_15_20 Hs)
    as [Hadd _].
  exact (Hadd (Some 7%positive) 17 list_15_17_20 it_20_added alloc_ok_7 E).
Defined.

Lemma iterator_of_an_empty_list_witness :
  Rep empty [] /\ getIterator true empty = Ok (Some it_empty) /\
  hasNext empty it_empty = false /\
  hasPrevious empty it_empty = Ok false /\
  getPreviousIndex empty it_empty = Ok (-1) /\
  it_remove empty it_empty = Ok (false, empty, it_empty).
Proof.
  assert (getIterator true empty = Ok (Some it_empty)) as E by reflexivity.
  split; [exact Scenarios.Rep_empty_list|]. split; [exact E|].
  destruct (iterator_of_an_empty_list empty it_empty
              Scenarios.Rep_empty_list E)
    as (Hn & Hp & _ & _ & _ & Hpi & Hr & _).
  repeat split; assumption.
Defined.

Lemma Buffer_write_then_read_witness :
  Buffer.isConstructed buffer_1_2_3 = true /\ Buffer.sized buffer_1_2_3 /\
  0 <= 1 < Buffer.getLength buffer_1_2_3 /\
  exists b', Buffer.set buffer_1_2_3 1 9 = Ok b' /\
    Buffer.get b' 1 = Ok 9 /\
    Buffer.get b' 0 = Buffer.get buffer_1_2_3 0.
Proof.
  assert (0 <= 1 < Buffer.getLength buffer_1_2_3) as Hi
    by (vm_compute; split; [discriminate | reflexivity]).
  split; [reflexivity|]. split; [exact sized_buffer_1_2_3|].
  split; [exact Hi|].
  destruct (Buffer_write_then_read buffer_1_2_3 1 9 eq_refl
              sized_buffer_1_2_3 Hi) as (b' & E & Hg & Hothers & _).
  exists b'. split; [exact E|]. split; [exact Hg|]. apply Hothers. lia.
Defined.


Lemma Buffer_fill_at_range_witness :
  Buffer.isConstructed buffer_1_2_3 = true /\ Buffer.sized buffer_1_2_3 /\
  (exists b', Buffer.fill_at 0 1 5 buffer_1_2_3 = Ok b' /\
     Buffer.get b' 0 = Buffer.get buffer_1_2_3 0 /\
     Buffer.get b' 2 = Ok 0) /\
  (exists b', Buffer.fill 0 buffer_1_2_3 = Ok b' /\
     Buffer.cells b' = [0; 0; 0]) /\
  Buffer.fill_at 9 3 INT32_MAX buffer_1_2_3 = Ok buffer_1_2_3 /\
  Buffer.fill_at 9 1 INT32_MAX buffer_1_2_3 = Undefined.
Proof.
  split; [reflexivity|]. split; [exact sized_buffer_1_2_3|].
  destruct (Buffer_fill_at_range buffer_1_2_3 0 1 5 eq_refl
              sized_buffer_1_2_3 ltac:(vm_compute; discriminate)
              ltac:(lia) ltac:(vm_compute; discriminate))
    as (Hin & _ & _ & Hall).
  destruct (Hin ltac:(vm_compute; discriminate))
    as (b' & E & _ & _ & _ & _ & Hcells).
  split.
  { exists b'. split; [exact E|].
    split; [exact (Hcells 0 ltac:(vm_compute; split; [discriminate |
                                                         reflexivity]))|].
    exact (Hcells 2 ltac:(vm_compute; split; [discriminate | reflexivity])). }
  split; [exact Hall|]. split.
  - destruct (Buffer_fill_at_range buffer_1_2_3 9 3 INT32_MAX eq_refl
                sized_buffer_1_2_3 ltac:(vm_compute; discriminate)
                ltac:(lia) ltac:(vm_compute; discriminate))
      as (_ & Hout & _).
    exact (Hout ltac:(vm_compute; discriminate)).
  - destruct (Buffer_fill_at_range buffer_1_2_3 9 1 INT32_MAX eq_refl
                sized_buffer_1_2_3 ltac:(vm_compute; discriminate)
                ltac:(lia) ltac:(vm_compute; discriminate))
      as (_ & _ & Hover & _).
    exact (Hover ltac:(vm_compute; reflexivity)
                 ltac:(vm_compute; reflexivity)).
Defined.

Lemma Buffer_copy_prefix_witness :
  Buffer.sized buffer_1_2_3 /\ Buffer.sized buffer_7_8 /\
  (exists b', Buffer.copy buffer_7_8 buffer_1_2_3 = Ok b' /\
     Buffer.cells b' = [7; 8; 3] /\
     Buffer.copy_shared 3 2 0 3 [1; 2; 3; 7; 8] = Ok [7; 8; 3; 7; 8]) /\
  (exists b', Buffer.copy buffer_1_2_3 buffer_7_8 = Ok b' /\
     Buffer.cells b' = [1; 2]) /\
  Buffer.isConstructed buffer_failed = false /\
  ~ Buffer.sized buffer_failed /\
  Buffer.copy buffer_failed buffer_1_2_3 = Undefined /\
  Buffer.copy buffer_1_2_3 buffer_failed = Ok buffer_failed /\
  (exists arr', Buffer.copy_shared 3 3 1 0 [1; 2; 3; 4] = Ok arr' /\
     arr' = [1; 1; 1; 1] /\ arr' !! 3%nat = Some 1) /\
  (exists arr', Buffer.copy_shared 3 3 0 1 [1; 2; 3; 4] = Ok arr' /\
     arr' = [2; 3; 4; 4] /\ arr' !! 2%nat = Some 4).
Proof.
  split; [exact sized_buffer_1_2_3|]. split; [exact sized_buffer_7_8|].
  destruct (Buffer_copy_prefix buffer_7_8 buffer_1_2_3)
    as (_ & H1 & _ & Hshared).
  destruct (Buffer_copy_prefix buffer_1_2_3 buffer_7_8) as (_ & H2 & _).
  destruct (Buffer_copy_prefix buffer_failed buffer_1_2_3) as (_ & _ & H3 & _).
  destruct (Buffer_copy_prefix buffer_1_2_3 buffer_failed) as (H4 & _).
  destruct (H1 eq_refl sized_buffer_1_2_3 sized_buffer_7_8
              (or_introl eq_refl)) as (b1 & E1 & C1 & _ & _ & _ & S1).
  destruct (H2 eq_refl sized_buffer_7_8 sized_buffer_1_2_3
              (or_introl eq_refl)) as (b2 & E2 & C2 & _).
  split.
  { exists b1. split; [exact E1|]. split; [exact C1|].
    rewrite C1 in S1. exact S1. }
  split; [exists b2; split; [exact E2 | exact C2]|].
  split; [reflexivity|].
  split; [intros (c & Hc & _); discriminate Hc|].
  split; [exact (H3 eq_refl eq_refl eq_refl eq_refl eq_refl)|].
  split; [exact (H4 eq_refl)|].
  split.
  - destruct (Hshared [1; 2; 3; 4] 1%nat 0%nat 3 3)
      as (arr' & E & _ & _ & _ & Hrep);
      [lia | lia | simpl; lia | simpl; lia |].
    exists arr'. split; [exact E|]. split.
    + assert (Ok arr' = Ok [1; 1; 1; 1]) as Eq
        by (rewrite <- E; vm_compute; reflexivity).
      injection Eq as ->. reflexivity.
    + exact (Hrep 1%nat 2%nat eq_refl ltac:(lia) ltac:(lia)).
  - destruct (Hshared [1; 2; 3; 4] 0%nat 1%nat 3 3)
      as (arr' & E & _ & _ & Hlow & _);
      [lia | lia | simpl; lia | simpl; lia |].
    exists arr'. split; [exact E|]. split.
    + assert (Ok arr' = Ok [2; 3; 4; 4]) as Eq
        by (rewrite <- E; vm_compute; reflexivity).
      injection Eq as ->. reflexivity.
    + exact (Hlow 2%nat ltac:(lia) ltac:(left; lia)).
Defined.

Lemma array_reads_as_get_witness :
  Rep list_15_20 ring_15_20 /\
  exists b, array true true (Some [0; 0]) list_15_20 = Ok (Some b) /\
    Buffer.getLength b = 2 /\ Buffer.cells b = [15; 20] /\
    Buffer.get b 1 = get list_15_20 1 /\
    Buffer.get b 2 = get list_15_20 2.
Proof.
  split; [exact Scenarios.Rep_list_15_20|].
  destruct (array_reads_as_get list_15_20 ring_15_20 [0; 0]
              Scenarios.Rep_list_15_20 eq_refl ltac:(discriminate) eq_refl)
    as (b & E & _ & Hl & _ & Hc & Hg).
  exists b. split; [exact E|]. split; [exact Hl|]. split; [exact Hc|].
  split; apply Hg; lia.
Defined.

Lemma array_null_exactly_witness :
  Rep list_15_20 ring_15_20 /\
  array true true None list_15_20 = Ok None /\
  array false true (Some [0; 0]) list_15_20 = Ok None /\
  is_Ok (array true true (Some [0; 0]) list_15_20).
Proof.
  split; [exact Scenarios.Rep_list_15_20|].
  destruct (array_null_exactly list_15_20 ring_15_20 true true None
              Scenarios.Rep_list_15_20 ltac:(discriminate)) as [_ H1].
  destruct (array_null_exactly list_15_20 ring_15_20 false true
              (Some [0; 0]) Scenarios.Rep_list_15_20
              ltac:(by intros ? [= <-])) as [_ H2].
  destruct (array_null_exactly list_15_20 ring_15_20 true true
              (Some [0; 0]) Scenarios.Rep_list_15_20
              ltac:(by intros ? [= <-])) as [H3 _].
  split; [apply H1; right; right; right; right; reflexivity|].
  split; [apply H2; left; reflexivity | exact H3].
Defined.

Lemma reachable_ring_is_well_linked_witness :
  reachable list_15_20 /\
  heap_ list_15_20 !! 3%positive = Some (mkNode 15 0 2%positive 2%positive) /\
  getNodeByIndex list_15_20 0 = Ok (Some 3%positive) /\
  (exists m, heap_ list_15_20 !! 2%positive = Some m /\
     prev_ m = 3%positive /\ index_ m = 1) /\
  (exists m, heap_ list_15_20 !! 2%positive = Some m /\
     next_ m = 3%positive).
Proof.
  assert (heap_ list_15_20 !! 3%positive
          = Some (mkNode 15 0 2%positive 2%positive)) as E
    by (vm_compute; reflexivity).
  split; [exact reachable_list_15_20|]. split; [exact E|].
  destruct (reachable_ring_is_well_linked list_15_20 3%positive
              (mkNode 15 0 2%positive 2%positive) reachable_list_15_20 E)
    as (_ & Hg & Hn & Hp & _).
  split; [exact Hg|]. split; [exact Hn | exact Hp].
Defined.

Lemma list_calls_are_defined_witness :
  reachable list_15_20 /\
  op_alloc_okb (OAdd (Some 7%positive) 17) list_15_20 = true /\
  count_ list_15_20 + Z.of_nat (size (heap_ list_15_20)) < INT32_MAX /\
  is_Ok (exec (OAdd (Some 7%positive) 17) list_15_20) /\
  is_Ok (exec OClear list_15_20).
Proof.
  assert (count_ list_15_20 + Z.of_nat (size (heap_ list_15_20))
          < INT32_MAX) as Hc by (vm_compute; reflexivity).
  assert (op_alloc_okb (OAdd (Some 7%positive) 17) list_15_20 = true)
    as Ha by (vm_compute; reflexivity).
  split; [exact reachable_list_15_20|]. split; [exact Ha|].
  split; [exact Hc|]. split.
  - exact (list_calls_are_defined list_15_20 (OAdd (Some 7%positive) 17)
             reachable_list_15_20 Ha Hc).
  - exact (list_calls_are_defined list_15_20 OClear reachable_list_15_20
             eq_refl Hc).
Defined.

Lemma Context_allocate_fits_witness :
  (5 + 1) * 1 + 7 <= INT32_MAX /\
  exists size c,
    StringContext.calculateSize 1 64 5 = size /\ size mod 8 = 0 /\
    (5 + 1) * 1 <= size < (5 + 1) * 1 + 8 /\
    StringContext.allocate 1 64 (Some 1%positive) 5 StringContext.new
    = (true, c) /\
    StringContext.str c = Some 1%positive /\ StringContext.len c = 5 /\
    5 <= StringContext.max c /\ StringContext.isFit c 5 = true /\
    (StringContext.max c + 1) * 1 <= size.
Proof.
  assert ((5 + 1) * 1 + 7 <= INT32_MAX) as Hfit
    by (vm_compute; discriminate).
  split; [exact Hfit|].
  exact (Context_allocate_fits 1 64 1%positive 5
           ltac:(vm_compute; discriminate) ltac:(vm_compute; discriminate)
           ltac:(vm_compute; discriminate) Hfit).
Defined.

End Instances.
